(** * validate-marketplace-pr: a shallow embedding of the marketplace
      pull-request validator (scripts/validate-marketplace-pr.mjs)

    The script reads a base index.json and a proposed (pr) index.json,
    checks the shape of the proposal, forbids removing plugins and
    altering published versions, downloads the artifacts of the new
    versions and compares their SHA-256 digests.  Every problem found is
    pushed on one shared [errors] array and the run succeeds when that
    array is empty.

    Modelling choices.
    - A parsed document is a [json] value.  A JavaScript object is the
      list of its own properties in creation order; the order in which
      the engine enumerates them (array-index keys first, in numeric
      order, then the other keys in creation order) is computed by
      [own_entries].  Objects produced by JSON.parse have pairwise
      distinct keys ([json_wf]).
    - Reading a property yields [option json]; [None] is [undefined].
    - Strings are sequences of code units below 256; numbers are the
      integers (a JSON number with a fraction or an exponent is outside
      the model).  The conversions of a number to text are the engine's
      for the safe integers, of magnitude at most 2^53 - 1
      ([Number_isSafeInteger]): JSON.parse reads such a number exactly
      and prints it digit by digit.  A larger integer is rounded to a
      double, printed in exponent form from 10^21 on, and is Infinity
      beyond the double range; the statements that depend on the text of
      a number assume [safe_numbers].  The two zeros are one value: no
      operation of the script tells them apart.
    - The errors array is append-only, so a statement that may push is a
      computation in the monad [M] which logs the pushed messages and can
      abort with a thrown exception ([Throw]).
    - The URL parser, the network and the hash function belong to the
      platform; they are section variables.
    - The command line is modelled by [main]: the argument list, the
      exit status, the two output streams and the file written; reading
      and writing files are parameters of it. *)

From Stdlib Require Import ZArith NArith List String Ascii Bool Lia Permutation.
From Stdlib Require Import Numbers.DecimalString Structures.OrderedTypeEx.
From Stdlib Require Import Sorting.Sorted DecimalPos.
Import ListNotations.
Local Open Scope list_scope.
Local Open Scope string_scope.

(** * Strings *)

(** The double quote, as a one-character string. *)
Definition dq : string := String "034"%char EmptyString.

Definition code (c : ascii) : N := N_of_ascii c.

Definition in_range (lo hi : N) (c : ascii) : bool :=
  ((lo <=? code c) && (code c <=? hi))%N.

(** White space and line terminators removed by String.prototype.trim:
    TAB, LF, VT, FF, CR, SPACE and NO-BREAK SPACE. *)
Definition is_white_space (c : ascii) : bool :=
  in_range 9 13 c || (code c =? 32)%N || (code c =? 160)%N.

Fixpoint trimStart (s : string) : string :=
  match s with
  | EmptyString => EmptyString
  | String c r => if is_white_space c then trimStart r else s
  end.

Fixpoint trimEnd (s : string) : string :=
  match s with
  | EmptyString => EmptyString
  | String c r =>
      match trimEnd r with
      | EmptyString => if is_white_space c then EmptyString else String c EmptyString
      | r' => String c r'
      end
  end.

Definition trim (s : string) : string := trimEnd (trimStart s).

(** String.prototype.toLowerCase on code units below 256: the ASCII
    capitals and the Latin-1 capitals (all of U+00C0..U+00DE but the
    multiplication sign) move up by 32. *)
Definition lower_char (c : ascii) : ascii :=
  if in_range 65 90 c || (in_range 192 222 c && negb (code c =? 215)%N)
  then ascii_of_N (code c + 32)
  else c.

Fixpoint toLowerCase (s : string) : string :=
  match s with
  | EmptyString => EmptyString
  | String c r => String (lower_char c) (toLowerCase r)
  end.

Fixpoint string_forallb (p : ascii -> bool) (s : string) : bool :=
  match s with
  | EmptyString => true
  | String c r => p c && string_forallb p r
  end.

Definition startsWith (s pre : string) : bool := String.prefix pre s.

Definition endsWith (s suf : string) : bool :=
  (String.length suf <=? String.length s)%nat &&
  (substring (String.length s - String.length suf) (String.length suf) s =? suf).

(** Number::toString on a safe integer: its decimal digits, after a
    minus sign when it is negative. *)
Definition number_to_string (n : Z) : string :=
  NilZero.string_of_int (Z.to_int n).

(** * JSON values *)

Unset Elimination Schemes.
Inductive json : Type :=
| JNull
| JBool (b : bool)
| JNum (n : Z)
| JStr (s : string)
| JArr (items : list json)
| JObj (props : list (string * json)).
Set Elimination Schemes.

(** The result of reading a property or a variable: [None] is
    [undefined]. *)
Definition value := option json.

Section JsonInduction.
Variable P : json -> Prop.
Hypothesis Hnull : P JNull.
Hypothesis Hbool : forall b, P (JBool b).
Hypothesis Hnum : forall n, P (JNum n).
Hypothesis Hstr : forall s, P (JStr s).
Hypothesis Harr : forall items, Forall P items -> P (JArr items).
Hypothesis Hobj : forall props, Forall (fun kv => P (snd kv)) props -> P (JObj props).

Fixpoint json_nested_ind (v : json) : P v :=
  match v with
  | JNull => Hnull
  | JBool b => Hbool b
  | JNum n => Hnum n
  | JStr s => Hstr s
  | JArr items =>
      Harr items
        ((fix go (l : list json) : Forall P l :=
            match l with
            | [] => Forall_nil P
            | x :: r => Forall_cons x (json_nested_ind x) (go r)
            end) items)
  | JObj props =>
      Hobj props
        ((fix go (l : list (string * json)) : Forall (fun kv => P (snd kv)) l :=
            match l with
            | [] => Forall_nil _
            | kv :: r => Forall_cons kv (json_nested_ind (snd kv)) (go r)
            end) props)
  end.
End JsonInduction.

(** ** Association lists: own properties, Map and Set *)

Section Assoc.
Context {K A : Type}.
Variable eqb : K -> K -> bool.

(** Map.prototype.get, and the lookup of an own property. *)
Fixpoint assoc_get (k : K) (l : list (K * A)) : option A :=
  match l with
  | [] => None
  | (k', a) :: r => if eqb k k' then Some a else assoc_get k r
  end.

(** Map.prototype.set, and the assignment to a data property: an
    existing key keeps its place, a new key goes last. *)
Fixpoint assoc_set (k : K) (a : A) (l : list (K * A)) : list (K * A) :=
  match l with
  | [] => [(k, a)]
  | (k', a') :: r => if eqb k k' then (k', a) :: r else (k', a') :: assoc_set k a r
  end.
End Assoc.

Definition keys {A} (l : list (string * A)) : list string := map fst l.

(** ** Property enumeration order *)

Definition is_digit (c : ascii) : bool := in_range 48 57 c.

Fixpoint digits_value (s : string) (acc : N) : option N :=
  match s with
  | EmptyString => Some acc
  | String c r =>
      if is_digit c then digits_value r (10 * acc + (code c - 48))%N else None
  end.

(** A property key is an array index when it is the canonical decimal
    form of an integer between 0 and 2^32 - 2. *)
Definition array_index (s : string) : option N :=
  match s with
  | EmptyString => None
  | String c r =>
      if (c =? "0")%char then
        match r with EmptyString => Some 0%N | _ => None end
      else
        match digits_value s 0 with
        | Some n => if (n <=? 4294967294)%N then Some n else None
        | None => None
        end
  end.

Definition is_index (s : string) : bool :=
  match array_index s with Some _ => true | None => false end.

Definition index_of (s : string) : N :=
  match array_index s with Some n => n | None => 0%N end.

Section OwnEntries.
Context {A : Type}.

Fixpoint insert_index (p : string * A) (l : list (string * A)) : list (string * A) :=
  match l with
  | [] => [p]
  | h :: t =>
      if (index_of (fst p) <=? index_of (fst h))%N then p :: l
      else h :: insert_index p t
  end.

Fixpoint sort_index (l : list (string * A)) : list (string * A) :=
  match l with
  | [] => []
  | h :: t => insert_index h (sort_index t)
  end.

(** OrdinaryOwnPropertyKeys: the array-index keys in ascending numeric
    order, then the other keys in creation order. *)
Definition own_entries (props : list (string * A)) : list (string * A) :=
  (sort_index (filter (fun p => is_index (fst p)) props)
   ++ filter (fun p => negb (is_index (fst p))) props)%list.
End OwnEntries.

(** Object.keys *)
Definition Object_keys {A} (props : list (string * A)) : list string :=
  keys (own_entries props).

(** Array.prototype.sort without a comparator on an array of strings:
    ascending code-unit order. *)
Fixpoint insert_key (k : string) (l : list string) : list string :=
  match l with
  | [] => [k]
  | h :: t => if (k <=? h) then k :: l else h :: insert_key k t
  end.

Fixpoint sort (l : list string) : list string :=
  match l with
  | [] => []
  | h :: t => insert_key h (sort t)
  end.

(** [acc[key] = v] on an object created by the literal [{}]: the key
    __proto__ reaches the inherited setter and creates no own property,
    every other key creates or overwrites an own data property. *)
Definition obj_assign {A} (acc : list (string * A)) (key : string) (v : A)
  : list (string * A) :=
  if key =? "__proto__" then acc else assoc_set String.eqb key v acc.

(** * Canonical form *)

(** [stableObject].  The recursive calls on the property values are made
    first, so that the recursion is structural; the properties are then
    read by key, in sorted key order, as the source does with
    [value[key]] ([stableObject_obj] below states the source's shape). *)
Fixpoint stableObject (value : json) : json :=
  match value with
  | JArr items => JArr (map stableObject items)
  | JObj props =>
      let stable := map (fun '(k, v) => (k, stableObject v)) props in
      JObj (fold_left
              (fun acc key =>
                 match assoc_get String.eqb key stable with
                 | Some v => obj_assign acc key v
                 | None => acc
                 end)
              (sort (Object_keys stable)) [])
  | _ => value
  end.

Definition hex_digit (n : N) : ascii :=
  if (n <? 10)%N then ascii_of_N (48 + n) else ascii_of_N (87 + n).

(** QuoteJSONString, one code unit at a time. *)
Definition quote_char (c : ascii) : string :=
  if (code c =? 34)%N then "\" ++ dq
  else if (code c =? 92)%N then "\\"
  else if (code c =? 8)%N then "\b"
  else if (code c =? 12)%N then "\f"
  else if (code c =? 10)%N then "\n"
  else if (code c =? 13)%N then "\r"
  else if (code c =? 9)%N then "\t"
  else if (code c <? 32)%N then
    "\u00" ++ String (hex_digit (code c / 16)) (String (hex_digit (code c mod 16)) EmptyString)
  else String c EmptyString.

Fixpoint quote_body (s : string) : string :=
  match s with
  | EmptyString => EmptyString
  | String c r => quote_char c ++ quote_body r
  end.

Definition quote (s : string) : string := dq ++ quote_body s ++ dq.

(** JSON.stringify with one argument. *)
Fixpoint stringify (value : json) : string :=
  match value with
  | JNull => "null"
  | JBool b => if b then "true" else "false"
  | JNum n => number_to_string n
  | JStr s => quote s
  | JArr items => "[" ++ String.concat "," (map stringify items) ++ "]"
  | JObj props =>
      "{" ++ String.concat ","
               (map (fun '(k, s) => quote k ++ ":" ++ s)
                    (own_entries (map (fun '(k, v) => (k, stringify v)) props)))
          ++ "}"
  end.

Definition stableStringify (value : json) : string :=
  stringify (stableObject value).

(** * JavaScript operations on values *)

(** ToBoolean. *)
Definition truthy (v : value) : bool :=
  match v with
  | None | Some JNull => false
  | Some (JBool b) => b
  | Some (JNum n) => negb (n =? 0)%Z
  | Some (JStr s) => negb (s =? EmptyString)
  | Some (JArr _) | Some (JObj _) => true
  end.

(** [o.key] for a value [o] that is neither null nor undefined, and for
    the keys the script reads (none of them is found on a prototype):
    the own property of an object, [undefined] on anything else. *)
Definition prop (o : json) (key : string) : value :=
  match o with
  | JObj props => assoc_get String.eqb key props
  | _ => None
  end.

(** [o?.key], also used for [o.key] behind a guard on [o]. *)
Definition opt_prop (o : value) (key : string) : value :=
  match o with
  | None | Some JNull => None
  | Some o' => prop o' key
  end.

(** [a === b] for two values read from different places: two objects
    (or arrays) are then never the same object. *)
Definition strict_equal (a b : value) : bool :=
  match a, b with
  | None, None => true
  | Some JNull, Some JNull => true
  | Some (JBool x), Some (JBool y) => Bool.eqb x y
  | Some (JNum x), Some (JNum y) => (x =? y)%Z
  | Some (JStr x), Some (JStr y) => (x =? y)
  | _, _ => false
  end.

(** SameValueZero, the key comparison of Map and Set. *)
Definition same_value_zero (a b : value) : bool := strict_equal a b.

(** [typeof v === 'object'] for a truthy [v]. *)
Definition typeof_object (v : json) : bool :=
  match v with
  | JArr _ | JObj _ => true
  | _ => false
  end.

(** [a || d] with a string literal on the right. *)
Definition or_else (a : value) (d : string) : value :=
  if truthy a then a else Some (JStr d).

Fixpoint join_opt (l : list (option string)) : option string :=
  match l with
  | [] => Some EmptyString
  | [x] => x
  | x :: r =>
      match x, join_opt r with
      | Some s, Some t => Some (s ++ "," ++ t)
      | _, _ => None
      end
  end.

(** ToString on a parsed value; [None] is a thrown TypeError.  An array
    joins its elements with commas (null gives the empty string); an
    object gives [object Object] through Object.prototype.toString,
    unless an own property named toString hides that method: no own
    property of a parsed object is callable, and the conversion throws. *)
Fixpoint toString (v : json) : option string :=
  match v with
  | JNull => Some "null"
  | JBool b => Some (if b then "true" else "false")
  | JNum n => Some (number_to_string n)
  | JStr s => Some s
  | JArr items =>
      join_opt (map (fun e => match e with
                              | JNull => Some EmptyString
                              | _ => toString e
                              end) items)
  | JObj props =>
      match assoc_get String.eqb "toString" props with
      | Some _ => None
      | None => Some "[object Object]"
      end
  end.

Definition ToString (v : value) : option string :=
  match v with
  | None => Some "undefined"
  | Some j => toString j
  end.

(** * The helper predicates of the script *)

Definition isNonEmptyString (value : value) : bool :=
  match value with
  | Some (JStr s) => (0 <? String.length (trim s))%nat
  | _ => false
  end.

Definition id_char (c : ascii) : bool :=
  in_range 97 122 c || in_range 65 90 c || in_range 48 57 c
  || (code c =? 95)%N || (code c =? 45)%N.

(** /^[a-zA-Z0-9_-]{1,64}$/ on a string. *)
Definition isValidId (value : string) : bool :=
  (1 <=? String.length value)%nat && (String.length value <=? 64)%nat
  && string_forallb id_char value.

Definition isValidPath (value : value) : bool :=
  isNonEmptyString value &&
  match value with
  | Some (JStr s) => startsWith s "dist/"
  | _ => false
  end.

Definition hex_char (c : ascii) : bool := in_range 97 102 c || in_range 48 57 c.

(** /^[a-f0-9]{64}$/ on a string. *)
Definition isValidSha256 (value : string) : bool :=
  (String.length value =? 64)%nat && string_forallb hex_char value.

(** * The errors array *)

Inductive outcome (A : Type) : Type :=
| Done (a : A)
| Throw.
Arguments Done {A} a.
Arguments Throw {A}.

(** A computation that may push messages on [errors] and may throw. *)
Definition M (A : Type) : Type := outcome (A * list string).

Definition ret {A} (a : A) : M A := Done (a, []).

Definition bind {A B} (m : M A) (k : A -> M B) : M B :=
  match m with
  | Done (a, e1) =>
      match k a with
      | Done (b, e2) => Done (b, (e1 ++ e2)%list)
      | Throw => Throw
      end
  | Throw => Throw
  end.

Notation "x <- m ;; k" := (bind m (fun x => k))
  (at level 61, m at next level, right associativity).
Notation "m ;; k" := (bind m (fun _ => k))
  (at level 61, right associativity).

(** errors.push *)
Definition push (msg : string) : M unit := Done (tt, [msg]).

Definition when (b : bool) (m : M unit) : M unit := if b then m else ret tt.

(** A template literal's conversion of a value. *)
Definition str (v : value) : M string :=
  match ToString v with
  | Some s => ret s
  | None => Throw
  end.

(** [for (const x of xs)] with the loop's variables in [s]. *)
Fixpoint for_of {A S} (body : S -> A -> M S) (xs : list A) (s : S) : M S :=
  match xs with
  | [] => ret s
  | x :: r => s' <- body s x ;; for_of body r s'
  end.

(** * The platform *)

Record URL := { protocol : string; pathname : string }.

Record response := { status : Z; statusText : string; body : list Byte.byte }.

(** Response.ok *)
Definition response_ok (r : response) : bool :=
  (200 <=? status r)%Z && (status r <=? 299)%Z.

Record download := { label : string; url : json; sha256 : string }.

Record result := { ok : bool; errors : list string }.

(** ** A small platform, to run the validator on examples *)

Fixpoint drop_through_slash (s : string) : string :=
  match s with
  | EmptyString => "/"
  | String c r => if (c =? "/")%char then s else drop_through_slash r
  end.

(** Accepts scheme://host/path for the schemes http and https. *)
Definition toy_URL (s : string) : option URL :=
  if String.prefix "https://" s then
    Some {| protocol := "https:"; pathname := drop_through_slash (substring 8 (String.length s) s) |}
  else if String.prefix "http://" s then
    Some {| protocol := "http:"; pathname := drop_through_slash (substring 7 (String.length s) s) |}
  else None.

(** Every request is answered 200 OK with an empty body. *)
Definition toy_fetch (n : nat) (u : json) : option response :=
  Some {| status := 200; statusText := "OK"; body := [] |}.

(** A stand-in digest: sixty-four times the character 0. *)
Definition toy_sha256 (b : list Byte.byte) : string :=
  string_of_list_ascii (repeat "0"%char 64).

(** ** Example documents *)

Definition hex64 (c : ascii) : string := string_of_list_ascii (repeat c 64).

Definition version_doc (version u sha : string) : json :=
  JObj [("version", JStr version);
        ("entry", JObj [("type", JStr "file"); ("path", JStr "dist/index.js")]);
        ("dist", JObj [("type", JStr "tgz"); ("url", JStr u); ("sha256", JStr sha)])].

Definition plugin_doc (id : string) (versions : list json) : json :=
  JObj [("id", JStr id); ("name", JStr "A plugin"); ("versions", JArr versions)].

Definition index_doc (plugins : list json) : json :=
  JObj [("schemaVersion", JNum 1); ("name", JStr "m"); ("plugins", JArr plugins)].

(** A base index with one plugin and two published versions. *)
Definition example_base : json :=
  index_doc
    [plugin_doc "a"
       [version_doc "1.0.0" "https://x/a-1.0.0.tgz" (hex64 "a");
        version_doc "1.1.0" "https://x/a-1.1.0.tgz" (hex64 "a")]].

(** The same index after version 1.1.0 of plugin a has been deleted. *)
Definition example_version_deleted : json :=
  index_doc
    [plugin_doc "a" [version_doc "1.0.0" "https://x/a-1.0.0.tgz" (hex64 "a")]].





(** A new plugin whose only version has a dist.url that is no URL. *)
Definition example_no_url_version : json :=
  version_doc "1.0.0" "not a url" (hex64 "0").

Definition example_no_url : json :=
  index_doc [plugin_doc "b" [example_no_url_version]].

(** schemaVersion 2 with a plugin list. *)
Definition example_schema2 : json :=
  JObj [("schemaVersion", JNum 2); ("name", JStr "m");
        ("plugins", JArr [plugin_doc "a" []])].

(** A base index whose first plugin has an empty id. *)
Definition example_empty_id : json :=
  index_doc
    [plugin_doc EmptyString [version_doc "0.1.0" "https://x/n.tgz" (hex64 "b")];
     plugin_doc "a" [version_doc "1.0.0" "https://x/a-1.0.0.tgz" (hex64 "a")]].

(** The base index plus a well-formed new plugin b. *)
Definition example_new_plugin : json :=
  index_doc
    [plugin_doc "a"
       [version_doc "1.0.0" "https://x/a-1.0.0.tgz" (hex64 "a");
        version_doc "1.1.0" "https://x/a-1.1.0.tgz" (hex64 "a")];
     plugin_doc "b" [version_doc "1.0.0" "https://x/b.tgz" (hex64 "0")]].

(** A network that answers the first request only. *)
Definition toy_fetch_once (n : nat) (u : json) : option response :=
  match n with
  | O => toy_fetch n u
  | S _ => None
  end.

(** A proposal with two plugins of id a, one with a version listed
    twice, and one whose id cannot be converted to a string. *)
Definition example_version : json :=
  version_doc "1.0.0" "https://x/n.tgz" (hex64 "0").

Definition example_duplicate_id : json :=
  index_doc [plugin_doc "a" [example_version]; plugin_doc "a" [example_version]].

Definition example_duplicate_version : json :=
  index_doc [plugin_doc "b" [example_version; example_version]].

Definition example_trap_plugin : json :=
  JObj [("id", JObj [("toString", JNum 1)]); ("name", JStr "A plugin");
        ("versions", JArr [example_version])].

Definition example_trap : json := index_doc [example_trap_plugin].

(** A network that rejects every request. *)
Definition toy_fetch_none (n : nat) (u : json) : option response := None.

(** A network that answers every request 404 with the given status
    text, and one that answers 200 with no status text and a body of one
    byte. *)
Definition toy_fetch_404 (text : string) (n : nat) (u : json) : option response :=
  Some {| status := 404; statusText := text; body := [] |}.

Definition toy_fetch_byte (n : nat) (u : json) : option response :=
  Some {| status := 200; statusText := EmptyString; body := [Byte.x00] |}.

(** The files of a small repository: the example base index and the
    proposal that adds plugin b. *)
Definition toy_readJson (path : string) : option json :=
  if path =? "base.json" then Some example_base
  else if path =? "pr.json" then Some example_new_plugin
  else None.

(** * The validator *)

Section Validator.

(** [new URL(s)]: the parsed URL, or [None] when the constructor
    throws. *)
Variable parseURL : string -> option URL.

(** [await fetch(url)] for the n-th request of the run; [None] when the
    promise is rejected. *)
Variable fetch : nat -> json -> option response.

(** The hexadecimal SHA-256 digest of a buffer. *)
Variable sha256_hex : list Byte.byte -> string.

(** ** Messages *)

Definition msg_plugin (id what : string) : string :=
  "pr index.json: plugin " ++ dq ++ id ++ dq ++ what.

Definition msg_version (versionLabel what : string) : string :=
  "pr index.json: version " ++ dq ++ versionLabel ++ dq ++ what.

Definition msg_removed (id : string) : string := msg_plugin id " removed".

Definition msg_modifies (versionLabel : string) : string :=
  msg_version versionLabel " modifies existing version".

Definition msg_dist (versionLabel : string) : string :=
  msg_version versionLabel
    (" dist must include type " ++ dq ++ "tgz" ++ dq ++ ", url, sha256").

Definition msg_https (versionLabel : string) : string :=
  msg_version versionLabel " dist.url must use https".

Definition msg_tgz (versionLabel : string) : string :=
  msg_version versionLabel " dist.url must end with .tgz".

Definition msg_invalid (versionLabel : string) : string :=
  msg_version versionLabel " dist.url is invalid".

Definition msg_mismatch (label : string) : string :=
  "dist sha256 mismatch for " ++ dq ++ label ++ dq.

Definition msg_failed (label : string) (r : response) : string :=
  "dist download failed for " ++ dq ++ label ++ dq ++ ": "
  ++ number_to_string (status r) ++ " " ++ statusText r.

(** ** validateIndexShape (lines 64-76) *)

Definition validateIndexShape (index : json) (label : string) : M (list json) :=
  match index with
  | JNull => Throw
  | _ =>
      when (negb (strict_equal (prop index "schemaVersion") (Some (JNum 1))))
           (push (label ++ ": schemaVersion must be 1")) ;;
      when (negb (isNonEmptyString (prop index "name")))
           (push (label ++ ": name is required")) ;;
      match prop index "plugins" with
      | Some (JArr plugins) => ret plugins
      | _ => push (label ++ ": plugins must be an array") ;; ret []
      end
  end.

(** ** basePluginMap (lines 85-90) *)

Definition basePluginMap_step (m : list (string * json)) (plugin : json)
  : list (string * json) :=
  if truthy (Some plugin) && isNonEmptyString (prop plugin "id") then
    match prop plugin "id" with
    | Some (JStr id) => assoc_set String.eqb id plugin m
    | _ => m
    end
  else m.

Definition basePluginMap_of (basePlugins : list json) : list (string * json) :=
  fold_left basePluginMap_step basePlugins [].

(** ** The pr plugin entries (lines 92-127) *)

(** The loop's variables: the Set prPluginIds and the Map prPluginMap. *)
Definition plugin_state : Type := list string * list (value * json).

Definition checkPluginId (prPluginIds : list string) (plugin : json)
  : M (list string) :=
  match prop plugin "id" with
  | Some (JStr id) =>
      if negb (isNonEmptyString (Some (JStr id))) || negb (isValidId id) then
        push "pr index.json: plugin id must match [a-zA-Z0-9_-]{1,64}" ;;
        ret prPluginIds
      else if existsb (String.eqb id) prPluginIds then
        push ("pr index.json: duplicate plugin id " ++ dq ++ id ++ dq) ;;
        ret prPluginIds
      else ret (prPluginIds ++ [id])%list
  | _ =>
      push "pr index.json: plugin id must match [a-zA-Z0-9_-]{1,64}" ;;
      ret prPluginIds
  end.

(** errors.push of a message about [plugin.id || 'unknown']. *)
Definition push_plugin (plugin : json) (what : string) : M unit :=
  id <- str (or_else (prop plugin "id") "unknown") ;;
  push (msg_plugin id what).

(** The try block of lines 114-121.  A conversion that throws inside it
    is caught, so a readme that cannot be converted is reported as an
    invalid url; the message of either branch converts plugin.id, and a
    throw there leaves the catch block as well. *)
Definition checkReadme (plugin : json) : M unit :=
  match prop plugin "readme" with
  | None => ret tt
  | Some readme =>
      match
        match ToString (or_else (Some readme) EmptyString) with
        | Some s => parseURL (trim s)
        | None => None
        end
      with
      | Some readmeUrl =>
          when (negb (protocol readmeUrl =? "https:"))
               (push_plugin plugin " readme must use https")
      | None => push_plugin plugin " readme must be a valid url"
      end
  end.

(** Lines 100-125: the checks of one plugin entry that is an object;
    the value is the Set prPluginIds after them. *)
Definition checkPluginFields (prPluginIds : list string) (plugin : json)
  : M (list string) :=
  prPluginIds' <- checkPluginId prPluginIds plugin ;;
  when (negb (isNonEmptyString (prop plugin "name")))
       (push_plugin plugin " missing name") ;;
  when (match prop plugin "description" with
        | None => false
        | d => negb (isNonEmptyString d)
        end)
       (push_plugin plugin " description must be non-empty") ;;
  checkReadme plugin ;;
  when (match prop plugin "versions" with
        | Some (JArr versions) => (List.length versions =? 0)%nat
        | _ => true
        end)
       (push_plugin plugin " must have versions") ;;
  ret prPluginIds'.

Definition checkPlugin (st : plugin_state) (plugin : json) : M plugin_state :=
  if negb (truthy (Some plugin)) || negb (typeof_object plugin) then
    push "pr index.json: plugin entry must be an object" ;;
    ret st
  else
    prPluginIds' <- checkPluginFields (fst st) plugin ;;
    ret (prPluginIds',
         assoc_set same_value_zero (prop plugin "id") plugin (snd st)).

(** ** Removed plugins (lines 129-135) *)

Definition checkRemoved (prPluginMap : list (value * json))
  (_ : unit) (entry : string * json) : M unit :=
  let '(id, basePlugin) := entry in
  when (negb (truthy (assoc_get same_value_zero (Some (JStr id)) prPluginMap)))
       (push (msg_removed id)).

(** ** The versions of the pr plugins (lines 139-238) *)

(** Map.prototype.get on a Map whose keys are strings. *)
Definition map_get (m : list (string * json)) (key : value) : value :=
  match key with
  | Some (JStr s) => assoc_get String.eqb s m
  | _ => None
  end.

Definition baseVersions_step (m : list (string * json)) (version : json)
  : list (string * json) :=
  if truthy (Some version) && isNonEmptyString (prop version "version") then
    match prop version "version" with
    | Some (JStr v) => assoc_set String.eqb v version m
    | _ => m
    end
  else m.

Definition baseVersions_of (basePlugin : value) : list (string * json) :=
  match (if truthy basePlugin then opt_prop basePlugin "versions" else None) with
  | Some (JArr versions) => fold_left baseVersions_step versions []
  | _ => []
  end.

Definition checkVersionName (plugin : json) (versionLabel : string)
  (seenVersions : list string) (version : json) : M (list string) :=
  match prop version "version" with
  | Some (JStr v) =>
      if negb (isNonEmptyString (Some (JStr v))) then
        push (msg_version versionLabel " missing version") ;;
        ret seenVersions
      else if existsb (String.eqb v) seenVersions then
        id <- str (prop plugin "id") ;;
        push ("pr index.json: duplicate version " ++ dq ++ v ++ dq
              ++ " in " ++ dq ++ id ++ dq) ;;
        ret seenVersions
      else ret (seenVersions ++ [v])%list
  | _ =>
      push (msg_version versionLabel " missing version") ;;
      ret seenVersions
  end.

Definition checkEntry (versionLabel : string) (version : json) : M unit :=
  let entry := prop version "entry" in
  when (negb (truthy entry)
        || negb (strict_equal (opt_prop entry "type") (Some (JStr "file")))
        || negb (isValidPath (opt_prop entry "path")))
       (push (msg_version versionLabel
                (" entry must be type " ++ dq ++ "file" ++ dq ++ " with dist/ path"))).

(** The condition of line 172, evaluated from left to right: the
    conversion of dist.sha256 happens only when the three tests before
    it have passed. *)
Definition dist_malformed (version : json) : M bool :=
  let dist := prop version "dist" in
  if negb (truthy dist) then ret true
  else if negb (strict_equal (opt_prop dist "type") (Some (JStr "tgz"))) then ret true
  else if negb (isNonEmptyString (opt_prop dist "url")) then ret true
  else
    s <- str (or_else (opt_prop dist "sha256") EmptyString) ;;
    ret (negb (isValidSha256 (toLowerCase s))).

Definition checkDistUrl (versionLabel : string) (version : json) : M unit :=
  match opt_prop (prop version "dist") "url" with
  | Some (JStr u) =>
      match parseURL u with
      | Some url =>
          when (negb (protocol url =? "https:")) (push (msg_https versionLabel)) ;;
          when (negb (endsWith (pathname url) ".tgz")) (push (msg_tgz versionLabel))
      | None => push (msg_invalid versionLabel)
      end
  | _ => ret tt
  end.

Definition checkDist (versionLabel : string) (version : json) : M unit :=
  malformed <- dist_malformed version ;;
  if malformed then push (msg_dist versionLabel)
  else checkDistUrl versionLabel version.

Definition is_negative (v : json) : bool :=
  match v with
  | JNum n => (n <? 0)%Z
  | _ => false
  end.

(** Number.isInteger *)
Definition Number_isInteger (v : json) : bool :=
  match v with
  | JNum _ => true
  | _ => false
  end.

Definition checkPermissionList (versionLabel : string) (permissions : json)
  (field : string) (bad : json -> bool) (what : string) : M unit :=
  match prop permissions field with
  | None => ret tt
  | Some (JArr values) =>
      when (existsb bad values)
           (push (msg_version versionLabel (" permissions." ++ field ++ what)))
  | Some _ =>
      push (msg_version versionLabel (" permissions." ++ field ++ " must be an array"))
  end.

Definition checkPermissions (versionLabel : string) (version : json) : M unit :=
  match prop version "permissions" with
  | None => ret tt
  | Some permissions =>
      if negb (typeof_object permissions) then
        push (msg_version versionLabel " permissions must be an object")
      else
        checkPermissionList versionLabel permissions "instances"
          (fun v => negb (Number_isInteger v) || is_negative v)
          " must be non-negative integers" ;;
        checkPermissionList versionLabel permissions "network"
          (fun v => negb (isNonEmptyString (Some v))) " must be strings" ;;
        checkPermissionList versionLabel permissions "fs"
          (fun v => negb (isNonEmptyString (Some v))) " must be strings"
  end.

(** Lines 230-236: a version is queued when dist.url and dist.sha256
    are both truthy. *)
Definition queueDownload (versionLabel : string) (version : json)
  : M (list download) :=
  let dist := prop version "dist" in
  match opt_prop dist "url" with
  | Some u =>
      if truthy (Some u) && truthy (opt_prop dist "sha256") then
        s <- str (opt_prop dist "sha256") ;;
        ret [ {| label := versionLabel; url := u; sha256 := toLowerCase s |} ]
      else ret []
  | None => ret []
  end.

(** Lines 220-236: a version found in the base plugin is compared and
    never queued. *)
Definition compareOrQueue (baseVersions : list (string * json))
  (versionLabel : string) (version : json) : M (list download) :=
  match map_get baseVersions (prop version "version") with
  | Some baseVersion =>
      if truthy (Some baseVersion) then
        when (negb (stableStringify baseVersion =? stableStringify version))
             (push (msg_modifies versionLabel)) ;;
        ret []
      else queueDownload versionLabel version
  | None => queueDownload versionLabel version
  end.

(** The loop's variables: the Set seenVersions and the downloads queued
    so far. *)
Definition version_state : Type := list string * list download.

(** Line 155. *)
Definition versionLabel_of (plugin version : json) : M string :=
  id <- str (or_else (prop plugin "id") "unknown") ;;
  v <- str (or_else (opt_prop (Some version) "version") "unknown") ;;
  ret (id ++ "/" ++ v).

Definition walkVersion (plugin : json) (baseVersions : list (string * json))
  (st : version_state) (version : json) : M version_state :=
  versionLabel <- versionLabel_of plugin version ;;
  if negb (truthy (Some version)) || negb (typeof_object version) then
    push (msg_version versionLabel " must be an object") ;;
    ret st
  else
    seenVersions' <- checkVersionName plugin versionLabel (fst st) version ;;
    checkEntry versionLabel version ;;
    checkDist versionLabel version ;;
    checkPermissions versionLabel version ;;
    queued <- compareOrQueue baseVersions versionLabel version ;;
    ret (seenVersions', (snd st ++ queued)%list).

Definition walkPlugin (basePluginMap : list (string * json))
  (downloads : list download) (plugin : json) : M (list download) :=
  if negb (truthy (Some plugin)) || negb (typeof_object plugin) then ret downloads
  else
    let basePlugin := map_get basePluginMap (prop plugin "id") in
    let baseVersions := baseVersions_of basePlugin in
    match prop plugin "versions" with
    | Some (JArr versions) =>
        st <- for_of (walkVersion plugin baseVersions) versions ([], downloads) ;;
        ret (snd st)
    | _ => ret downloads
    end.

(** ** checkDownload (lines 240-255) *)

Definition checkDownload (n : nat) (item : download) : M nat :=
  match fetch n (url item) with
  | None => Throw
  | Some response =>
      (if negb (response_ok response) then push (msg_failed (label item) response)
       else when (negb (sha256_hex (body response) =? sha256 item))
                 (push (msg_mismatch (label item)))) ;;
      ret (S n)
  end.

(** ** The run *)

(** Everything up to the download loop: the queue of downloads. *)
Definition collect (baseIndex prIndex : json) : M (list download) :=
  basePlugins <- validateIndexShape baseIndex "base index.json" ;;
  prPlugins <- validateIndexShape prIndex "pr index.json" ;;
  when (negb (strict_equal (prop baseIndex "name") (prop prIndex "name")))
       (push "pr index.json: top-level name cannot be changed") ;;
  let basePluginMap := basePluginMap_of basePlugins in
  st <- for_of checkPlugin prPlugins ([], []) ;;
  for_of (checkRemoved (snd st)) basePluginMap tt ;;
  for_of (walkPlugin basePluginMap) prPlugins [].

Definition run (baseIndex prIndex : json) : M nat :=
  downloads <- collect baseIndex prIndex ;;
  for_of checkDownload downloads 0%nat.

(** The result object of line 257; [Throw] when the run ends with an
    uncaught exception instead. *)
Definition validate (baseIndex prIndex : json) : outcome result :=
  match run baseIndex prIndex with
  | Done (_, errs) =>
      Done {| ok := (List.length errs =? 0)%nat; errors := errs |}
  | Throw => Throw
  end.

(** ** The command line (lines 4-17 and 257-268) *)

(** Array.prototype.indexOf on the argument list; [None] is -1. *)
Fixpoint indexOf (args : list string) (name : string) : option nat :=
  match args with
  | [] => None
  | a :: r => if a =? name then Some 0%nat else option_map S (indexOf r name)
  end.

(** What getArg returns: null when the flag is absent, undefined when
    the flag is the last argument, else the argument after the flag. *)
Inductive arg : Type :=
| ArgNull
| ArgUndefined
| ArgStr (s : string).

Definition getArg (args : list string) (name : string) : arg :=
  match indexOf args name with
  | None => ArgNull
  | Some idx =>
      match nth_error args (idx + 1) with
      | Some s => ArgStr s
      | None => ArgUndefined
      end
  end.

(** The path an argument gives when it is truthy. *)
Definition arg_path (a : arg) : option string :=
  match a with
  | ArgStr s => if s =? EmptyString then None else Some s
  | _ => None
  end.

(** How the process ends: with an exit status, the lines written by
    console.error and console.log and the file written, if any (the
    file holds the JSON text of the result; the model keeps the
    result). *)
Record process := {
  exitCode : Z;
  stderr : list string;
  stdout : list string;
  outFile : option (string * result)
}.

(** The process exits through process.exit or at the end of the module,
    or the engine ends it after an uncaught exception or a rejected
    promise: the script has printed nothing by then, the engine prints
    the error on stderr and the exit status is 1. *)
Inductive ending : Type :=
| Exited (p : process)
| Uncaught.

Definition exit_status (e : ending) : Z :=
  match e with
  | Exited p => exitCode p
  | Uncaught => 1
  end.

Definition usage : string :=
  "Usage: node scripts/validate-marketplace-pr.mjs --base <path> --pr <path> [--out <path>]".

Definition newline : string := String "010"%char EmptyString.

(** The script as a whole.  [readJson] is the function of lines 54-57
    ([None] when the file cannot be read or parsed) and [writeFile] says
    whether fs.writeFile succeeds. *)
Definition main (readJson : string -> option json)
  (writeFile : string -> result -> bool) (args : list string) : ending :=
  let basePath := getArg args "--base" in
  let prPath := getArg args "--pr" in
  let outPath := getArg args "--out" in
  match arg_path basePath, arg_path prPath with
  | Some base, Some pr =>
      match readJson base with
      | None => Uncaught
      | Some baseIndex =>
          match readJson pr with
          | None => Uncaught
          | Some prIndex =>
              match validate baseIndex prIndex with
              | Throw => Uncaught
              | Done result =>
                  match
                    match arg_path outPath with
                    | Some out =>
                        if writeFile out result then Some (Some (out, result))
                        else None
                    | None => Some None
                    end
                  with
                  | None => Uncaught
                  | Some written =>
                      if negb (ok result) then
                        Exited {| exitCode := 1;
                                  stderr := [String.concat newline (errors result)];
                                  stdout := [];
                                  outFile := written |}
                      else
                        Exited {| exitCode := 0;
                                  stderr := [];
                                  stdout := ["validate-marketplace-pr: ok"];
                                  outFile := written |}
                  end
              end
          end
      end
  | _, _ =>
      Exited {| exitCode := 2; stderr := [usage]; stdout := []; outFile := None |}
  end.

(** * Vocabulary of the statements *)

Fixpoint nodupb (l : list string) : bool :=
  match l with
  | [] => true
  | h :: t => negb (existsb (String.eqb h) t) && nodupb t
  end.

(** The objects of a value have pairwise distinct keys, as every object
    built by JSON.parse has. *)
Fixpoint json_wf (v : json) : bool :=
  match v with
  | JArr items => forallb json_wf items
  | JObj props => nodupb (keys props) && forallb (fun '(k, x) => json_wf x) props
  | _ => true
  end.

(** Number.isSafeInteger on an integer. *)
Definition Number_isSafeInteger (n : Z) : bool :=
  (Z.abs n <=? 9007199254740991)%Z.

(** Every number of the value is a safe integer. *)
Fixpoint safe_numbers (v : json) : bool :=
  match v with
  | JNum n => Number_isSafeInteger n
  | JArr items => forallb safe_numbers items
  | JObj props => forallb (fun '(k, x) => safe_numbers x) props
  | _ => true
  end.

(** [key_permuted v v']: [v'] is [v] with the properties of some of its
    objects listed in another order, at any depth; scalars and the
    order of array elements are the same. *)
Unset Elimination Schemes.
Inductive key_permuted : json -> json -> Prop :=
| kp_null : key_permuted JNull JNull
| kp_bool b : key_permuted (JBool b) (JBool b)
| kp_num n : key_permuted (JNum n) (JNum n)
| kp_str s : key_permuted (JStr s) (JStr s)
| kp_arr items items' :
    Forall2 key_permuted items items' ->
    key_permuted (JArr items) (JArr items')
| kp_obj props mid props' :
    Permutation props mid ->
    Forall2 (fun p q => fst p = fst q /\ key_permuted (snd p) (snd q)) mid props' ->
    key_permuted (JObj props) (JObj props').
Set Elimination Schemes.

(** The plugin list a document contributes (what validateIndexShape
    returns for it). *)
Definition plugins_of (index : json) : list json :=
  match prop index "plugins" with
  | Some (JArr plugins) => plugins
  | _ => []
  end.

(** Functional updates of a document: of the own property [key] of an
    object, and of the n-th element of an array. *)
Definition update_prop (key : string) (f : json -> json) (o : json) : json :=
  match o with
  | JObj props => JObj (map (fun '(k, v) => (k, if k =? key then f v else v)) props)
  | _ => o
  end.

Fixpoint update_nth {A} (n : nat) (f : A -> A) (l : list A) : list A :=
  match l, n with
  | [], _ => []
  | x :: r, O => f x :: r
  | x :: r, S n' => x :: update_nth n' f r
  end.

Definition update_item (n : nat) (f : json -> json) (a : json) : json :=
  match a with
  | JArr items => JArr (update_nth n f items)
  | _ => a
  end.

(** The j-th version of the i-th plugin of a document, with its plugin. *)
Definition version_at (index : json) (i j : nat) : option (json * json) :=
  match nth_error (plugins_of index) i with
  | Some p =>
      match prop p "versions" with
      | Some (JArr versions) =>
          match nth_error versions j with
          | Some v => Some (p, v)
          | None => None
          end
      | _ => None
      end
  | None => None
  end.

Definition sha256_at (index : json) (i j : nat) : option string :=
  match version_at index i j with
  | Some (_, v) =>
      match opt_prop (prop v "dist") "sha256" with
      | Some (JStr s) => Some s
      | _ => None
      end
  | None => None
  end.

(** A version with its dist.sha256 replaced. *)
Definition set_sha256 (s' : string) : json -> json :=
  update_prop "dist" (update_prop "sha256" (fun _ => JStr s')).

(** The document with the dist.sha256 of that version replaced. *)
Definition tamper_sha256 (i j : nat) (s' : string) : json -> json :=
  update_prop "plugins"
    (update_item i (update_prop "versions" (update_item j (set_sha256 s')))).

(** The document without the i-th entry of its plugin list. *)
Fixpoint remove_nth {A} (n : nat) (l : list A) : list A :=
  match l, n with
  | [], _ => []
  | _ :: r, O => r
  | x :: r, S n' => x :: remove_nth n' r
  end.

Definition without_plugin (i : nat) : json -> json :=
  update_prop "plugins"
    (fun a => match a with JArr items => JArr (remove_nth i items) | _ => a end).

(** Either case of a hexadecimal digit. *)
Definition hex_any (c : ascii) : bool :=
  in_range 48 57 c || in_range 97 102 c || in_range 65 70 c.



(** Some entry of the document's plugin list has this id. *)
Definition has_plugin (index : json) (id : string) : bool :=
  existsb (fun p => strict_equal (prop p "id") (Some (JStr id))) (plugins_of index).

(** No object of the value has an own property named __proto__. *)
Fixpoint proto_free (v : json) : bool :=
  match v with
  | JArr items => forallb proto_free items
  | JObj props =>
      negb (existsb (String.eqb "__proto__") (keys props))
      && forallb (fun '(k, x) => proto_free x) props
  | _ => true
  end.

(** The value without the properties named __proto__ of its objects, at
    any depth. *)
Fixpoint without_proto (v : json) : json :=
  match v with
  | JArr items => JArr (map without_proto items)
  | JObj props =>
      JObj (filter (fun p => negb (fst p =? "__proto__"))
                   (map (fun '(k, x) => (k, without_proto x)) props))
  | _ => v
  end.

(** The messages of lines 103 and 163. *)
Definition msg_duplicate_id (id : string) : string :=
  "pr index.json: duplicate plugin id " ++ dq ++ id ++ dq.

Definition msg_duplicate_version (version id : string) : string :=
  "pr index.json: duplicate version " ++ dq ++ version ++ dq
  ++ " in " ++ dq ++ id ++ dq.

(** What checkDownload pushes for an item whose request is answered by
    [resp]. *)
Definition download_errors (item : download) (resp : response) : list string :=
  if negb (response_ok resp) then [msg_failed (label item) resp]
  else if sha256_hex (body resp) =? sha256 item then []
  else [msg_mismatch (label item)].

(** Two outcomes of a request between which checkDownload cannot tell:
    both are rejections, or both are answers with the same status, with
    the same status text when the status is outside 200-299 and with
    bodies of the same digest when it is inside. *)
Definition answers_alike (a b : option response) : Prop :=
  match a, b with
  | None, None => True
  | Some r1, Some r2 =>
      status r1 = status r2 /\
      (if response_ok r1 then sha256_hex (body r1) = sha256_hex (body r2)
       else statusText r1 = statusText r2)
  | _, _ => False
  end.

(** The keys of basePluginMap that no plugin of the proposal carries as
    its id, in the order of the Map. *)
Definition removed_ids (baseIndex prIndex : json) : list string :=
  filter (fun id => negb (has_plugin prIndex id))
         (keys (basePluginMap_of (plugins_of baseIndex))).

(** The document with its plugin list replaced. *)
Definition with_plugins (plugins : list json) : json -> json :=
  update_prop "plugins" (fun _ => JArr plugins).

(** [item] is what line 231 queues for the version [v] of the plugin
    [p]: the version's label, its dist.url, which is truthy, and its
    truthy dist.sha256 converted to a string and lower-cased. *)
Definition download_of (p v : json) (item : download) : Prop :=
  versionLabel_of p v = Done (label item, []) /\
  opt_prop (prop v "dist") "url" = Some (url item) /\
  truthy (Some (url item)) = true /\
  truthy (opt_prop (prop v "dist") "sha256") = true /\
  exists s, ToString (opt_prop (prop v "dist") "sha256") = Some s
            /\ sha256 item = toLowerCase s.


(** The plugin with its version list replaced, and the document with
    its i-th plugin replaced. *)
Definition with_versions (versions : list json) : json -> json :=
  update_prop "versions" (fun _ => JArr versions).

Definition with_plugin_at (i : nat) (plugin : json) : json -> json :=
  update_prop "plugins" (update_item i (fun _ => plugin)).

(** * Definitions used in the proofs *)

(** Applies a function to the value of a property, keeping its key. *)
Definition with_value {A B} (f : string -> A -> B) (p : string * A) : string * B :=
  let '(k, v) := p in (k, f k v).

(** The reduce of lines 40-45 over the already converted properties. *)
Definition rebuild (stable : list (string * json)) : list (string * json) :=
  fold_left
    (fun acc key =>
       match assoc_get String.eqb key stable with
       | Some v => obj_assign acc key v
       | None => acc
       end)
    (sort (Object_keys stable)) [].

Definition shape_errors (index : json) (label : string) : list string :=
  ((if strict_equal (prop index "schemaVersion") (Some (JNum 1)) then []
    else [(label ++ ": schemaVersion must be 1")%string])
   ++ (if isNonEmptyString (prop index "name") then []
       else [(label ++ ": name is required")%string])
   ++ (match prop index "plugins" with
       | Some (JArr _) => []
       | _ => [(label ++ ": plugins must be an array")%string]
       end))%list.

Definition name_errors (baseIndex prIndex : json) : list string :=
  if strict_equal (prop baseIndex "name") (prop prIndex "name") then []
  else ["pr index.json: top-level name cannot be changed"].


(** The key under which the loops of lines 86-90 and 144-148 record an
    entry, if they record it: its [field] when that is a non-empty
    string. *)
Definition entry_key (field : string) (x : json) : option string :=
  if truthy (Some x) && isNonEmptyString (prop x field) then
    match prop x field with
    | Some (JStr k) => Some k
    | _ => None
    end
  else None.

Definition record_step (field : string) (m : list (string * json)) (x : json)
  : list (string * json) :=
  match entry_key field x with
  | Some k => assoc_set String.eqb k x m
  | None => m
  end.

Definition hex_value (c : ascii) : N :=
  if in_range 48 57 c then code c - 48 else code c - 87.

(** Reads back the code unit that [quote_char] wrote. *)
Definition unquote_char (s : string) : ascii :=
  match s with
  | String c r =>
      if (code c =? 92)%N then
        match r with
        | String d r' =>
            if (code d =? 98)%N then ascii_of_N 8
            else if (code d =? 102)%N then ascii_of_N 12
            else if (code d =? 110)%N then ascii_of_N 10
            else if (code d =? 114)%N then ascii_of_N 13
            else if (code d =? 116)%N then ascii_of_N 9
            else if (code d =? 117)%N then
              match r' with
              | String _ (String _ (String h (String l _))) =>
                  ascii_of_N (16 * hex_value h + hex_value l)
              | _ => d
              end
            else d
        | EmptyString => c
        end
      else c
  | EmptyString => zero
  end.

Definition joined_before (sep : string) (l : list string) : string :=
  fold_right (fun x acc => x ++ sep ++ acc) EmptyString l.

Definition joined_after (sep : string) (l : list string) : string :=
  match l with
  | [] => EmptyString
  | _ => sep ++ String.concat sep l
  end.

Definition replace_value {A} (k : string) (c : A) (l : list (string * A))
  : list (string * A) :=
  map (fun '(k0, v) => (k0, if k0 =? k then c else v)) l.

Definition rebuilt_entry (stable : list (string * json)) (key : string)
  : list (string * json) :=
  if key =? "__proto__" then []
  else match assoc_get String.eqb key stable with
       | Some v => [(key, v)]
       | None => []
       end.

Definition map_rel (m m' : list (value * json)) : Prop :=
  Forall2 (fun x y => fst x = fst y /\ truthy (Some (snd x)) = truthy (Some (snd y)))
          m m'.

Definition plugin_similar (q q' : json) : Prop :=
  typeof_object q = typeof_object q' /\
  prop q "id" = prop q' "id" /\
  forall ids, checkPluginFields ids q = checkPluginFields ids q'.

(** What the walk reports about a published version whose dist.sha256
    has been replaced by [s']. *)
Definition tamper_errors (versionLabel s' : string) : list string :=
  ((if isValidSha256 (toLowerCase s') then [] else [msg_dist versionLabel])
   ++ [msg_modifies versionLabel])%list.


(** The order of Array.prototype.sort on strings. *)
Definition key_le (a b : string) : Prop := (a <=? b) = true.

Definition not_proto (k : string) : bool := negb (k =? "__proto__").

(** A string that does not go on with a digit. *)
Definition delim (r : string) : bool :=
  match r with
  | EmptyString => true
  | String c _ => negb (is_digit c)
  end.

(** The constructor of a value, and the constructor announced by the
    first character of a JSON text. *)
Definition kind (v : json) : N :=
  match v with
  | JNull => 0
  | JBool _ => 1
  | JNum _ => 2
  | JStr _ => 3
  | JArr _ => 4
  | JObj _ => 5
  end.

Definition char_kind (c : ascii) : N :=
  if (c =? "n")%char then 0
  else if (c =? "t")%char || (c =? "f")%char then 1
  else if (c =? "-")%char || is_digit c then 2
  else if (code c =? 34)%N then 3
  else if (c =? "[")%char then 4
  else if (c =? "{")%char then 5
  else 6.

(** Two values that JSON.stringify cannot tell apart: the same scalars
    and array elements, and objects that enumerate the same keys with
    such values in the same order. *)
Unset Elimination Schemes.
Inductive same_text : json -> json -> Prop :=
| st_null : same_text JNull JNull
| st_bool b : same_text (JBool b) (JBool b)
| st_num n : same_text (JNum n) (JNum n)
| st_str s : same_text (JStr s) (JStr s)
| st_arr items items' :
    Forall2 same_text items items' ->
    same_text (JArr items) (JArr items')
| st_obj props props' :
    Forall2 (fun p q => fst p = fst q /\ same_text (snd p) (snd q))
            (own_entries props) (own_entries props') ->
    same_text (JObj props) (JObj props').
Set Elimination Schemes.

(** The text of one property in JSON.stringify's output. *)
Definition entry_text (p : string * json) : string :=
  quote (fst p) ++ ":" ++ stringify (snd p).

(** A computation of the walk started with [ds] more downloads in
    front of the queue. *)
Definition queue_after (ds : list download) (m : M (list download))
  : M (list download) :=
  match m with
  | Done (q, e) => Done ((ds ++ q)%list, e)
  | Throw => Throw
  end.

Definition state_after (ds : list download) (m : M version_state)
  : M version_state :=
  match m with
  | Done (st, e) => Done ((fst st, (ds ++ snd st)%list), e)
  | Throw => Throw
  end.

(** A computation with a function applied to its value. *)
Definition fmap {A B} (f : A -> B) (m : M A) : M B :=
  match m with
  | Done (a, e) => Done (f a, e)
  | Throw => Throw
  end.

(** The part of [collect] that follows the shape checks. *)
Definition collect_loops (baseIndex prIndex : json) : M (list download) :=
  st <- for_of checkPlugin (plugins_of prIndex) ([], []) ;;
  for_of (checkRemoved (snd st)) (basePluginMap_of (plugins_of baseIndex)) tt ;;
  for_of (walkPlugin (basePluginMap_of (plugins_of baseIndex))) (plugins_of prIndex) [].

(** * Properties of the canonical form *)

(** The lemmas on strings, objects and canonical forms do not involve
    the platform; their proofs start by forgetting it. *)
Ltac platform_free := clear parseURL fetch sha256_hex.

(** ** The order of strings *)

Lemma leb_iff (a b : string) : (a <=? b) = true <-> a = b \/ String_as_OT.lt a b.
Proof using. platform_free.
  unfold String.leb.
  destruct (a ?= b) eqn:E.
  - apply String_as_OT.cmp_eq in E. tauto.
  - apply String_as_OT.cmp_lt in E. tauto.
  - split; [discriminate|].
    intros [->|L].
    + assert (H : String_as_OT.cmp b b = Eq) by now apply String_as_OT.cmp_eq.
      unfold String_as_OT.cmp in H. congruence.
    + apply String_as_OT.cmp_lt in L. unfold String_as_OT.cmp in L. congruence.
Qed.

Lemma leb_trans (a b c : string) :
  (a <=? b) = true -> (b <=? c) = true -> (a <=? c) = true.
Proof using. platform_free.
  rewrite !leb_iff.
  intros [->|H1] [->|H2]; auto.
  right. eapply String_as_OT.lt_trans; eassumption.
Qed.

Lemma leb_false_flip (a b : string) : (a <=? b) = false -> (b <=? a) = true.
Proof.
  intros H. destruct (String.leb_total a b) as [E|E]; congruence.
Qed.

(** ** Sorting the keys *)

Lemma insert_key_comm (x y : string) (l : list string) :
  insert_key x (insert_key y l) = insert_key y (insert_key x l).
Proof using. platform_free.
  induction l as [|h t IH]; simpl.
  - destruct (x <=? y) eqn:Exy, (y <=? x) eqn:Eyx; trivial.
    + rewrite (String.leb_antisym _ _ Exy Eyx). reflexivity.
    + apply leb_false_flip in Exy. congruence.
  - destruct (y <=? h) eqn:Eyh, (x <=? h) eqn:Exh; simpl.
    + destruct (x <=? y) eqn:Exy, (y <=? x) eqn:Eyx; rewrite ?Exh, ?Eyh; trivial.
      * rewrite (String.leb_antisym _ _ Exy Eyx). reflexivity.
      * apply leb_false_flip in Exy. congruence.
    + destruct (x <=? y) eqn:Exy.
      * rewrite (leb_trans _ _ _ Exy Eyh) in Exh. discriminate.
      * rewrite Exh, Eyh. reflexivity.
    + destruct (y <=? x) eqn:Eyx.
      * rewrite (leb_trans _ _ _ Eyx Exh) in Eyh. discriminate.
      * rewrite Exh, Eyh. reflexivity.
    + rewrite Exh, Eyh, IH. reflexivity.
Qed.

Lemma sort_permutation_eq (l l' : list string) :
  Permutation l l' -> sort l = sort l'.
Proof using. platform_free.
  induction 1; simpl; try congruence.
  apply insert_key_comm.
Qed.

Lemma insert_key_perm (x : string) (l : list string) :
  Permutation (insert_key x l) (x :: l).
Proof.
  induction l as [|h t IH]; simpl; auto.
  destruct (x <=? h); auto.
  rewrite IH. apply perm_swap.
Qed.

Lemma sort_perm (l : list string) : Permutation (sort l) l.
Proof.
  induction l; simpl; auto.
  rewrite insert_key_perm. auto.
Qed.

(** ** Enumeration order *)

Lemma insert_index_perm {A} (p : string * A) l :
  Permutation (insert_index p l) (p :: l).
Proof.
  induction l as [|h t IH]; simpl; auto.
  destruct (index_of (fst p) <=? index_of (fst h))%N; auto.
  rewrite IH. apply perm_swap.
Qed.

Lemma sort_index_perm {A} (l : list (string * A)) : Permutation (sort_index l) l.
Proof.
  induction l; simpl; auto.
  rewrite insert_index_perm. auto.
Qed.

Lemma filter_split_perm {A} (f : A -> bool) (l : list A) :
  Permutation (filter f l ++ filter (fun x => negb (f x)) l) l.
Proof.
  induction l as [|h t IH]; simpl; auto.
  destruct (f h); simpl.
  - auto.
  - rewrite <- Permutation_middle. auto.
Qed.

Lemma own_entries_perm {A} (l : list (string * A)) : Permutation (own_entries l) l.
Proof.
  unfold own_entries.
  rewrite sort_index_perm.
  apply (filter_split_perm (fun p => is_index (fst p))).
Qed.

Lemma Object_keys_perm {A} (l : list (string * A)) :
  Permutation (Object_keys l) (keys l).
Proof.
  unfold Object_keys, keys. apply Permutation_map, own_entries_perm.
Qed.

(** ** Reading properties *)

Lemma nodupb_NoDup (l : list string) : nodupb l = true <-> NoDup l.
Proof.
  induction l as [|h t IH]; simpl.
  - split; [constructor | trivial].
  - rewrite andb_true_iff, negb_true_iff, IH. split.
    + intros [H1 H2]. constructor; trivial.
      intros Hin.
      assert (E : existsb (String.eqb h) t = true)
        by (apply existsb_exists; exists h; split; [trivial | apply String.eqb_refl]).
      congruence.
    + inversion 1; subst. split; trivial.
      destruct (existsb (String.eqb h) t) eqn:E; trivial.
      apply existsb_exists in E. destruct E as [x [Hin Hx]].
      apply String.eqb_eq in Hx. subst. contradiction.
Qed.

Lemma assoc_get_In {A} (k : string) (a : A) l :
  NoDup (keys l) -> In (k, a) l -> assoc_get String.eqb k l = Some a.
Proof using. platform_free.
  induction l as [|[k' a'] t IH]; simpl; [tauto|].
  inversion 1; subst. intros [E|Hin].
  - inversion E; subst. now rewrite String.eqb_refl.
  - destruct (String.eqb_spec k k') as [->|_]; auto.
    exfalso. apply H2. unfold keys. apply (in_map fst _ _ Hin).
Qed.

Lemma assoc_get_Some_In {A} (k : string) (a : A) l :
  assoc_get String.eqb k l = Some a -> In (k, a) l.
Proof.
  induction l as [|[k' a'] t IH]; simpl; [discriminate|].
  destruct (String.eqb_spec k k') as [->|_]; auto.
  inversion 1; auto.
Qed.

Lemma assoc_get_None {A} (k : string) (l : list (string * A)) :
  assoc_get String.eqb k l = None <-> ~ In k (keys l).
Proof using. platform_free.
  induction l as [|[k' a'] t IH]; simpl; [tauto|].
  destruct (String.eqb_spec k k') as [->|N].
  - split; [discriminate | tauto].
  - rewrite IH. split; intros H; [intros [E|E]; [congruence | tauto] | tauto].
Qed.

Lemma assoc_get_perm {A} (k : string) (l l' : list (string * A)) :
  NoDup (keys l) -> Permutation l l' ->
  assoc_get String.eqb k l = assoc_get String.eqb k l'.
Proof using. platform_free.
  intros ND HP.
  assert (ND' : NoDup (keys l'))
    by (eapply Permutation_NoDup; [apply Permutation_map, HP | exact ND]).
  destruct (assoc_get String.eqb k l) as [a|] eqn:E.
  - symmetry. apply assoc_get_In; trivial.
    eapply Permutation_in; [exact HP|]. now apply assoc_get_Some_In.
  - symmetry. apply assoc_get_None. apply assoc_get_None in E.
    intros Hin. apply E.
    eapply Permutation_in; [apply Permutation_sym, Permutation_map, HP | exact Hin].
Qed.

(** ** The object built by stableObject *)

Lemma stableObject_obj (props : list (string * json)) :
  stableObject (JObj props)
  = JObj (rebuild (map (fun '(k, v) => (k, stableObject v)) props)).
Proof. reflexivity. Qed.

Lemma fold_left_ext {A B} (f g : A -> B -> A) (l : list B) (a : A) :
  (forall a b, f a b = g a b) -> fold_left f l a = fold_left g l a.
Proof.
  intros H. revert a. induction l; simpl; intros; trivial.
  rewrite H. apply IHl.
Qed.

Lemma rebuild_perm (l l' : list (string * json)) :
  NoDup (keys l) -> Permutation l l' -> rebuild l = rebuild l'.
Proof using. platform_free.
  intros ND HP. unfold rebuild.
  rewrite (sort_permutation_eq (Object_keys l) (Object_keys l')).
  - apply fold_left_ext. intros acc key.
    now rewrite (assoc_get_perm key l l').
  - rewrite !Object_keys_perm. unfold keys. now apply Permutation_map.
Qed.

Lemma keys_map_values {A B} (f : string -> A -> B) (l : list (string * A)) :
  keys (map (fun '(k, v) => (k, f k v)) l) = keys l.
Proof.
  unfold keys. rewrite map_map. apply map_ext. now intros [k v].
Qed.

Lemma key_permuted_arr_inv (items : list json) (v' : json) :
  key_permuted (JArr items) v' ->
  exists items', v' = JArr items' /\ Forall2 key_permuted items items'.
Proof. inversion 1; subst; eauto. Qed.

Lemma key_permuted_obj_inv (props : list (string * json)) (v' : json) :
  key_permuted (JObj props) v' ->
  exists mid props',
    v' = JObj props' /\ Permutation props mid /\
    Forall2 (fun p q => fst p = fst q /\ key_permuted (snd p) (snd q)) mid props'.
Proof. inversion 1; subst; eauto 6. Qed.

Lemma stableObject_key_permuted (v : json) :
  forall v', json_wf v = true -> key_permuted v v' -> stableObject v = stableObject v'.
Proof using. platform_free.
  induction v as [| | | |items IH|props IH] using json_nested_ind;
    intros v' WF KP; try (inversion KP; subst; reflexivity).
  - (* arrays *)
    apply key_permuted_arr_inv in KP. destruct KP as [items' [-> HF]].
    simpl. f_equal. simpl in WF.
    revert IH WF. induction HF as [|x y l l' Hxy Hl IHl]; simpl; intros IH WF; trivial.
    apply andb_true_iff in WF. destruct WF as [W1 W2].
    inversion IH; subst. f_equal; auto.
  - (* objects *)
    apply key_permuted_obj_inv in KP. destruct KP as [mid [props' [-> [HP HF]]]].
    rewrite !stableObject_obj. f_equal.
    simpl in WF. apply andb_true_iff in WF. destruct WF as [ND WF].
    apply nodupb_NoDup in ND. rewrite forallb_forall in WF.
    rewrite Forall_forall in IH.
    set (f := fun '(k, x) => (k, stableObject x) : string * json).
    assert (E : map f mid = map f props').
    { assert (Hmid : forall p, In p mid -> In p props)
        by (intros p Hp; eapply Permutation_in; [apply Permutation_sym; eassumption | exact Hp]).
      clear HP. induction HF as [|p q l l' [Hk Hv] Hl IHl]; simpl; trivial.
      f_equal.
      - destruct p as [k x], q as [k' x']; simpl in *. subst k'.
        f_equal. apply (IH (k, x)); auto.
        specialize (WF (k, x) (Hmid _ (or_introl eq_refl))). exact WF.
      - apply IHl. intros p' Hp'. apply Hmid. now right. }
    rewrite <- E.
    apply rebuild_perm.
    + unfold f. rewrite (keys_map_values (fun _ x => stableObject x)). exact ND.
    + now apply Permutation_map.
Qed.

(** * Reasoning about computations *)

Lemma bind_Done_inv {A B} (m : M A) (k : A -> M B) (b : B) (e : list string) :
  bind m k = Done (b, e) ->
  exists a e1 e2, m = Done (a, e1) /\ k a = Done (b, e2) /\ e = (e1 ++ e2)%list.
Proof.
  unfold bind. destruct m as [[a e1]|]; [|discriminate].
  destruct (k a) as [[b' e2]|] eqn:E; [|discriminate].
  inversion 1; subst. eauto 6.
Qed.

Lemma bind_Done {A B} (m : M A) (k : A -> M B) a e1 b e2 :
  m = Done (a, e1) -> k a = Done (b, e2) -> bind m k = Done (b, (e1 ++ e2)%list).
Proof. intros -> H. simpl. now rewrite H. Qed.

Lemma bind_ret_l {A B} (a : A) (k : A -> M B) : bind (ret a) k = k a.
Proof. simpl. now destruct (k a) as [[b e]|]. Qed.

Lemma bind_ret_r {A} (m : M A) : bind m ret = m.
Proof. destruct m as [[a e]|]; simpl; trivial. now rewrite app_nil_r. Qed.

Lemma bind_assoc {A B C} (m : M A) (k : A -> M B) (h : B -> M C) :
  bind (bind m k) h = bind m (fun a => bind (k a) h).
Proof.
  destruct m as [[a e1]|]; simpl; trivial.
  destruct (k a) as [[b e2]|]; simpl; trivial.
  destruct (h b) as [[c e3]|]; simpl; trivial.
  now rewrite app_assoc.
Qed.

Lemma bind_ext {A B} (m : M A) (k k' : A -> M B) :
  (forall a, k a = k' a) -> bind m k = bind m k'.
Proof. intros H. destruct m as [[a e]|]; simpl; trivial. now rewrite H. Qed.

Lemma for_of_app {A S} (body : S -> A -> M S) (l1 l2 : list A) (s : S) :
  for_of body (l1 ++ l2) s = (s' <- for_of body l1 s ;; for_of body l2 s').
Proof.
  revert s. induction l1 as [|x l1 IH]; intros s; simpl for_of.
  - now rewrite bind_ret_l.
  - rewrite bind_assoc. apply bind_ext. intros a. apply IH.
Qed.

Lemma for_of_cons {A S} (body : S -> A -> M S) (x : A) (l : list A) (s : S) :
  for_of body (x :: l) s = (s' <- body s x ;; for_of body l s').
Proof. reflexivity. Qed.

Lemma for_of_ext {A S} (body body' : S -> A -> M S) (l : list A) (s : S) :
  (forall s x, In x l -> body s x = body' s x) ->
  for_of body l s = for_of body' l s.
Proof.
  revert s. induction l as [|x l IH]; intros s H; simpl; trivial.
  rewrite (H s x (or_introl eq_refl)).
  apply bind_ext. intros a. apply IH. intros; apply H. now right.
Qed.

(** A loop that ends normally ran its body on every element, and what
    the body pushed there is part of what the loop pushed. *)
Lemma for_of_In {A S} (body : S -> A -> M S) (l : list A) (x : A) :
  forall s s' e,
    for_of body l s = Done (s', e) -> In x l ->
    exists s1 s2 e1 e0 e2,
      body s1 x = Done (s2, e1) /\ e = (e0 ++ e1 ++ e2)%list.
Proof.
  induction l as [|y l IH]; intros s s' e H Hin; [contradiction|].
  rewrite for_of_cons in H.
  apply bind_Done_inv in H. destruct H as (s1 & e1 & e2 & Hy & Hl & ->).
  destruct Hin as [->|Hin].
  - exists s, s1, e1, [], e2. auto.
  - destruct (IH _ _ _ Hl Hin) as (t1 & t2 & f1 & f0 & f2 & Hb & ->).
    exists t1, t2, f1, (e1 ++ f0)%list, f2. split; trivial.
    now rewrite <- app_assoc.
Qed.

Lemma app_eq_nil_l {A} (a b : list A) : (a ++ b)%list = [] -> a = [].
Proof. now destruct a. Qed.

Lemma app_eq_nil_r {A} (a b : list A) : (a ++ b)%list = [] -> b = [].
Proof. destruct a; [trivial | discriminate]. Qed.

(** * The stages of a run *)

Lemma validateIndexShape_eq (index : json) (label : string) :
  index <> JNull ->
  validateIndexShape index label = Done (plugins_of index, shape_errors index label).
Proof.
  intros Hn. unfold validateIndexShape, plugins_of, shape_errors.
  destruct index; try congruence;
    destruct (strict_equal _ _); destruct (isNonEmptyString _);
    destruct (prop _ "plugins") as [[]|]; reflexivity.
Qed.

Lemma validateIndexShape_Done (index : json) (label : string) l e :
  validateIndexShape index label = Done (l, e) ->
  index <> JNull /\ l = plugins_of index /\ e = shape_errors index label.
Proof.
  intros H. assert (Hn : index <> JNull) by (intros ->; discriminate).
  rewrite (validateIndexShape_eq _ _ Hn) in H. inversion H. auto.
Qed.

Lemma collect_Done_inv (baseIndex prIndex : json) ds e :
  collect baseIndex prIndex = Done (ds, e) ->
  baseIndex <> JNull /\ prIndex <> JNull /\
  exists st e4 e5 e6,
    for_of checkPlugin (plugins_of prIndex) ([], []) = Done (st, e4) /\
    for_of (checkRemoved (snd st)) (basePluginMap_of (plugins_of baseIndex)) tt
      = Done (tt, e5) /\
    for_of (walkPlugin (basePluginMap_of (plugins_of baseIndex)))
           (plugins_of prIndex) [] = Done (ds, e6) /\
    e = (shape_errors baseIndex "base index.json"
         ++ shape_errors prIndex "pr index.json"
         ++ name_errors baseIndex prIndex ++ e4 ++ e5 ++ e6)%list.
Proof.
  unfold collect. intros H.
  apply bind_Done_inv in H. destruct H as (bp & e1 & r1 & H1 & H & ->).
  apply validateIndexShape_Done in H1. destruct H1 as (Hb & -> & ->).
  apply bind_Done_inv in H. destruct H as (pp & e2 & r2 & H2 & H & ->).
  apply validateIndexShape_Done in H2. destruct H2 as (Hp & -> & ->).
  apply bind_Done_inv in H. destruct H as ([] & e3 & r3 & H3 & H & ->).
  apply bind_Done_inv in H. destruct H as (st & e4 & r4 & H4 & H & ->).
  apply bind_Done_inv in H. destruct H as ([] & e5 & e6 & H5 & H6 & ->).
  split; trivial. split; trivial.
  exists st, e4, e5, e6. repeat split; trivial.
  assert (e3 = name_errors baseIndex prIndex) as ->; trivial.
  unfold name_errors. unfold when in H3.
  destruct (strict_equal _ _); simpl in H3; inversion H3; reflexivity.
Qed.

Lemma collect_eq (baseIndex prIndex : json) st e4 e5 ds e6 :
  baseIndex <> JNull -> prIndex <> JNull ->
  for_of checkPlugin (plugins_of prIndex) ([], []) = Done (st, e4) ->
  for_of (checkRemoved (snd st)) (basePluginMap_of (plugins_of baseIndex)) tt
    = Done (tt, e5) ->
  for_of (walkPlugin (basePluginMap_of (plugins_of baseIndex)))
         (plugins_of prIndex) [] = Done (ds, e6) ->
  collect baseIndex prIndex
  = Done (ds, (shape_errors baseIndex "base index.json"
               ++ shape_errors prIndex "pr index.json"
               ++ name_errors baseIndex prIndex ++ e4 ++ e5 ++ e6)%list).
Proof.
  intros Hb Hp H4 H5 H6. unfold collect.
  eapply bind_Done; [now apply validateIndexShape_eq|].
  eapply bind_Done; [now apply validateIndexShape_eq|].
  eapply (bind_Done _ _ tt (name_errors baseIndex prIndex)).
  { unfold when, name_errors. now destruct (strict_equal _ _). }
  eapply bind_Done; [exact H4|].
  eapply bind_Done; [exact H5|exact H6].
Qed.

Lemma run_Done_inv (baseIndex prIndex : json) n e :
  run baseIndex prIndex = Done (n, e) ->
  exists ds e1 e2,
    collect baseIndex prIndex = Done (ds, e1) /\
    for_of checkDownload ds 0%nat = Done (n, e2) /\ e = (e1 ++ e2)%list.
Proof. unfold run. intros H. apply bind_Done_inv in H. exact H. Qed.

Lemma validate_Done_inv (baseIndex prIndex : json) (r : result) :
  validate baseIndex prIndex = Done r ->
  exists n, run baseIndex prIndex = Done (n, errors r) /\
            ok r = (List.length (errors r) =? 0)%nat.
Proof.
  unfold validate. destruct (run baseIndex prIndex) as [[n e]|]; [|discriminate].
  inversion 1; subst. simpl. eauto.
Qed.

Lemma validate_eq (baseIndex prIndex : json) n e :
  run baseIndex prIndex = Done (n, e) ->
  validate baseIndex prIndex = Done {| ok := (List.length e =? 0)%nat; errors := e |}.
Proof. unfold validate. now intros ->. Qed.

Lemma not_ok_of_In (r : result) (msg : string) :
  ok r = (List.length (errors r) =? 0)%nat -> In msg (errors r) -> ok r = false.
Proof. intros -> H. destruct (errors r); [contradiction | reflexivity]. Qed.

(** ** One version *)

Lemma typeof_object_truthy (v : json) : typeof_object v = true -> truthy (Some v) = true.
Proof. now destruct v. Qed.

Lemma prop_Some_object (o : json) (k : string) (x : json) :
  prop o k = Some x -> typeof_object o = true.
Proof. destruct o; simpl; congruence. Qed.

Lemma str_Done_inv (v : value) (s : string) (e : list string) :
  str v = Done (s, e) -> ToString v = Some s /\ e = [].
Proof. unfold str. destruct (ToString v); [|discriminate]. inversion 1; auto. Qed.

Lemma versionLabel_of_Done_inv (plugin version : json) l e :
  versionLabel_of plugin version = Done (l, e) ->
  e = [] /\
  exists id v,
    ToString (or_else (prop plugin "id") "unknown") = Some id /\
    ToString (or_else (opt_prop (Some version) "version") "unknown") = Some v /\
    l = id ++ "/" ++ v.
Proof.
  unfold versionLabel_of. intros H.
  apply bind_Done_inv in H. destruct H as (id & e1 & r1 & H1 & H & ->).
  apply bind_Done_inv in H. destruct H as (v & e2 & r2 & H2 & H & ->).
  apply str_Done_inv in H1, H2. destruct H1 as [H1 ->], H2 as [H2 ->].
  inversion H; subst. split; trivial. eauto.
Qed.

Lemma walkVersion_Done_inv (plugin : json) bvs st (version : json) st' e :
  walkVersion plugin bvs st version = Done (st', e) ->
  typeof_object version = true ->
  exists lbl seen' e1 e2 e3 e4 q e5,
    versionLabel_of plugin version = Done (lbl, []) /\
    checkVersionName plugin lbl (fst st) version = Done (seen', e1) /\
    checkEntry lbl version = Done (tt, e2) /\
    checkDist lbl version = Done (tt, e3) /\
    checkPermissions lbl version = Done (tt, e4) /\
    compareOrQueue bvs lbl version = Done (q, e5) /\
    st' = (seen', (snd st ++ q)%list) /\
    e = (e1 ++ e2 ++ e3 ++ e4 ++ e5)%list.
Proof.
  unfold walkVersion. intros H Hobj.
  rewrite Hobj, (typeof_object_truthy _ Hobj) in H. simpl orb in H. cbv iota in H.
  apply bind_Done_inv in H. destruct H as (lbl & e0 & r0 & H0 & H & ->).
  destruct (versionLabel_of_Done_inv _ _ _ _ H0) as [-> _].
  apply bind_Done_inv in H. destruct H as (seen' & e1 & r1 & H1 & H & ->).
  apply bind_Done_inv in H. destruct H as ([] & e2 & r2 & H2 & H & ->).
  apply bind_Done_inv in H. destruct H as ([] & e3 & r3 & H3 & H & ->).
  apply bind_Done_inv in H. destruct H as ([] & e4 & r4 & H4 & H & ->).
  apply bind_Done_inv in H. destruct H as (q & e5 & r5 & H5 & H & ->).
  inversion H; subst.
  exists lbl, seen', e1, e2, e3, e4, q, e5.
  rewrite app_nil_r. simpl. repeat split; trivial.
Qed.

Lemma walkVersion_eq (plugin : json) bvs st (version : json)
  lbl seen' e1 e2 e3 e4 q e5 :
  typeof_object version = true ->
  versionLabel_of plugin version = Done (lbl, []) ->
  checkVersionName plugin lbl (fst st) version = Done (seen', e1) ->
  checkEntry lbl version = Done (tt, e2) ->
  checkDist lbl version = Done (tt, e3) ->
  checkPermissions lbl version = Done (tt, e4) ->
  compareOrQueue bvs lbl version = Done (q, e5) ->
  walkVersion plugin bvs st version
  = Done ((seen', (snd st ++ q)%list), (e1 ++ e2 ++ e3 ++ e4 ++ e5)%list).
Proof.
  intros Hobj H0 H1 H2 H3 H4 H5. unfold walkVersion.
  rewrite Hobj, (typeof_object_truthy _ Hobj). simpl orb. cbv iota.
  rewrite H0. cbn [bind]. rewrite H1. cbn [bind]. rewrite H2. cbn [bind]. rewrite H3. cbn [bind].
  rewrite H4. cbn [bind]. rewrite H5. cbn [bind ret].
  rewrite app_nil_r. reflexivity.
Qed.

(** ** One plugin *)

Lemma walkPlugin_versions (bmap : list (string * json)) ds (plugin : json) vs :
  prop plugin "versions" = Some (JArr vs) ->
  walkPlugin bmap ds plugin
  = (st <- for_of (walkVersion plugin
                     (baseVersions_of (map_get bmap (prop plugin "id"))))
                  vs ([], ds) ;;
     ret (snd st)).
Proof.
  intros Hv. unfold walkPlugin.
  pose proof (prop_Some_object _ _ _ Hv) as Hobj.
  rewrite Hobj, (typeof_object_truthy _ Hobj), Hv. reflexivity.
Qed.

(** ** What a run reports about a version *)

Lemma run_reports_version (baseIndex prIndex : json) n e p vs v :
  run baseIndex prIndex = Done (n, e) ->
  In p (plugins_of prIndex) ->
  prop p "versions" = Some (JArr vs) ->
  In v vs ->
  exists st st' ev e0 e2,
    walkVersion p
      (baseVersions_of
         (map_get (basePluginMap_of (plugins_of baseIndex)) (prop p "id")))
      st v = Done (st', ev)
    /\ e = (e0 ++ ev ++ e2)%list.
Proof.
  intros H Hp Hvs Hv.
  apply run_Done_inv in H. destruct H as (ds & e1 & e2 & Hc & Hd & ->).
  apply collect_Done_inv in Hc.
  destruct Hc as (_ & _ & st & e4 & e5 & e6 & _ & _ & Hw & ->).
  destruct (for_of_In _ _ _ _ _ _ Hw Hp) as (d1 & d2 & f1 & f0 & f2 & Hb & ->).
  rewrite (walkPlugin_versions _ _ _ _ Hvs) in Hb.
  apply bind_Done_inv in Hb. destruct Hb as (sv & g1 & g2 & Hl & Hr & ->).
  inversion Hr; subst. rewrite app_nil_r.
  destruct (for_of_In _ _ _ _ _ _ Hl Hv) as (t1 & t2 & h1 & h0 & h2 & Hb & ->).
  exists t1, t2, h1,
    (shape_errors baseIndex "base index.json"
     ++ shape_errors prIndex "pr index.json"
     ++ name_errors baseIndex prIndex ++ e4 ++ e5 ++ f0 ++ h0)%list,
    (h2 ++ f2 ++ e2)%list.
  split; [exact Hb|].
  repeat rewrite <- app_assoc. reflexivity.
Qed.

(** ** The dist block *)

Lemma dist_malformed_false_inv (version : json) (e : list string) :
  dist_malformed version = Done (false, e) ->
  e = [] /\
  truthy (prop version "dist") = true /\
  strict_equal (opt_prop (prop version "dist") "type") (Some (JStr "tgz")) = true /\
  isNonEmptyString (opt_prop (prop version "dist") "url") = true /\
  exists s,
    ToString (or_else (opt_prop (prop version "dist") "sha256") EmptyString) = Some s /\
    isValidSha256 (toLowerCase s) = true.
Proof.
  unfold dist_malformed.
  destruct (truthy (prop version "dist")); simpl; [|discriminate].
  destruct (strict_equal _ _); simpl; [|discriminate].
  destruct (isNonEmptyString _); simpl; [|discriminate].
  intros H. apply bind_Done_inv in H. destruct H as (s & e1 & e2 & H1 & H2 & ->).
  apply str_Done_inv in H1. destruct H1 as [H1 ->].
  unfold ret in H2.
  assert (H0 : negb (isValidSha256 (toLowerCase s)) = false) by congruence.
  assert (He : e2 = []) by congruence.
  subst e2. repeat split; trivial.
  exists s. split; trivial.
  now apply negb_false_iff.
Qed.

Lemma dist_malformed_eq (version : json) (s : string) :
  truthy (prop version "dist") = true ->
  strict_equal (opt_prop (prop version "dist") "type") (Some (JStr "tgz")) = true ->
  isNonEmptyString (opt_prop (prop version "dist") "url") = true ->
  ToString (or_else (opt_prop (prop version "dist") "sha256") EmptyString) = Some s ->
  dist_malformed version = Done (negb (isValidSha256 (toLowerCase s)), []).
Proof.
  intros H1 H2 H3 H4. unfold dist_malformed, str.
  rewrite H1, H2, H3, H4. reflexivity.
Qed.

Lemma isNonEmptyString_inv (v : value) :
  isNonEmptyString v = true -> exists s, v = Some (JStr s) /\ s <> EmptyString.
Proof.
  destruct v as [[]|]; simpl; try discriminate.
  intros H. exists s. split; trivial. intros ->. discriminate.
Qed.


Lemma checkDist_malformed (versionLabel : string) (version : json) :
  dist_malformed version = Done (true, []) ->
  checkDist versionLabel version = Done (tt, [msg_dist versionLabel]).
Proof. intros Hm. unfold checkDist. rewrite Hm. reflexivity. Qed.

(** ** Lower case *)

Lemma toLowerCase_length (s : string) :
  String.length (toLowerCase s) = String.length s.
Proof. induction s; simpl; congruence. Qed.

Lemma lower_hex (c : ascii) : hex_any c = true -> hex_char (lower_char c) = true.
Proof.
  destruct c as [[] [] [] [] [] [] [] []]; vm_compute; trivial.
Qed.

Lemma toLowerCase_hex (s : string) :
  string_forallb hex_any s = true -> string_forallb hex_char (toLowerCase s) = true.
Proof.
  induction s as [|c s IH]; simpl; trivial.
  rewrite !andb_true_iff. intros [H1 H2]. split; auto using lower_hex.
Qed.

Lemma mixed_case_sha256_valid (s : string) :
  String.length s = 64%nat -> string_forallb hex_any s = true ->
  isValidSha256 (toLowerCase s) = true.
Proof.
  intros HL HH. unfold isValidSha256.
  rewrite toLowerCase_length, HL, (toLowerCase_hex _ HH). reflexivity.
Qed.

(** ** Maps keyed by strings *)

Lemma assoc_get_set_same {A} (k : string) (a : A) m :
  assoc_get String.eqb k (assoc_set String.eqb k a m) = Some a.
Proof.
  induction m as [|[k' a'] m IH]; simpl.
  - now rewrite String.eqb_refl.
  - destruct (String.eqb_spec k k') as [->|N]; simpl.
    + now rewrite String.eqb_refl.
    + destruct (String.eqb_spec k k'); [contradiction | exact IH].
Qed.

Lemma assoc_get_set_other {A} (k k' : string) (a : A) m :
  k <> k' ->
  assoc_get String.eqb k (assoc_set String.eqb k' a m) = assoc_get String.eqb k m.
Proof.
  intros N. induction m as [|[k0 a0] m IH]; simpl.
  - destruct (String.eqb_spec k k'); [contradiction | reflexivity].
  - destruct (String.eqb_spec k' k0) as [->|N0]; simpl.
    + destruct (String.eqb_spec k k0); [contradiction | reflexivity].
    + destruct (String.eqb_spec k k0); [reflexivity | exact IH].
Qed.

Lemma strict_equal_str (v : value) (s : string) :
  strict_equal v (Some (JStr s)) = true <-> v = Some (JStr s).
Proof.
  destruct v as [[]|]; simpl; split; try discriminate.
  - intros H. apply String.eqb_eq in H. now subst.
  - inversion 1. apply String.eqb_refl.
Qed.

Lemma strict_equal_str_l (v : value) (s : string) :
  strict_equal (Some (JStr s)) v = true <-> v = Some (JStr s).
Proof.
  destruct v as [[]|]; simpl; split; try discriminate.
  - intros H. apply String.eqb_eq in H. now subst.
  - inversion 1. apply String.eqb_refl.
Qed.

(** ** basePluginMap and baseVersions *)

Lemma basePluginMap_step_eq (m : list (string * json)) (plugin : json) :
  basePluginMap_step m plugin = record_step "id" m plugin.
Proof.
  unfold basePluginMap_step, record_step, entry_key.
  destruct (truthy (Some plugin) && isNonEmptyString (prop plugin "id")); trivial.
  now destruct (prop plugin "id") as [[]|].
Qed.

Lemma baseVersions_step_eq (m : list (string * json)) (version : json) :
  baseVersions_step m version = record_step "version" m version.
Proof.
  unfold baseVersions_step, record_step, entry_key.
  destruct (truthy (Some version) && isNonEmptyString (prop version "version")); trivial.
  now destruct (prop version "version") as [[]|].
Qed.

Lemma fold_left_ext_eq {A B} (f g : A -> B -> A) :
  (forall a b, f a b = g a b) -> forall l a, fold_left f l a = fold_left g l a.
Proof. intros H l a. now apply fold_left_ext. Qed.

Lemma basePluginMap_of_eq (ps : list json) :
  basePluginMap_of ps = fold_left (record_step "id") ps [].
Proof. apply fold_left_ext_eq, basePluginMap_step_eq. Qed.

Lemma entry_key_of_prop (field : string) (x : json) (k : string) :
  prop x field = Some (JStr k) ->
  isNonEmptyString (Some (JStr k)) = true ->
  entry_key field x = Some k.
Proof.
  intros H1 H2. unfold entry_key.
  rewrite (typeof_object_truthy _ (prop_Some_object _ _ _ H1)), H1, H2.
  reflexivity.
Qed.

Lemma entry_key_inv (field : string) (x : json) (k : string) :
  entry_key field x = Some k ->
  prop x field = Some (JStr k) /\ isNonEmptyString (Some (JStr k)) = true
  /\ truthy (Some x) = true.
Proof.
  unfold entry_key.
  destruct (truthy (Some x)); cbn [andb]; [|discriminate].
  destruct (prop x field) as [[]|] eqn:E; cbn [isNonEmptyString]; try discriminate.
  destruct (0 <? String.length (trim s))%nat eqn:E2; [|discriminate].
  intros H. assert (s = k) by congruence. subst. auto.
Qed.

Lemma entry_key_None (field : string) (x : json) :
  isNonEmptyString (opt_prop (Some x) field) = false -> entry_key field x = None.
Proof.
  unfold entry_key. destruct x; simpl; trivial;
    try (intros _; now rewrite andb_false_r).
  intros H. now rewrite H.
Qed.

Lemma record_fold_keeps (field : string) (l : list json) :
  forall m k,
    assoc_get String.eqb k m <> None ->
    assoc_get String.eqb k (fold_left (record_step field) l m) <> None.
Proof.
  induction l as [|p l IH]; intros m k H; simpl; trivial.
  apply IH. unfold record_step.
  destruct (entry_key field p) as [id|]; trivial.
  destruct (String.eqb_spec k id) as [->|N].
  - rewrite assoc_get_set_same. discriminate.
  - now rewrite assoc_get_set_other.
Qed.

Lemma record_fold_has (field : string) (l : list json) (p : json) (k : string) :
  In p l -> entry_key field p = Some k ->
  forall m, assoc_get String.eqb k (fold_left (record_step field) l m) <> None.
Proof.
  induction l as [|q l IH]; intros Hin Hk m; [contradiction|].
  simpl. destruct Hin as [->|Hin].
  - apply record_fold_keeps.
    unfold record_step. rewrite Hk, assoc_get_set_same. discriminate.
  - now apply IH.
Qed.

(** Every key of the Map is the key of a recorded entry. *)
Lemma record_fold_keys (field : string) (l : list json) :
  forall m k,
    assoc_get String.eqb k (fold_left (record_step field) l m) <> None ->
    assoc_get String.eqb k m <> None
    \/ exists p, In p l /\ entry_key field p = Some k.
Proof.
  induction l as [|q l IH]; intros m k H; simpl in *; auto.
  destruct (IH _ _ H) as [H1|(p & Hin & Hk)].
  - unfold record_step in H1.
    destruct (entry_key field q) as [id|] eqn:E; auto.
    destruct (String.eqb_spec k id) as [->|N].
    + right. exists q. auto.
    + rewrite assoc_get_set_other in H1; auto.
  - right. exists p. auto.
Qed.

(** The values of the Map are truthy. *)
Lemma record_fold_truthy (field : string) (l : list json) :
  forall m k x,
    assoc_get String.eqb k (fold_left (record_step field) l m) = Some x ->
    assoc_get String.eqb k m = Some x \/ truthy (Some x) = true.
Proof.
  induction l as [|q l IH]; intros m k x H; simpl in *; auto.
  destruct (IH _ _ _ H) as [H1|H1]; auto.
  unfold record_step in H1.
  destruct (entry_key field q) as [id|] eqn:E; auto.
  destruct (String.eqb_spec k id) as [->|N].
  - rewrite assoc_get_set_same in H1. inversion H1; subst.
    right. now apply entry_key_inv in E.
  - rewrite assoc_get_set_other in H1; auto.
Qed.

(** Entries with other keys leave a key's value alone. *)
Lemma record_fold_other (field : string) (l : list json) (k : string) :
  (forall q, In q l -> entry_key field q <> Some k) ->
  forall m, assoc_get String.eqb k (fold_left (record_step field) l m)
            = assoc_get String.eqb k m.
Proof.
  induction l as [|q l IH]; intros H m; simpl; trivial.
  rewrite IH by (intros; apply H; now right).
  unfold record_step.
  destruct (entry_key field q) as [id|] eqn:E; trivial.
  apply assoc_get_set_other. intros ->. apply (H q); auto. now left.
Qed.

(** ** prPluginMap *)

Lemma swz_str (s : string) (k : value) :
  same_value_zero (Some (JStr s)) k = true <-> k = Some (JStr s).
Proof. apply strict_equal_str_l. Qed.

Lemma prPluginMap_get_set_other (s : string) (k : value) (p : json) m :
  k <> Some (JStr s) ->
  assoc_get same_value_zero (Some (JStr s)) (assoc_set same_value_zero k p m)
  = assoc_get same_value_zero (Some (JStr s)) m.
Proof.
  intros N. induction m as [|[k0 a0] m IH]; cbn [assoc_get assoc_set].
  - destruct (same_value_zero (Some (JStr s)) k) eqn:E; trivial.
    apply swz_str in E. congruence.
  - destruct (same_value_zero k k0) eqn:E1; cbn [assoc_get].
    + destruct (same_value_zero (Some (JStr s)) k0) eqn:E2; trivial.
      apply swz_str in E2. subst k0.
      unfold same_value_zero in E1. apply strict_equal_str in E1. congruence.
    + destruct (same_value_zero (Some (JStr s)) k0); trivial.
Qed.



Lemma has_plugin_true (index : json) (id : string) :
  has_plugin index id = true <->
  exists p, In p (plugins_of index) /\ prop p "id" = Some (JStr id).
Proof.
  unfold has_plugin. rewrite existsb_exists.
  split; intros (p & H1 & H2); exists p; split; trivial; now apply strict_equal_str.
Qed.


(** ** The removal loop *)



(** ** Updated documents *)

Lemma assoc_get_map_values {A B} (f : string -> A -> B) (k : string)
  (l : list (string * A)) :
  assoc_get String.eqb k (map (fun '(k0, v) => (k0, f k0 v)) l)
  = option_map (f k) (assoc_get String.eqb k l).
Proof.
  induction l as [|[k0 v] l IH]; simpl; trivial.
  destruct (String.eqb_spec k k0) as [->|N]; trivial.
Qed.

Lemma prop_update_prop_same (key : string) (f : json -> json) (o : json) :
  prop (update_prop key f o) key = option_map f (prop o key).
Proof.
  destruct o; simpl; trivial.
  rewrite (assoc_get_map_values (fun k0 v => if k0 =? key then f v else v)).
  now rewrite String.eqb_refl.
Qed.

Lemma prop_update_prop_other (key k : string) (f : json -> json) (o : json) :
  k <> key -> prop (update_prop key f o) k = prop o k.
Proof.
  intros N. destruct o; simpl; trivial.
  rewrite (assoc_get_map_values (fun k0 v => if k0 =? key then f v else v)).
  destruct (String.eqb_spec k key); [contradiction|].
  now destruct (assoc_get String.eqb k props).
Qed.

Lemma update_prop_null (key : string) (f : json -> json) (o : json) :
  update_prop key f o = JNull <-> o = JNull.
Proof. destruct o; simpl; split; congruence. Qed.

Lemma typeof_object_update_prop (key : string) (f : json -> json) (o : json) :
  typeof_object (update_prop key f o) = typeof_object o.
Proof. now destruct o. Qed.

Lemma shape_errors_update_plugins (f : json -> json) (index : json) (label : string) :
  (forall a, match f a with JArr _ => true | _ => false end
             = match a with JArr _ => true | _ => false end) ->
  shape_errors (update_prop "plugins" f index) label = shape_errors index label.
Proof.
  intros Hf. unfold shape_errors.
  rewrite !prop_update_prop_other by discriminate.
  rewrite prop_update_prop_same.
  destruct (prop index "plugins") as [a|]; simpl; trivial.
  specialize (Hf a). destruct (f a), a; try discriminate; reflexivity.
Qed.

Lemma name_errors_update_plugins_l (f : json -> json) (b p : json) :
  name_errors (update_prop "plugins" f b) p = name_errors b p.
Proof. unfold name_errors. now rewrite prop_update_prop_other by discriminate. Qed.

Lemma name_errors_update_plugins_r (f : json -> json) (b p : json) :
  name_errors b (update_prop "plugins" f p) = name_errors b p.
Proof. unfold name_errors. now rewrite prop_update_prop_other by discriminate. Qed.

Lemma plugins_of_update (f : json -> json) (g : list json -> list json) (index : json) :
  (forall a, f a = match a with JArr items => JArr (g items) | _ => a end) ->
  plugins_of (update_prop "plugins" f index) = 
  match prop index "plugins" with
  | Some (JArr items) => g items
  | _ => []
  end.
Proof.
  intros Hf. unfold plugins_of. rewrite prop_update_prop_same.
  destruct (prop index "plugins") as [a|]; simpl; trivial.
  rewrite Hf. now destruct a.
Qed.

(** ** A base plugin that is not recorded *)

Lemma record_fold_remove_nth (field : string) (l : list json) :
  forall i p m,
    nth_error l i = Some p -> entry_key field p = None ->
    fold_left (record_step field) (remove_nth i l) m
    = fold_left (record_step field) l m.
Proof.
  induction l as [|q l IH]; intros [|i] p m Hn Hk; simpl in *; try discriminate.
  - inversion Hn; subst. f_equal. unfold record_step. now rewrite Hk.
  - eapply IH; eauto.
Qed.

Lemma json_eq_null (v : json) : v = JNull \/ v <> JNull.
Proof. destruct v; auto; right; discriminate. Qed.

Lemma run_eq_of_stages (b b' pr : json) :
  (b = JNull <-> b' = JNull) ->
  shape_errors b' "base index.json" = shape_errors b "base index.json" ->
  prop b' "name" = prop b "name" ->
  basePluginMap_of (plugins_of b') = basePluginMap_of (plugins_of b) ->
  run b' pr = run b pr.
Proof.
  intros Hnull Hs Hname Hmap. unfold run, collect.
  destruct (json_eq_null b) as [->|Hb].
  - rewrite (proj1 Hnull eq_refl). reflexivity.
  - assert (Hb' : b' <> JNull) by (intros E; apply Hb, Hnull, E).
    rewrite !(validateIndexShape_eq _ _ Hb), !(validateIndexShape_eq _ _ Hb').
    rewrite Hs, Hname. f_equal. cbn [bind]. rewrite Hmap. reflexivity.
Qed.

(** * Telling canonical forms apart *)

(** ** Appending strings *)

Lemma append_assoc (a b c : string) : (a ++ b) ++ c = a ++ (b ++ c).
Proof. induction a; simpl; congruence. Qed.

Lemma append_nil_r (a : string) : a ++ EmptyString = a.
Proof. induction a; simpl; congruence. Qed.

Lemma append_inv_head (a b c : string) : a ++ b = a ++ c -> b = c.
Proof. induction a; simpl; intros H; [trivial | inversion H; auto]. Qed.

Lemma list_ascii_of_string_app (a b : string) :
  list_ascii_of_string (a ++ b)
  = (list_ascii_of_string a ++ list_ascii_of_string b)%list.
Proof. induction a; simpl; congruence. Qed.

Lemma list_ascii_of_string_inj (a b : string) :
  list_ascii_of_string a = list_ascii_of_string b -> a = b.
Proof.
  intros H. rewrite <- (string_of_list_ascii_of_string a),
              <- (string_of_list_ascii_of_string b). now rewrite H.
Qed.

Lemma append_inv_tail (a b c : string) : a ++ c = b ++ c -> a = b.
Proof.
  intros H. apply list_ascii_of_string_inj.
  apply (f_equal list_ascii_of_string) in H.
  rewrite !list_ascii_of_string_app in H.
  now apply app_inv_tail in H.
Qed.

(** ** Quoted strings *)

Lemma unquote_quote_char (c : ascii) : unquote_char (quote_char c) = c.
Proof.
  destruct c as [[] [] [] [] [] [] [] []]; vm_compute; reflexivity.
Qed.

Lemma quote_char_inj (c c' : ascii) : quote_char c = quote_char c' -> c = c'.
Proof.
  intros H. rewrite <- (unquote_quote_char c), <- (unquote_quote_char c').
  now rewrite H.
Qed.

Lemma quote_body_app (a b : string) :
  quote_body (a ++ b) = quote_body a ++ quote_body b.
Proof.
  induction a; simpl; trivial. now rewrite IHa, append_assoc.
Qed.

Lemma quote_one_changed (pre post : string) (c c' : ascii) :
  c <> c' -> quote (pre ++ String c post) <> quote (pre ++ String c' post).
Proof.
  intros N H. unfold quote in H.
  apply append_inv_head, append_inv_tail in H.
  rewrite !quote_body_app in H. apply append_inv_head in H.
  simpl in H. apply append_inv_tail in H.
  now apply quote_char_inj in H.
Qed.

(** ** Joining with a separator *)

Lemma concat_cons (sep x : string) (l : list string) :
  l <> [] -> String.concat sep (x :: l) = x ++ sep ++ String.concat sep l.
Proof. destruct l; [congruence | reflexivity]. Qed.

Lemma concat_middle (sep : string) (l1 l2 : list string) (x : string) :
  String.concat sep (l1 ++ x :: l2)
  = joined_before sep l1 ++ x ++ joined_after sep l2.
Proof.
  induction l1 as [|y l1 IH].
  - destruct l2; simpl; [now rewrite append_nil_r | reflexivity].
  - change ((y :: l1) ++ x :: l2)%list with (y :: (l1 ++ x :: l2))%list.
    rewrite concat_cons by (now destruct l1).
    rewrite IH. simpl. now rewrite !append_assoc.
Qed.

(** ** Replacing the value of one key *)

Lemma keys_replace_value {A} (k : string) (c : A) l :
  keys (replace_value k c l) = keys l.
Proof. apply (keys_map_values (fun k0 v => if k0 =? k then c else v)). Qed.

Lemma replace_value_app {A} (k : string) (c : A) l1 l2 :
  replace_value k c (l1 ++ l2) = (replace_value k c l1 ++ replace_value k c l2)%list.
Proof. apply map_app. Qed.

Lemma replace_value_absent {A} (k : string) (c : A) l :
  ~ In k (keys l) -> replace_value k c l = l.
Proof using. platform_free.
  induction l as [|[k0 v] l IH]; simpl; trivial.
  intros H. destruct (String.eqb_spec k0 k) as [->|N]; [tauto|].
  f_equal. apply IH. tauto.
Qed.

Lemma replace_value_split {A} (k : string) (a c : A) l :
  NoDup (keys l) -> In (k, a) l ->
  exists l1 l2, l = (l1 ++ (k, a) :: l2)%list
                /\ replace_value k c l = (l1 ++ (k, c) :: l2)%list.
Proof using. platform_free.
  intros ND Hin. destruct (in_split _ _ Hin) as (l1 & l2 & ->).
  exists l1, l2. split; trivial.
  unfold keys in ND. rewrite map_app in ND. simpl in ND.
  pose proof (NoDup_remove_2 _ _ _ ND) as Hn.
  rewrite replace_value_app.
  change (replace_value k c ((k, a) :: l2))
    with ((k, if k =? k then c else a) :: replace_value k c l2).
  rewrite String.eqb_refl.
  rewrite !replace_value_absent; trivial;
    intros H; apply Hn, in_or_app; [right | left]; exact H.
Qed.

(** ** Enumeration order ignores the values *)

Section MapValues.
Context {A B : Type}.
Variable f : string -> A -> B.

Lemma fst_with_value p : fst (with_value f p) = fst p.
Proof. now destruct p. Qed.

Lemma insert_index_map_values p l :
  insert_index (with_value f p) (map (with_value f) l)
  = map (with_value f) (insert_index p l).
Proof.
  induction l as [|h t IH]; simpl; trivial.
  rewrite !fst_with_value. destruct (index_of (fst p) <=? index_of (fst h))%N; simpl; trivial.
  now rewrite IH.
Qed.

Lemma sort_index_map_values l :
  sort_index (map (with_value f) l) = map (with_value f) (sort_index l).
Proof.
  induction l as [|h t IH]; simpl; trivial.
  now rewrite IH, insert_index_map_values.
Qed.

Lemma filter_map_values (q : string -> bool) l :
  filter (fun p => q (fst p)) (map (with_value f) l)
  = map (with_value f) (filter (fun p => q (fst p)) l).
Proof.
  induction l as [|h t IH]; simpl; trivial.
  rewrite fst_with_value. destruct (q (fst h)); simpl; now rewrite IH.
Qed.

Lemma own_entries_map_values l :
  own_entries (map (with_value f) l) = map (with_value f) (own_entries l).
Proof.
  unfold own_entries.
  rewrite (filter_map_values is_index), (filter_map_values (fun k => negb (is_index k))).
  now rewrite sort_index_map_values, map_app.
Qed.
End MapValues.

Lemma own_entries_replace_value {A} (k : string) (c : A) l :
  own_entries (replace_value k c l) = replace_value k c (own_entries l).
Proof. apply (own_entries_map_values (fun k0 v => if k0 =? k then c else v)). Qed.

(** ** The rebuilt object, key by key *)

Lemma assoc_set_fresh {A} (k : string) (a : A) l :
  ~ In k (keys l) -> assoc_set String.eqb k a l = (l ++ [(k, a)])%list.
Proof using. platform_free.
  induction l as [|[k0 v] l IH]; simpl; trivial.
  intros H. destruct (String.eqb_spec k k0) as [->|N]; [tauto|].
  f_equal. apply IH. tauto.
Qed.

Lemma keys_rebuilt_entries stable (K : list string) (k : string) :
  In k (keys (flat_map (rebuilt_entry stable) K)) -> In k K.
Proof using. platform_free.
  induction K as [|a K IH]; simpl; trivial.
  unfold keys. rewrite map_app, in_app_iff. fold (keys (flat_map (rebuilt_entry stable) K)).
  intros [H|H]; auto.
  left. unfold rebuilt_entry in H.
  destruct (a =? "__proto__"); [contradiction|].
  destruct (assoc_get String.eqb a stable); simpl in H; tauto.
Qed.

Lemma rebuild_fold stable (K : list string) :
  forall acc,
    NoDup K -> (forall k, In k K -> ~ In k (keys acc)) ->
    fold_left
      (fun acc key =>
         match assoc_get String.eqb key stable with
         | Some v => obj_assign acc key v
         | None => acc
         end) K acc
    = (acc ++ flat_map (rebuilt_entry stable) K)%list.
Proof using. platform_free.
  induction K as [|a K IH]; intros acc ND Hf; simpl.
  - now rewrite app_nil_r.
  - inversion ND; subst.
    assert (Ha : ~ In a (keys acc)) by (apply Hf; now left).
    unfold rebuilt_entry at 1. unfold obj_assign.
    destruct (assoc_get String.eqb a stable) as [v|];
      destruct (a =? "__proto__"); simpl;
      try (apply IH; trivial; intros k Hk; apply Hf; now right).
    rewrite (assoc_set_fresh _ _ _ Ha), IH; trivial.
    + now rewrite <- app_assoc.
    + intros k Hk. unfold keys. rewrite map_app, in_app_iff. simpl.
      intros [H|[H|[]]].
      * apply (Hf k); [now right | exact H].
      * subst. contradiction.
Qed.

Lemma NoDup_sort_keys {A} (l : list (string * A)) :
  NoDup (keys l) -> NoDup (sort (Object_keys l)).
Proof.
  intros ND. eapply Permutation_NoDup; [|exact ND].
  apply Permutation_sym. rewrite sort_perm. apply Object_keys_perm.
Qed.

Lemma rebuild_eq stable :
  NoDup (keys stable) ->
  rebuild stable = flat_map (rebuilt_entry stable) (sort (Object_keys stable)).
Proof using. platform_free.
  intros ND. unfold rebuild. rewrite rebuild_fold.
  - reflexivity.
  - now apply NoDup_sort_keys.
  - intros k _ [].
Qed.

Lemma NoDup_keys_rebuilt stable (K : list string) :
  NoDup K -> NoDup (keys (flat_map (rebuilt_entry stable) K)).
Proof using. platform_free.
  induction K as [|a K IH]; simpl; intros ND; [constructor|].
  inversion ND; subst.
  unfold keys. rewrite map_app. fold (keys (flat_map (rebuilt_entry stable) K)).
  unfold rebuilt_entry at 1.
  destruct (a =? "__proto__"); simpl; auto.
  destruct (assoc_get String.eqb a stable); simpl; auto.
  constructor; auto.
  intros H. apply keys_rebuilt_entries in H. contradiction.
Qed.

Lemma rebuilt_entry_replace stable (k : string) (c : json) (key : string) :
  rebuilt_entry (replace_value k c stable) key
  = replace_value k c (rebuilt_entry stable key).
Proof.
  unfold rebuilt_entry.
  destruct (key =? "__proto__"); trivial.
  unfold replace_value at 1.
  rewrite (assoc_get_map_values (fun k0 v => if k0 =? k then c else v)).
  destruct (assoc_get String.eqb key stable); reflexivity.
Qed.

Lemma rebuild_replace stable (k : string) (c : json) :
  NoDup (keys stable) ->
  rebuild (replace_value k c stable) = replace_value k c (rebuild stable).
Proof using. platform_free.
  intros ND.
  rewrite !rebuild_eq; trivial; [|now rewrite keys_replace_value].
  unfold Object_keys. rewrite own_entries_replace_value, keys_replace_value.
  fold (Object_keys stable).
  induction (sort (Object_keys stable)) as [|a K IH]; simpl; trivial.
  now rewrite replace_value_app, rebuilt_entry_replace, IH.
Qed.

Lemma rebuild_In stable (k : string) (v : json) :
  NoDup (keys stable) -> assoc_get String.eqb k stable = Some v ->
  k <> "__proto__" -> In (k, v) (rebuild stable).
Proof using. platform_free.
  intros ND Hg Hk. rewrite rebuild_eq; trivial.
  apply in_flat_map. exists k. split.
  - eapply Permutation_in.
    + apply Permutation_sym. rewrite sort_perm. apply Object_keys_perm.
    + apply assoc_get_Some_In in Hg. apply (in_map fst _ _ Hg).
  - unfold rebuilt_entry. destruct (String.eqb_spec k "__proto__"); [contradiction|].
    rewrite Hg. now left.
Qed.

Lemma NoDup_keys_rebuild stable : NoDup (keys stable) -> NoDup (keys (rebuild stable)).
Proof using. platform_free.
  intros ND. rewrite rebuild_eq; trivial.
  apply NoDup_keys_rebuilt. now apply NoDup_sort_keys.
Qed.

(** ** Changing one property changes the canonical form *)

Lemma stringify_obj (props : list (string * json)) :
  stringify (JObj props)
  = "{" ++ String.concat ","
             (map (fun '(k, s) => quote k ++ ":" ++ s)
                  (own_entries (map (fun '(k, v) => (k, stringify v)) props)))
        ++ "}".
Proof. reflexivity. Qed.

Lemma stringify_replace_neq (props : list (string * json)) (k : string) (a c : json) :
  NoDup (keys props) -> In (k, a) props ->
  stringify a <> stringify c ->
  stringify (JObj props) <> stringify (JObj (replace_value k c props)).
Proof using. platform_free.
  intros ND Hin Hne H.
  rewrite !stringify_obj in H.
  apply append_inv_head, append_inv_tail in H.
  set (ser := fun '(k0, s) => quote k0 ++ ":" ++ s : string) in *.
  set (h := fun '(k0, v) => (k0, stringify v) : string * string).
  assert (E : map h (replace_value k c props)
              = replace_value k (stringify c) (map h props)).
  { unfold replace_value. rewrite !map_map. apply map_ext.
    intros [k0 v]. simpl. now destruct (k0 =? k). }
  fold h in H. rewrite E, own_entries_replace_value in H.
  assert (NDE : NoDup (keys (own_entries (map h props)))).
  { eapply Permutation_NoDup.
    - apply Permutation_sym, Permutation_map, own_entries_perm.
    - unfold keys in *. rewrite map_map.
      erewrite map_ext; [exact ND|]. now intros [k0 v]. }
  assert (HinE : In (k, stringify a) (own_entries (map h props))).
  { eapply Permutation_in; [apply Permutation_sym, own_entries_perm|].
    apply (in_map h _ _ Hin). }
  destruct (replace_value_split k (stringify a) (stringify c) _ NDE HinE)
    as (l1 & l2 & E1 & E2).
  rewrite E2, E1 in H. rewrite !map_app in H. simpl map in H.
  rewrite !concat_middle in H.
  apply append_inv_head, append_inv_tail in H.
  change (quote k ++ ":" ++ stringify a = quote k ++ ":" ++ stringify c) in H.
  apply append_inv_head, append_inv_head in H.
  contradiction.
Qed.

Lemma stableObject_update_prop (props : list (string * json)) (k : string)
  (f : json -> json) (x : json) :
  NoDup (keys props) -> assoc_get String.eqb k props = Some x ->
  stableObject (update_prop k f (JObj props))
  = JObj (replace_value k (stableObject (f x))
            (rebuild (map (fun '(k0, v) => (k0, stableObject v)) props))).
Proof using. platform_free.
  intros ND Hg. unfold update_prop. rewrite stableObject_obj. f_equal.
  rewrite <- rebuild_replace
    by (now rewrite (keys_map_values (fun _ v => stableObject v))).
  f_equal. unfold replace_value. rewrite !map_map.
  apply map_ext_in. intros [k0 v] Hin.
  destruct (String.eqb_spec k0 k) as [->|N]; trivial.
  rewrite (assoc_get_In _ _ _ ND Hin) in Hg. inversion Hg. reflexivity.
Qed.

Lemma stableStringify_update_neq (props : list (string * json)) (k : string)
  (f : json -> json) (x : json) :
  NoDup (keys props) -> assoc_get String.eqb k props = Some x ->
  k <> "__proto__" ->
  stableStringify x <> stableStringify (f x) ->
  stableStringify (JObj props) <> stableStringify (update_prop k f (JObj props)).
Proof using. platform_free.
  intros ND Hg Hk Hne. unfold stableStringify.
  rewrite (stableObject_update_prop _ _ _ _ ND Hg), stableObject_obj.
  apply stringify_replace_neq with (a := stableObject x); trivial.
  - apply NoDup_keys_rebuild.
    now rewrite (keys_map_values (fun _ v => stableObject v)).
  - apply rebuild_In; trivial.
    + now rewrite (keys_map_values (fun _ v => stableObject v)).
    + rewrite (assoc_get_map_values (fun _ v => stableObject v)), Hg. reflexivity.
Qed.

(** * A run that reports nothing *)

Lemma push_bind_not_clean {A} (msg : string) (k : unit -> M A) (a : A) :
  bind (push msg) k <> Done (a, []).
Proof.
  unfold push, bind. destruct (k tt) as [[b e]|]; [|discriminate].
  simpl. congruence.
Qed.

Lemma bind_clean_inv {A B} (m : M A) (k : A -> M B) (b : B) :
  bind m k = Done (b, []) -> exists a, m = Done (a, []) /\ k a = Done (b, []).
Proof.
  intros H. apply bind_Done_inv in H. destruct H as (a & e1 & e2 & H1 & H2 & E).
  symmetry in E. pose proof (app_eq_nil_l _ _ E). pose proof (app_eq_nil_r _ _ E).
  subst. eauto.
Qed.

Lemma existsb_eqb_false (x : string) (l : list string) :
  existsb (String.eqb x) l = false <-> ~ In x l.
Proof.
  split.
  - intros H Hin.
    assert (existsb (String.eqb x) l = true)
      by (apply existsb_exists; exists x; split; [trivial | apply String.eqb_refl]).
    congruence.
  - intros H. destruct (existsb (String.eqb x) l) eqn:E; trivial.
    apply existsb_exists in E. destruct E as (y & Hy & Exy).
    apply String.eqb_eq in Exy. subst. contradiction.
Qed.

Lemma checkPluginId_clean (ids : list string) (p : json) (ids' : list string) :
  checkPluginId ids p = Done (ids', []) ->
  exists id,
    prop p "id" = Some (JStr id) /\
    isNonEmptyString (Some (JStr id)) = true /\
    ~ In id ids /\ ids' = (ids ++ [id])%list.
Proof.
  unfold checkPluginId.
  destruct (prop p "id") as [[| | |id| |]|];
    try (intros H; now apply push_bind_not_clean in H).
  destruct (isNonEmptyString (Some (JStr id))) eqn:E1; cbn [negb orb];
    [|intros H; now apply push_bind_not_clean in H].
  destruct (isValidId id); cbn [negb];
    [|intros H; now apply push_bind_not_clean in H].
  destruct (existsb (String.eqb id) ids) eqn:E2;
    [intros H; now apply push_bind_not_clean in H|].
  intros H. exists id. repeat split; trivial.
  - now apply existsb_eqb_false.
  - unfold ret in H. congruence.
Qed.

Lemma checkPlugin_clean (st : plugin_state) (q : json) (st' : plugin_state) :
  checkPlugin st q = Done (st', []) ->
  typeof_object q = true /\
  exists id,
    prop q "id" = Some (JStr id) /\
    isNonEmptyString (Some (JStr id)) = true /\
    ~ In id (fst st) /\ fst st' = (fst st ++ [id])%list.
Proof.
  unfold checkPlugin.
  destruct (typeof_object q) eqn:Eo.
  - rewrite (typeof_object_truthy _ Eo). cbn [negb orb].
    intros H. apply bind_clean_inv in H. destruct H as (ids' & H1 & H2).
    unfold checkPluginFields in H1.
    apply bind_clean_inv in H1. destruct H1 as (ids2 & H1 & H3).
    apply checkPluginId_clean in H1. destruct H1 as (id & Hid & Hne & Hnin & ->).
    split; trivial. exists id. repeat split; trivial.
    assert (ids' = (fst st ++ [id])%list).
    { apply bind_Done_inv in H3. destruct H3 as (? & ? & ? & _ & H3 & _).
      apply bind_Done_inv in H3. destruct H3 as (? & ? & ? & _ & H3 & _).
      apply bind_Done_inv in H3. destruct H3 as (? & ? & ? & _ & H3 & _).
      apply bind_Done_inv in H3. destruct H3 as (? & ? & ? & _ & H3 & _).
      unfold ret in H3. congruence. }
    subst ids'. unfold ret in H2. inversion H2. reflexivity.
  - rewrite orb_true_r. intros H. now apply push_bind_not_clean in H.
Qed.

Lemma for_of_checkPlugin_clean (l : list json) :
  forall st st',
    for_of checkPlugin l st = Done (st', []) ->
    (forall x, In x (fst st) -> In x (fst st')) /\
    (forall q, In q l ->
       typeof_object q = true /\
       exists id, prop q "id" = Some (JStr id) /\
                  isNonEmptyString (Some (JStr id)) = true /\
                  ~ In id (fst st)).
Proof.
  induction l as [|p l IH]; intros st st' H.
  - inversion H; subst. split; [trivial | intros q []].
  - rewrite for_of_cons in H. apply bind_clean_inv in H.
    destruct H as (s1 & Hp & Hl).
    apply checkPlugin_clean in Hp.
    destruct Hp as (Ho & id & Hid & Hne & Hnin & Hs1).
    destruct (IH _ _ Hl) as (Hmono & Hrest).
    split.
    + intros x Hx. apply Hmono. rewrite Hs1. apply in_or_app. now left.
    + intros q [<-|Hq].
      * split; trivial. exists id. auto.
      * destruct (Hrest q Hq) as (Hoq & idq & H1 & H2 & H3).
        split; trivial. exists idq. repeat split; trivial.
        intros Hin. apply H3. rewrite Hs1. apply in_or_app. now left.
Qed.

(** In a run that reports nothing, each base plugin is found under its
    own id. *)
Lemma clean_plugins_lookup (l1 l2 : list json) (p : json) (st : plugin_state) :
  for_of checkPlugin (l1 ++ p :: l2) ([], []) = Done (st, []) ->
  typeof_object p = true /\
  exists id,
    prop p "id" = Some (JStr id) /\
    map_get (basePluginMap_of (l1 ++ p :: l2)) (prop p "id") = Some p.
Proof.
  intros H. rewrite for_of_app in H.
  apply bind_clean_inv in H. destruct H as (s1 & H1 & H).
  rewrite for_of_cons in H.
  apply bind_clean_inv in H. destruct H as (s2 & Hp & H2).
  apply checkPlugin_clean in Hp.
  destruct Hp as (Ho & id & Hid & Hne & Hnin & Hs2).
  split; trivial. exists id. split; trivial.
  rewrite Hid. cbn [map_get].
  rewrite basePluginMap_of_eq, fold_left_app. cbn [fold_left].
  rewrite record_fold_other.
  - unfold record_step. rewrite (entry_key_of_prop _ _ _ Hid Hne).
    apply assoc_get_set_same.
  - intros q Hq Hk. apply entry_key_inv in Hk. destruct Hk as (Hk & _).
    destruct (for_of_checkPlugin_clean _ _ _ H2) as (_ & Hrest).
    destruct (Hrest q Hq) as (_ & idq & Hq1 & _ & Hq3).
    rewrite Hk in Hq1. inversion Hq1; subst idq.
    apply Hq3. rewrite Hs2. apply in_or_app. right. now left.
Qed.

(** * Two proposals that differ inside one version *)

(** ** The plugin entries *)

Lemma map_rel_refl (m : list (value * json)) : map_rel m m.
Proof. induction m; constructor; auto. Qed.

Lemma assoc_set_rel (k : value) (a a' : json) (m m' : list (value * json)) :
  map_rel m m' -> truthy (Some a) = truthy (Some a') ->
  map_rel (assoc_set same_value_zero k a m) (assoc_set same_value_zero k a' m').
Proof.
  intros HR Ht. induction HR as [|[k0 x] [k1 y] m m' [Hk Hv] HR IH];
    cbn [assoc_set].
  - repeat constructor; trivial.
  - simpl in Hk. subst k1.
    destruct (same_value_zero k k0); constructor; auto.
Qed.

Lemma assoc_get_rel (k : value) (m m' : list (value * json)) :
  map_rel m m' ->
  truthy (assoc_get same_value_zero k m) = truthy (assoc_get same_value_zero k m').
Proof.
  intros HR. induction HR as [|[k0 x] [k1 y] m m' [Hk Hv] HR IH];
    cbn [assoc_get]; trivial.
  simpl in Hk, Hv. subst k1.
  destruct (same_value_zero k k0); trivial.
Qed.

Lemma plugin_similar_refl (q : json) : plugin_similar q q.
Proof. repeat split. Qed.

Lemma checkPlugin_sim (q q' : json) (st st' s1 : plugin_state) (e : list string) :
  plugin_similar q q' ->
  fst st = fst st' -> map_rel (snd st) (snd st') ->
  checkPlugin st q = Done (s1, e) ->
  exists s1', checkPlugin st' q' = Done (s1', e)
              /\ fst s1 = fst s1' /\ map_rel (snd s1) (snd s1').
Proof.
  intros (Ho & Hid & Hf) Hids HR. unfold checkPlugin.
  rewrite <- Ho, <- Hf, <- Hid, <- Hids.
  destruct (typeof_object q) eqn:Eo.
  - rewrite (typeof_object_truthy _ Eo).
    assert (Eo' : typeof_object q' = true) by congruence.
    rewrite (typeof_object_truthy _ Eo'). cbn [negb orb].
    intros H. apply bind_Done_inv in H.
    destruct H as (ids' & e1 & e2 & H1 & H2 & ->).
    rewrite H1. cbn [bind ret]. unfold ret in H2. inversion H2; subst.
    eexists. split; [reflexivity|]. split; trivial.
    cbn [snd]. apply assoc_set_rel; trivial.
    now rewrite (typeof_object_truthy _ Eo), (typeof_object_truthy _ Eo').
  - rewrite !orb_true_r. intros H. inversion H; subst.
    exists st'. auto.
Qed.

Lemma for_of_checkPlugin_sim (l l' : list json) :
  Forall2 plugin_similar l l' ->
  forall st st' s1 e,
    fst st = fst st' -> map_rel (snd st) (snd st') ->
    for_of checkPlugin l st = Done (s1, e) ->
    exists s1', for_of checkPlugin l' st' = Done (s1', e)
                /\ fst s1 = fst s1' /\ map_rel (snd s1) (snd s1').
Proof.
  induction 1 as [|q q' l l' Hq Hl IH]; intros st st' s1 e Hf HR H.
  - inversion H; subst. exists st'. auto.
  - rewrite for_of_cons in H. apply bind_Done_inv in H.
    destruct H as (s2 & e1 & e2 & H1 & H2 & ->).
    destruct (checkPlugin_sim _ _ _ _ _ _ Hq Hf HR H1) as (s2' & H1' & Hf2 & HR2).
    destruct (IH _ _ _ _ Hf2 HR2 H2) as (s1' & H2' & Hf1 & HR1).
    exists s1'. split; auto.
    rewrite for_of_cons. eapply bind_Done; eauto.
Qed.

Lemma checkRemoved_rel (m m' : list (value * json)) (bmap : list (string * json)) :
  map_rel m m' ->
  for_of (checkRemoved m') bmap tt = for_of (checkRemoved m) bmap tt.
Proof.
  intros HR. apply for_of_ext. intros [] [id bp] _.
  unfold checkRemoved. now rewrite (assoc_get_rel _ _ _ HR).
Qed.

Lemma update_nth_length {A} (f : A -> A) (l : list A) :
  forall n, List.length (update_nth n f l) = List.length l.
Proof. induction l; intros [|n]; simpl; auto. Qed.

Lemma update_nth_split {A} (f : A -> A) (l : list A) :
  forall n x,
    nth_error l n = Some x ->
    exists l1 l2, l = (l1 ++ x :: l2)%list
                  /\ update_nth n f l = (l1 ++ f x :: l2)%list.
Proof.
  induction l as [|y l IH]; intros [|n] x H; simpl in *; try discriminate.
  - inversion H; subst. exists [], l. auto.
  - destruct (IH _ _ H) as (l1 & l2 & -> & E).
    exists (y :: l1), l2. simpl. now rewrite E.
Qed.

Lemma Forall2_refl {A} (R : A -> A -> Prop) (l : list A) :
  (forall x, R x x) -> Forall2 R l l.
Proof. intros H. induction l; constructor; auto. Qed.

Lemma plugin_similar_update (f : json -> json) (p : json) :
  (forall a, match f a, a with
             | JArr l', JArr l => List.length l' = List.length l
             | JArr _, _ | _, JArr _ => False
             | _, _ => True
             end) ->
  plugin_similar p (update_prop "versions" f p).
Proof.
  intros Hf. split; [now rewrite typeof_object_update_prop|].
  split; [now rewrite prop_update_prop_other by discriminate|].
  intros ids.
  unfold checkPluginFields, checkPluginId, checkReadme, push_plugin.
  rewrite !prop_update_prop_other by discriminate.
  rewrite prop_update_prop_same.
  destruct (prop p "versions") as [a|]; cbn [option_map]; trivial.
  specialize (Hf a).
  destruct (f a), a; try contradiction; try reflexivity.
  now rewrite Hf.
Qed.

(** ** The tampered version *)

Lemma json_wf_obj (props : list (string * json)) :
  json_wf (JObj props) = true ->
  NoDup (keys props) /\
  forall k x, assoc_get String.eqb k props = Some x -> json_wf x = true.
Proof.
  simpl. rewrite andb_true_iff, nodupb_NoDup, forallb_forall.
  intros [ND Hf]. split; trivial.
  intros k x Hg. apply assoc_get_Some_In in Hg. exact (Hf _ Hg).
Qed.

Lemma json_wf_arr (items : list json) (x : json) :
  json_wf (JArr items) = true -> In x items -> json_wf x = true.
Proof. simpl. rewrite forallb_forall. auto. Qed.

Lemma opt_prop_update_other (key k : string) (f : json -> json) (v : json) :
  k <> key ->
  opt_prop (Some (update_prop key f v)) k = opt_prop (Some v) k.
Proof.
  intros N. destruct v; trivial.
  exact (prop_update_prop_other key k f (JObj props) N).
Qed.

Lemma versionLabel_of_set_sha256 (p v : json) (s' : string) :
  versionLabel_of p (set_sha256 s' v) = versionLabel_of p v.
Proof.
  unfold versionLabel_of, set_sha256.
  now rewrite opt_prop_update_other by discriminate.
Qed.

Lemma checkVersionName_set_sha256 (p : json) lbl seen (v : json) (s' : string) :
  checkVersionName p lbl seen (set_sha256 s' v) = checkVersionName p lbl seen v.
Proof.
  unfold checkVersionName, set_sha256.
  now rewrite prop_update_prop_other by discriminate.
Qed.

Lemma checkEntry_set_sha256 lbl (v : json) (s' : string) :
  checkEntry lbl (set_sha256 s' v) = checkEntry lbl v.
Proof.
  unfold checkEntry, set_sha256.
  now rewrite prop_update_prop_other by discriminate.
Qed.

Lemma checkPermissions_set_sha256 lbl (v : json) (s' : string) :
  checkPermissions lbl (set_sha256 s' v) = checkPermissions lbl v.
Proof.
  unfold checkPermissions, set_sha256.
  now rewrite prop_update_prop_other by discriminate.
Qed.

Lemma sha256_inv (v : json) (s : string) :
  opt_prop (prop v "dist") "sha256" = Some (JStr s) ->
  exists vprops dprops,
    v = JObj vprops /\
    assoc_get String.eqb "dist" vprops = Some (JObj dprops) /\
    assoc_get String.eqb "sha256" dprops = Some (JStr s).
Proof.
  intros H. destruct (prop v "dist") as [d|] eqn:Hd; [|discriminate].
  destruct v; try discriminate. destruct d; try discriminate.
  simpl in *. eauto.
Qed.

Lemma dist_of_set_sha256 (vprops dprops : list (string * json)) (s' : string) :
  assoc_get String.eqb "dist" vprops = Some (JObj dprops) ->
  prop (set_sha256 s' (JObj vprops)) "dist"
  = Some (update_prop "sha256" (fun _ => JStr s') (JObj dprops)).
Proof.
  intros H. unfold set_sha256. rewrite prop_update_prop_same.
  simpl prop. now rewrite H.
Qed.

Lemma ToString_or_else_str (s : string) :
  ToString (or_else (Some (JStr s)) EmptyString) = Some s.
Proof.
  unfold or_else. simpl. destruct (String.eqb_spec s EmptyString) as [->|N]; reflexivity.
Qed.

Lemma prop_obj (props : list (string * json)) (k : string) :
  prop (JObj props) k = assoc_get String.eqb k props.
Proof. reflexivity. Qed.

Lemma dist_malformed_set_sha256 (vprops dprops : list (string * json)) (s s' : string) :
  assoc_get String.eqb "dist" vprops = Some (JObj dprops) ->
  assoc_get String.eqb "sha256" dprops = Some (JStr s) ->
  dist_malformed (JObj vprops) = Done (false, []) ->
  dist_malformed (set_sha256 s' (JObj vprops))
  = Done (negb (isValidSha256 (toLowerCase s')), []).
Proof.
  intros Hd Hs Hm.
  apply dist_malformed_false_inv in Hm.
  destruct Hm as (_ & _ & Hty & Hurl & _).
  rewrite prop_obj, Hd in Hty, Hurl.
  apply dist_malformed_eq; rewrite (dist_of_set_sha256 _ _ _ Hd).
  - reflexivity.
  - now rewrite opt_prop_update_other by discriminate.
  - now rewrite opt_prop_update_other by discriminate.
  - cbn [opt_prop update_prop].
    change (JObj (map (fun '(k, v) => (k, if k =? "sha256" then JStr s' else v)) dprops))
      with (update_prop "sha256" (fun _ => JStr s') (JObj dprops)).
    rewrite prop_update_prop_same, prop_obj, Hs. cbn [option_map].
    apply ToString_or_else_str.
Qed.

Lemma checkDistUrl_set_sha256 lbl (vprops dprops : list (string * json)) (s' : string) :
  assoc_get String.eqb "dist" vprops = Some (JObj dprops) ->
  checkDistUrl lbl (set_sha256 s' (JObj vprops)) = checkDistUrl lbl (JObj vprops).
Proof.
  intros Hd. unfold checkDistUrl.
  rewrite (dist_of_set_sha256 _ _ _ Hd), prop_obj, Hd.
  now rewrite opt_prop_update_other by discriminate.
Qed.

Lemma checkDist_clean_inv lbl (v : json) :
  checkDist lbl v = Done (tt, []) ->
  dist_malformed v = Done (false, []) /\ checkDistUrl lbl v = Done (tt, []).
Proof.
  unfold checkDist. intros H. apply bind_clean_inv in H.
  destruct H as ([|] & H1 & H2); [discriminate | auto].
Qed.

Lemma stableStringify_set_sha256 (v : json) (pre post : string) (c c' : ascii) :
  json_wf v = true ->
  opt_prop (prop v "dist") "sha256" = Some (JStr (pre ++ String c post)) ->
  c <> c' ->
  stableStringify v <> stableStringify (set_sha256 (pre ++ String c' post) v).
Proof using. platform_free.
  intros Hwf Hsha Hc.
  apply sha256_inv in Hsha. destruct Hsha as (vprops & dprops & -> & Hd & Hs).
  destruct (json_wf_obj _ Hwf) as (NDv & Hsub).
  destruct (json_wf_obj _ (Hsub _ _ Hd)) as (NDd & _).
  unfold set_sha256.
  apply (stableStringify_update_neq vprops "dist" _ (JObj dprops));
    trivial; [discriminate|].
  apply (stableStringify_update_neq dprops "sha256" _ (JStr (pre ++ String c post)));
    trivial; [discriminate|].
  unfold stableStringify. cbn [stableObject stringify].
  now apply quote_one_changed.
Qed.

Lemma app5_nil {A} (e1 e2 e3 e4 e5 : list A) :
  [] = (e1 ++ e2 ++ e3 ++ e4 ++ e5)%list ->
  e1 = [] /\ e2 = [] /\ e3 = [] /\ e4 = [] /\ e5 = [].
Proof.
  destruct e1, e2, e3, e4, e5; simpl; try discriminate. auto.
Qed.

Lemma compareOrQueue_found (bvs : list (string * json)) lbl (v bv : json) :
  map_get bvs (prop v "version") = Some bv -> truthy (Some bv) = true ->
  compareOrQueue bvs lbl v
  = Done ([], if stableStringify bv =? stableStringify v then []
              else [msg_modifies lbl]).
Proof.
  intros H1 H2. unfold compareOrQueue. rewrite H1, H2. unfold when.
  now destruct (stableStringify bv =? stableStringify v).
Qed.

Lemma tampered_version_step (p : json) bvs st (v : json) st2 (bv : json)
  (pre post : string) (c c' : ascii) :
  walkVersion p bvs st v = Done (st2, []) ->
  json_wf v = true ->
  opt_prop (prop v "dist") "sha256" = Some (JStr (pre ++ String c post)) ->
  c <> c' ->
  map_get bvs (prop v "version") = Some bv -> truthy (Some bv) = true ->
  exists lbl,
    versionLabel_of p v = Done (lbl, []) /\
    walkVersion p bvs st (set_sha256 (pre ++ String c' post) v)
    = Done (st2, tamper_errors lbl (pre ++ String c' post)).
Proof.
  intros Hw Hwf Hsha Hc Hbv Htr.
  pose proof (stableStringify_set_sha256 _ _ _ _ _ Hwf Hsha Hc) as Hneq.
  destruct (sha256_inv _ _ Hsha) as (vprops & dprops & -> & Hd & Hs).
  apply walkVersion_Done_inv in Hw; [|reflexivity].
  destruct Hw as (lbl & seen' & e1 & e2 & e3 & e4 & q & e5
                  & H0 & H1 & H2 & H3 & H4 & H5 & -> & E).
  apply app5_nil in E. destruct E as (-> & -> & -> & -> & ->).
  exists lbl. split; trivial.
  rewrite (compareOrQueue_found _ _ _ _ Hbv Htr) in H5.
  destruct (stableStringify bv =? stableStringify (JObj vprops)) eqn:Ecmp;
    [|discriminate].
  apply String.eqb_eq in Ecmp.
  assert (q = []) by congruence. subst q.
  apply checkDist_clean_inv in H3. destruct H3 as (Hm & Hu).
  set (s' := pre ++ String c' post) in *.
  assert (H3' : checkDist lbl (set_sha256 s' (JObj vprops))
                = Done (tt, if isValidSha256 (toLowerCase s') then []
                            else [msg_dist lbl])).
  { unfold checkDist.
    rewrite (dist_malformed_set_sha256 _ _ _ s' Hd Hs Hm). cbn [bind].
    destruct (isValidSha256 (toLowerCase s')); cbn [negb].
    - rewrite (checkDistUrl_set_sha256 _ _ _ _ Hd), Hu. reflexivity.
    - reflexivity. }
  assert (H5' : compareOrQueue bvs lbl (set_sha256 s' (JObj vprops))
                = Done ([], [msg_modifies lbl])).
  { rewrite (compareOrQueue_found _ _ _ bv).
    - destruct (String.eqb_spec (stableStringify bv)
                  (stableStringify (set_sha256 s' (JObj vprops)))) as [E|_];
        [|reflexivity].
      exfalso. apply Hneq. congruence.
    - unfold set_sha256. now rewrite prop_update_prop_other by discriminate.
    - exact Htr. }
  erewrite walkVersion_eq;
    [ | reflexivity
      | rewrite versionLabel_of_set_sha256; exact H0
      | rewrite checkVersionName_set_sha256; exact H1
      | rewrite checkEntry_set_sha256; exact H2
      | exact H3'
      | rewrite checkPermissions_set_sha256; exact H4
      | exact H5' ].
  unfold tamper_errors. cbn [app]. now rewrite app_nil_r.
Qed.

Lemma checkVersionName_clean (p : json) lbl seen (v : json) seen' :
  checkVersionName p lbl seen v = Done (seen', []) ->
  exists ver, prop v "version" = Some (JStr ver)
              /\ isNonEmptyString (Some (JStr ver)) = true.
Proof.
  unfold checkVersionName.
  destruct (prop v "version") as [[| | |ver| |]|];
    try (intros H; now apply push_bind_not_clean in H).
  destruct (isNonEmptyString (Some (JStr ver))) eqn:E; cbn [negb].
  - eauto.
  - intros H. now apply push_bind_not_clean in H.
Qed.

Lemma walkVersion_plugin_ext (p p' : json) bvs st (v : json) :
  prop p' "id" = prop p "id" ->
  walkVersion p' bvs st v = walkVersion p bvs st v.
Proof.
  intros H. unfold walkVersion, versionLabel_of, checkVersionName.
  now rewrite H.
Qed.

Lemma walkVersion_clean_object (p : json) bvs st (v : json) st' :
  walkVersion p bvs st v = Done (st', []) -> typeof_object v = true.
Proof.
  unfold walkVersion. intros H.
  apply bind_clean_inv in H. destruct H as (lbl & _ & H).
  destruct (typeof_object v); trivial.
  rewrite orb_true_r in H. now apply push_bind_not_clean in H.
Qed.

(** ** The tampered plugin *)

Lemma baseVersions_of_plugin (p : json) (vs : list json) :
  prop p "versions" = Some (JArr vs) ->
  baseVersions_of (Some p) = fold_left (record_step "version") vs [].
Proof.
  intros H. destruct p; try discriminate.
  unfold baseVersions_of. cbn [truthy opt_prop]. rewrite H.
  apply fold_left_ext_eq, baseVersions_step_eq.
Qed.

Lemma tampered_plugin_step (bmap : list (string * json)) ds (p : json) ds'
  (vs : list json) (j : nat) (v : json) (pre post : string) (c c' : ascii) :
  walkPlugin bmap ds p = Done (ds', []) ->
  map_get bmap (prop p "id") = Some p ->
  prop p "versions" = Some (JArr vs) ->
  nth_error vs j = Some v ->
  json_wf v = true ->
  opt_prop (prop v "dist") "sha256" = Some (JStr (pre ++ String c post)) ->
  c <> c' ->
  exists lbl,
    versionLabel_of p v = Done (lbl, []) /\
    walkPlugin bmap ds
      (update_prop "versions"
         (update_item j (set_sha256 (pre ++ String c' post))) p)
    = Done (ds', tamper_errors lbl (pre ++ String c' post)).
Proof.
  intros Hw Hp Hvs Hj Hwf Hsha Hc.
  set (s' := pre ++ String c' post).
  set (p' := update_prop "versions" (update_item j (set_sha256 s')) p).
  assert (Hid : prop p' "id" = prop p "id")
    by (unfold p'; now rewrite prop_update_prop_other by discriminate).
  destruct (update_nth_split (set_sha256 s') _ _ _ Hj) as (k1 & k2 & Evs & Evs').
  assert (Hvs' : prop p' "versions" = Some (JArr (k1 ++ set_sha256 s' v :: k2))).
  { unfold p'. rewrite prop_update_prop_same, Hvs. cbn [option_map update_item].
    now rewrite Evs'. }
  rewrite (walkPlugin_versions _ _ _ _ Hvs) in Hw.
  rewrite (walkPlugin_versions _ _ _ _ Hvs'), Hid.
  rewrite Hp in *.
  set (bvs := baseVersions_of (Some p)) in *.
  apply bind_clean_inv in Hw. destruct Hw as (stf & Hl & Hr).
  rewrite Evs, for_of_app in Hl.
  apply bind_clean_inv in Hl. destruct Hl as (s1 & Hl1 & Hl).
  rewrite for_of_cons in Hl.
  apply bind_clean_inv in Hl. destruct Hl as (s2 & Hv & Hl2).
  (* the version is found in the base plugin *)
  assert (Hfound : exists bv, map_get bvs (prop v "version") = Some bv
                              /\ truthy (Some bv) = true).
  { pose proof (walkVersion_clean_object _ _ _ _ _ Hv) as Hobj.
    destruct (walkVersion_Done_inv _ _ _ _ _ _ Hv Hobj)
      as (lbl & seen' & e1 & e2 & e3 & e4 & q & e5 & _ & H1 & _ & _ & _ & _ & _ & E).
    apply app5_nil in E. destruct E as (-> & _).
    apply checkVersionName_clean in H1. destruct H1 as (ver & Hver & Hne).
    rewrite Hver. cbn [map_get]. unfold bvs.
    rewrite (baseVersions_of_plugin _ _ Hvs).
    assert (Hin : In v vs) by (rewrite Evs; apply in_or_app; right; now left).
    pose proof (record_fold_has "version" vs v ver Hin
                  (entry_key_of_prop _ _ _ Hver Hne) []) as Hsome.
    destruct (assoc_get String.eqb ver (fold_left (record_step "version") vs []))
      as [bv|] eqn:Ebv; [|congruence].
    exists bv. split; trivial.
    destruct (record_fold_truthy _ _ _ _ _ Ebv) as [H|H]; [discriminate | exact H]. }
  destruct Hfound as (bv & Hbv & Htr).
  destruct (tampered_version_step _ _ _ _ _ _ _ _ _ c' Hv Hwf Hsha Hc Hbv Htr)
    as (lbl & Hlbl & Hv').
  exists lbl. split; trivial.
  rewrite (for_of_ext _ (walkVersion p bvs))
    by (intros; now apply walkVersion_plugin_ext).
  rewrite for_of_app.
  change (pre ++ String c' post) with s' in Hv'.
  rewrite Hl1. cbn [bind]. rewrite for_of_cons, Hv'. cbn [bind].
  rewrite Hl2. cbn [bind]. rewrite Hr. cbn [bind].
  now rewrite !app_nil_r.
Qed.

(** ** The tampered document *)

Lemma app6_nil {A} (e1 e2 e3 e4 e5 e6 : list A) :
  [] = (e1 ++ e2 ++ e3 ++ e4 ++ e5 ++ e6)%list ->
  e1 = [] /\ e2 = [] /\ e3 = [] /\ e4 = [] /\ e5 = [] /\ e6 = [].
Proof.
  destruct e1, e2, e3, e4, e5, e6; simpl; try discriminate. repeat split.
Qed.

Lemma version_at_inv (index : json) (i j : nat) (p v : json) :
  version_at index i j = Some (p, v) ->
  exists ps vs,
    prop index "plugins" = Some (JArr ps) /\ plugins_of index = ps /\
    nth_error ps i = Some p /\
    prop p "versions" = Some (JArr vs) /\ nth_error vs j = Some v.
Proof.
  unfold version_at, plugins_of.
  destruct (prop index "plugins") as [[| | | |ps|]|] eqn:E;
    try (destruct i; discriminate).
  destruct (nth_error ps i) as [p0|] eqn:Ei; [|discriminate].
  destruct (prop p0 "versions") as [[| | | |vs|]|] eqn:Ev; try discriminate.
  destruct (nth_error vs j) as [v0|] eqn:Ej; [|discriminate].
  intros H. inversion H; subst. exists ps, vs. auto.
Qed.

Lemma json_wf_prop (o : json) (k : string) (x : json) :
  json_wf o = true -> prop o k = Some x -> json_wf x = true.
Proof.
  intros Hwf H. destruct o; try discriminate.
  exact (proj2 (json_wf_obj _ Hwf) _ _ H).
Qed.

Lemma plugins_of_tamper (i j : nat) (s' : string) (index : json) (ps : list json) :
  prop index "plugins" = Some (JArr ps) ->
  plugins_of (tamper_sha256 i j s' index)
  = update_nth i (update_prop "versions" (update_item j (set_sha256 s'))) ps.
Proof.
  intros H. unfold tamper_sha256.
  rewrite (plugins_of_update _
             (update_nth i (update_prop "versions" (update_item j (set_sha256 s'))))).
  - now rewrite H.
  - intros a. now destruct a.
Qed.

Lemma update_item_array_shape (n : nat) (f : json -> json) (a : json) :
  match update_item n f a with JArr _ => true | _ => false end
  = match a with JArr _ => true | _ => false end.
Proof. now destruct a. Qed.

Lemma tampered_run (baseIndex : json) (i j : nat) (p v : json)
  (pre post : string) (c c' : ascii) (n : nat) :
  run baseIndex baseIndex = Done (n, []) ->
  json_wf baseIndex = true ->
  version_at baseIndex i j = Some (p, v) ->
  opt_prop (prop v "dist") "sha256" = Some (JStr (pre ++ String c post)) ->
  c <> c' ->
  exists lbl,
    versionLabel_of p v = Done (lbl, []) /\
    run baseIndex (tamper_sha256 i j (pre ++ String c' post) baseIndex)
    = Done (n, tamper_errors lbl (pre ++ String c' post)).
Proof.
  intros Hrun Hwf Hat Hsha Hc.
  set (s' := pre ++ String c' post).
  set (F := update_prop "versions" (update_item j (set_sha256 s'))).
  apply run_Done_inv in Hrun. destruct Hrun as (ds & e1 & e2 & Hc0 & Hd & E).
  symmetry in E. pose proof (app_eq_nil_l _ _ E). pose proof (app_eq_nil_r _ _ E).
  subst e1 e2. clear E.
  apply collect_Done_inv in Hc0.
  destruct Hc0 as (Hnb & _ & st & e4 & e5 & e6 & H4 & H5 & H6 & E).
  apply app6_nil in E. destruct E as (Esb & Esp & Ene & -> & -> & ->).
  apply version_at_inv in Hat.
  destruct Hat as (ps & vs & Hps & Hpo & Hi & Hvs & Hj).
  rewrite Hpo in *.
  assert (Hwfv : json_wf v = true).
  { pose proof (json_wf_prop _ _ _ Hwf Hps) as W1.
    pose proof (json_wf_arr _ _ W1 (nth_error_In _ _ Hi)) as W2.
    pose proof (json_wf_prop _ _ _ W2 Hvs) as W3.
    exact (json_wf_arr _ _ W3 (nth_error_In _ _ Hj)). }
  destruct (update_nth_split F _ _ _ Hi) as (l1 & l2 & Eps & Eps').
  (* the plugin is found under its own id *)
  assert (Hlook : map_get (basePluginMap_of ps) (prop p "id") = Some p).
  { pose proof H4 as H4c. rewrite Eps in H4c.
    destruct (clean_plugins_lookup _ _ _ _ H4c) as (_ & id & _ & Hlook).
    now rewrite Eps. }
  set (bmap := basePluginMap_of ps) in *.
  (* the walk *)
  pose proof H6 as H6'.
  rewrite Eps, for_of_app in H6'.
  apply bind_clean_inv in H6'. destruct H6' as (d1 & Hw1 & H6').
  rewrite for_of_cons in H6'.
  apply bind_clean_inv in H6'. destruct H6' as (d2 & Hwp & Hw2).
  destruct (tampered_plugin_step _ _ _ _ _ _ _ _ _ _ c' Hwp Hlook Hvs Hj Hwfv Hsha Hc)
    as (lbl & Hlbl & Hwp').
  fold s' in Hwp'. fold F in Hwp'.
  exists lbl. split; trivial.
  (* the plugin entries *)
  assert (Hsim : Forall2 plugin_similar ps (update_nth i F ps)).
  { rewrite Eps', Eps. apply Forall2_app.
    - apply Forall2_refl, plugin_similar_refl.
    - constructor.
      + apply plugin_similar_update. intros a. destruct a; simpl; trivial.
        apply update_nth_length.
      + apply Forall2_refl, plugin_similar_refl. }
  destruct (for_of_checkPlugin_sim _ _ Hsim _ ([], []) _ _ eq_refl
              (map_rel_refl _) H4) as (st' & H4' & _ & HR).
  pose proof (checkRemoved_rel _ _ bmap HR) as H5'.
  rewrite H5 in H5'.
  assert (H6n : for_of (walkPlugin bmap) (update_nth i F ps) []
                = Done (ds, tamper_errors lbl s')).
  { rewrite Eps', for_of_app, Hw1. cbn [bind].
    rewrite for_of_cons, Hwp'. cbn [bind].
    rewrite Hw2. cbn [bind]. now rewrite app_nil_r. }
  assert (Hnp : tamper_sha256 i j s' baseIndex <> JNull).
  { unfold tamper_sha256. intros Hn. apply update_prop_null in Hn. contradiction. }
  pose proof (collect_eq baseIndex (tamper_sha256 i j s' baseIndex)
                st' [] [] ds (tamper_errors lbl s') Hnb Hnp) as Hcol.
  rewrite Hpo, (plugins_of_tamper _ _ _ _ _ Hps) in Hcol.
  specialize (Hcol H4' H5' H6n).
  unfold tamper_sha256 in Hcol at 2 3.
  rewrite shape_errors_update_plugins in Hcol by (apply update_item_array_shape).
  rewrite name_errors_update_plugins_r, Esb, Esp, Ene in Hcol.
  unfold run. rewrite Hcol. cbn [bind app]. rewrite Hd. now rewrite app_nil_r.
Qed.

(** * Runs that end with a result *)
























(** * Further lemmas *)

(** ** White space and the helper predicates *)

Lemma trimStart_white (s : string) :
  string_forallb is_white_space s = true -> trimStart s = EmptyString.
Proof.
  induction s as [|c s IH]; simpl; trivial.
  rewrite andb_true_iff. intros [H1 H2]. now rewrite H1, IH.
Qed.

Lemma trimStart_visible (s : string) :
  string_forallb is_white_space s = false ->
  exists c r, trimStart s = String c r /\ is_white_space c = false.
Proof.
  induction s as [|c s IH]; simpl; [discriminate|].
  destruct (is_white_space c) eqn:E; simpl; eauto.
Qed.

Lemma trimEnd_visible (c : ascii) (r : string) :
  is_white_space c = false -> trimEnd (String c r) <> EmptyString.
Proof.
  intros H. simpl. rewrite H. now destruct (trimEnd r).
Qed.

Lemma trim_empty_iff (s : string) :
  trim s = EmptyString <-> string_forallb is_white_space s = true.
Proof.
  unfold trim. split.
  - intros H. destruct (string_forallb is_white_space s) eqn:E; trivial.
    destruct (trimStart_visible s E) as (c & r & Hs & Hc).
    rewrite Hs in H. now apply trimEnd_visible in H.
  - intros H. now rewrite (trimStart_white s H).
Qed.

Lemma isNonEmptyString_str (s : string) :
  isNonEmptyString (Some (JStr s)) = negb (string_forallb is_white_space s).
Proof.
  cbn [isNonEmptyString].
  destruct (string_forallb is_white_space s) eqn:E.
  - apply trim_empty_iff in E. now rewrite E.
  - destruct (trim s) eqn:T; trivial.
    apply trim_empty_iff in T. congruence.
Qed.

Lemma isNonEmptyString_visible (v : value) :
  isNonEmptyString v = true <->
  exists s, v = Some (JStr s) /\ string_forallb is_white_space s = false.
Proof using. platform_free.
  split.
  - intros H. destruct v as [[| | |s| |]|]; try discriminate H.
    exists s. split; trivial.
    rewrite isNonEmptyString_str in H. now apply negb_true_iff in H.
  - intros (s & -> & H). rewrite isNonEmptyString_str. now rewrite H.
Qed.

Lemma id_char_visible (c : ascii) : id_char c = true -> is_white_space c = false.
Proof.
  destruct c as [[] [] [] [] [] [] [] []]; vm_compute; trivial; discriminate.
Qed.

Lemma isValidId_nonempty (id : string) :
  isValidId id = true -> isNonEmptyString (Some (JStr id)) = true.
Proof.
  unfold isValidId. rewrite !andb_true_iff. intros [[H1 _] H3].
  rewrite isNonEmptyString_str.
  destruct id as [|c r]; [discriminate|].
  cbn [string_forallb] in *. apply andb_true_iff in H3. destruct H3 as [Hc _].
  now rewrite (id_char_visible c Hc).
Qed.

Lemma prefix_iff (p s : string) :
  String.prefix p s = true <-> exists r, s = p ++ r.
Proof.
  revert s. induction p as [|c p IH]; intros s.
  - simpl. split; eauto. now destruct s.
  - destruct s as [|d s]; simpl.
    + split; [discriminate|]. intros (r & H). discriminate.
    + destruct (Ascii.ascii_dec c d) as [->|N].
      * rewrite IH. split; intros (r & H); exists r; congruence.
      * split; [discriminate|]. intros (r & H). congruence.
Qed.

Lemma lower_hex_inv (c : ascii) : hex_char (lower_char c) = true -> hex_any c = true.
Proof.
  destruct c as [[] [] [] [] [] [] [] []]; vm_compute; trivial.
Qed.

Lemma toLowerCase_hex_inv (s : string) :
  string_forallb hex_char (toLowerCase s) = true -> string_forallb hex_any s = true.
Proof.
  induction s as [|c s IH]; simpl; trivial.
  rewrite !andb_true_iff. intros [H1 H2]. split; auto using lower_hex_inv.
Qed.

Lemma isValidSha256_lower_iff (s : string) :
  isValidSha256 (toLowerCase s) = true
  <-> String.length s = 64%nat /\ string_forallb hex_any s = true.
Proof.
  split.
  - unfold isValidSha256. rewrite andb_true_iff, toLowerCase_length, Nat.eqb_eq.
    intros [H1 H2]. split; trivial. now apply toLowerCase_hex_inv.
  - intros [H1 H2]. now apply mixed_case_sha256_valid.
Qed.

(** ** Sorted keys *)

Lemma insert_key_sorted (x : string) (l : list string) :
  StronglySorted key_le l -> StronglySorted key_le (insert_key x l).
Proof using. platform_free.
  induction 1 as [|a l Hl IH Ha]; simpl.
  - repeat constructor.
  - destruct (x <=? a) eqn:E.
    + constructor; [now constructor|].
      constructor; trivial.
      eapply Forall_impl; [|exact Ha]. intros b Hb. exact (leb_trans _ _ _ E Hb).
    + constructor; trivial.
      apply (Permutation_Forall (Permutation_sym (insert_key_perm x l))).
      constructor; trivial. now apply leb_false_flip.
Qed.

Lemma sort_sorted (l : list string) : StronglySorted key_le (sort l).
Proof using. platform_free.
  induction l; simpl; [constructor|]. now apply insert_key_sorted.
Qed.

Lemma sort_of_sorted (l : list string) : StronglySorted key_le l -> sort l = l.
Proof using. platform_free.
  induction 1 as [|a l Hl IH Ha]; simpl; trivial.
  rewrite IH. destruct l as [|b l]; trivial.
  simpl. inversion Ha; subst. unfold key_le in *. now rewrite H1.
Qed.

Lemma filter_sorted (p : string -> bool) (l : list string) :
  StronglySorted key_le l -> StronglySorted key_le (filter p l).
Proof using. platform_free.
  induction 1 as [|a l Hl IH Ha]; simpl; [constructor|].
  destruct (p a); trivial. constructor; trivial.
  apply Forall_forall. intros b Hb. apply filter_In in Hb.
  rewrite Forall_forall in Ha. now apply Ha.
Qed.

Lemma sort_filter (p : string -> bool) (l : list string) :
  sort (filter p l) = filter p (sort l).
Proof using. platform_free.
  rewrite <- (sort_of_sorted (filter p (sort l)))
    by apply filter_sorted, sort_sorted.
  apply sort_permutation_eq.
  clear. induction l as [|a l IH]; simpl; trivial.
  assert (E : Permutation (filter p (insert_key a (sort l))) (filter p (a :: sort l))).
  { generalize (insert_key_perm a (sort l)).
    generalize (insert_key a (sort l)) (a :: sort l).
    induction 1; simpl; trivial.
    - destruct (p x); auto.
    - destruct (p x), (p y); auto. apply perm_swap.
    - etransitivity; eauto. }
  rewrite E. simpl. destruct (p a); auto.
Qed.

(** ** The canonical form of a canonical form *)

Lemma rebuild_incl stable (k : string) (y : json) :
  NoDup (keys stable) -> In (k, y) (rebuild stable) -> In (k, y) stable.
Proof using. platform_free.
  intros ND H. rewrite rebuild_eq in H; trivial.
  apply in_flat_map in H. destruct H as (k0 & _ & H).
  unfold rebuilt_entry in H.
  destruct (k0 =? "__proto__"); [destruct H|].
  destruct (assoc_get String.eqb k0 stable) as [v|] eqn:E; [|destruct H].
  destruct H as [H|[]]. inversion H; subst.
  now apply assoc_get_Some_In.
Qed.

Lemma keys_rebuilt stable (K : list string) :
  (forall k, In k K -> In k (keys stable)) ->
  keys (flat_map (rebuilt_entry stable) K) = filter not_proto K.
Proof using. platform_free.
  induction K as [|a K IH]; intros H; simpl; trivial.
  unfold keys in *. rewrite map_app, IH by (intros k Hk; apply H; now right).
  unfold rebuilt_entry, not_proto.
  destruct (a =? "__proto__"); simpl; trivial.
  destruct (assoc_get String.eqb a stable) as [v|] eqn:E; simpl; trivial.
  apply assoc_get_None in E. exfalso. apply E, H. now left.
Qed.

Lemma keys_rebuild stable :
  NoDup (keys stable) ->
  keys (rebuild stable) = filter not_proto (sort (Object_keys stable)).
Proof using. platform_free.
  intros ND. rewrite rebuild_eq; trivial. apply keys_rebuilt.
  intros k Hk. eapply Permutation_in; [|exact Hk].
  rewrite sort_perm. apply Object_keys_perm.
Qed.

Lemma assoc_get_rebuild stable (k : string) :
  NoDup (keys stable) -> k <> "__proto__" ->
  assoc_get String.eqb k (rebuild stable) = assoc_get String.eqb k stable.
Proof using. platform_free.
  intros ND Hk.
  destruct (assoc_get String.eqb k stable) as [v|] eqn:E.
  - apply assoc_get_In; [now apply NoDup_keys_rebuild|].
    now apply rebuild_In.
  - apply assoc_get_None. intros H.
    apply assoc_get_None in E. apply E.
    unfold keys in H. apply in_map_iff in H. destruct H as ([k0 y] & <- & H).
    apply rebuild_incl in H; trivial. apply (in_map fst _ _ H).
Qed.

Lemma rebuilt_filter (S S' : list (string * json)) (L : list string) :
  (forall k, k <> "__proto__" ->
             assoc_get String.eqb k S' = assoc_get String.eqb k S) ->
  flat_map (rebuilt_entry S') (filter not_proto L) = flat_map (rebuilt_entry S) L.
Proof using. platform_free.
  intros H. induction L as [|a L IH]; simpl; trivial.
  unfold not_proto at 1. unfold rebuilt_entry at 2.
  destruct (String.eqb_spec a "__proto__") as [->|N]; simpl; trivial.
  rewrite IH. f_equal. unfold rebuilt_entry.
  destruct (String.eqb_spec a "__proto__"); [contradiction|].
  now rewrite H.
Qed.

Lemma rebuild_idem stable :
  NoDup (keys stable) -> rebuild (rebuild stable) = rebuild stable.
Proof using. platform_free.
  intros ND.
  rewrite (rebuild_eq (rebuild stable)) by now apply NoDup_keys_rebuild.
  rewrite (sort_permutation_eq _ _ (Object_keys_perm (rebuild stable))).
  rewrite keys_rebuild, sort_filter by trivial.
  rewrite (sort_of_sorted _ (sort_sorted _)).
  rewrite (rebuilt_filter stable); [symmetry; now apply rebuild_eq|].
  intros k Hk. now apply assoc_get_rebuild.
Qed.

Lemma map_fixed {A} (f : A -> A) (l : list A) :
  (forall x, In x l -> f x = x) -> map f l = l.
Proof.
  induction l as [|a l IH]; simpl; intros H; trivial.
  rewrite H, IH; auto.
Qed.

Lemma keys_stable (props : list (string * json)) (f : json -> json) :
  keys (map (fun '(k, v) => (k, f v)) props) = keys props.
Proof. exact (keys_map_values (fun _ => f) props). Qed.

Lemma In_stable (props : list (string * json)) (f : json -> json) (k : string) (y : json) :
  In (k, y) (map (fun '(k, v) => (k, f v)) props) ->
  exists x, In (k, x) props /\ y = f x.
Proof.
  intros H. apply in_map_iff in H. destruct H as ([k0 x] & E & H).
  inversion E; subst. eauto.
Qed.

Lemma json_wf_In (props : list (string * json)) (k : string) (x : json) :
  json_wf (JObj props) = true -> In (k, x) props -> json_wf x = true.
Proof.
  intros Hwf Hin. cbn [json_wf] in Hwf. apply andb_true_iff in Hwf.
  destruct Hwf as [_ H]. rewrite forallb_forall in H. exact (H _ Hin).
Qed.

Lemma stableObject_idem (v : json) :
  json_wf v = true -> stableObject (stableObject v) = stableObject v.
Proof using. platform_free.
  induction v as [| | | |items IH|props IH] using json_nested_ind; trivial; intros Hwf.
  - cbn [stableObject]. f_equal. rewrite map_map. apply map_ext_in.
    intros x Hx. rewrite Forall_forall in IH. apply IH; trivial.
    exact (json_wf_arr _ _ Hwf Hx).
  - destruct (json_wf_obj _ Hwf) as [ND _].
    rewrite stableObject_obj.
    set (stable := map (fun '(k, v) => (k, stableObject v)) props).
    assert (NDs : NoDup (keys stable)) by (unfold stable; now rewrite keys_stable).
    rewrite stableObject_obj. f_equal.
    rewrite map_fixed; [now apply rebuild_idem|].
    intros [k y] Hy. apply rebuild_incl in Hy; trivial.
    apply In_stable in Hy. destruct Hy as (x & Hx & ->).
    f_equal. rewrite Forall_forall in IH. apply (IH (k, x) Hx).
    exact (json_wf_In _ _ _ Hwf Hx).
Qed.

(** ** JSON.stringify can be read back *)

Lemma digits_span (a : string) :
  forall b r r',
    string_forallb is_digit a = true -> string_forallb is_digit b = true ->
    delim r = true -> delim r' = true ->
    a ++ r = b ++ r' -> a = b /\ r = r'.
Proof using. platform_free.
  induction a as [|c a IH]; intros [|d b] r r' Ha Hb Hr Hr' H;
    cbn [append string_forallb] in *.
  - auto.
  - subst r. cbn [delim] in Hr. apply andb_true_iff in Hb.
    destruct Hb as [Hd _]. rewrite Hd in Hr. discriminate.
  - subst r'. cbn [delim] in Hr'. apply andb_true_iff in Ha.
    destruct Ha as [Hc _]. rewrite Hc in Hr'. discriminate.
  - apply andb_true_iff in Ha, Hb. destruct Ha as [_ Ha], Hb as [_ Hb].
    injection H as -> H.
    destruct (IH b r r' Ha Hb Hr Hr' H) as [-> ->]. auto.
Qed.

Lemma uint_digits (d : Decimal.uint) :
  string_forallb is_digit (NilEmpty.string_of_uint d) = true.
Proof. induction d; cbn; trivial. Qed.

Lemma uint_string_inj (d d' : Decimal.uint) :
  NilEmpty.string_of_uint d = NilEmpty.string_of_uint d' -> d = d'.
Proof using. platform_free.
  intros H. pose proof (NilEmpty.usu d) as E. rewrite H, NilEmpty.usu in E.
  congruence.
Qed.

Lemma uint_string_nonempty (d : Decimal.uint) :
  d <> Decimal.Nil ->
  exists c s, NilEmpty.string_of_uint d = String c s /\ is_digit c = true.
Proof using. platform_free.
  intros N. pose proof (uint_digits d) as H.
  destruct d; try contradiction; cbn in *; eauto.
Qed.

Lemma number_to_string_pos (p : positive) :
  number_to_string (Z.pos p) = NilEmpty.string_of_uint (Pos.to_uint p).
Proof using. platform_free.
  unfold number_to_string. cbn [Z.to_int NilZero.string_of_int].
  unfold NilZero.string_of_uint.
  pose proof (Unsigned.to_uint_nonnil p) as N.
  destruct (Pos.to_uint p); trivial. contradiction.
Qed.

Lemma number_to_string_neg (p : positive) :
  number_to_string (Z.neg p) = String "-" (NilEmpty.string_of_uint (Pos.to_uint p)).
Proof using. platform_free.
  rewrite <- number_to_string_pos. reflexivity.
Qed.

Lemma number_inj (n n' : Z) (r r' : string) :
  delim r = true -> delim r' = true ->
  number_to_string n ++ r = number_to_string n' ++ r' -> n = n' /\ r = r'.
Proof using. platform_free.
  intros Hr Hr' H.
  destruct n as [|p|p], n' as [|p'|p'];
    rewrite ?number_to_string_pos, ?number_to_string_neg in H.
  - injection H as H. auto.
  - exfalso. change (number_to_string 0) with (NilEmpty.string_of_uint (Decimal.D0 Decimal.Nil)) in H.
    apply digits_span in H; trivial; try apply uint_digits.
    destruct H as [H _]. apply uint_string_inj in H.
    symmetry in H. now apply Unsigned.to_uint_nonzero in H.
  - discriminate.
  - exfalso. change (number_to_string 0) with (NilEmpty.string_of_uint (Decimal.D0 Decimal.Nil)) in H.
    apply digits_span in H; trivial; try apply uint_digits.
    destruct H as [H _]. apply uint_string_inj in H.
    now apply Unsigned.to_uint_nonzero in H.
  - apply digits_span in H; trivial; try apply uint_digits.
    destruct H as [H ->]. apply uint_string_inj, Unsigned.to_uint_inj in H.
    now subst.
  - exfalso.
    destruct (uint_string_nonempty _ (Unsigned.to_uint_nonnil p)) as (c & s & E & Hc).
    rewrite E in H. injection H as -> _. discriminate.
  - discriminate.
  - exfalso.
    destruct (uint_string_nonempty _ (Unsigned.to_uint_nonnil p')) as (c & s & E & Hc).
    rewrite E in H. injection H as <- _. discriminate.
  - injection H as H.
    apply digits_span in H; trivial; try apply uint_digits.
    destruct H as [H ->]. apply uint_string_inj, Unsigned.to_uint_inj in H.
    now subst.
Qed.

Lemma char_kind_digit (c : ascii) : is_digit c = true -> char_kind c = 2%N.
Proof.
  destruct c as [[] [] [] [] [] [] [] []]; vm_compute; trivial; discriminate.
Qed.

Lemma number_head (n : Z) :
  exists c s, number_to_string n = String c s /\ char_kind c = 2%N.
Proof using. platform_free.
  destruct n as [|p|p].
  - exists "0"%char, EmptyString. split; reflexivity.
  - rewrite number_to_string_pos.
    destruct (uint_string_nonempty _ (Unsigned.to_uint_nonnil p)) as (c & s & E & Hc).
    exists c, s. split; trivial. now apply char_kind_digit.
  - rewrite number_to_string_neg. eexists _, _. split; reflexivity.
Qed.

Lemma unquote_quote_char_app (c : ascii) (x : string) :
  unquote_char (quote_char c ++ x) = c.
Proof.
  destruct c as [[] [] [] [] [] [] [] []]; vm_compute; reflexivity.
Qed.

Lemma quote_char_app_inj (c c' : ascii) (x x' : string) :
  quote_char c ++ x = quote_char c' ++ x' -> c = c' /\ x = x'.
Proof using. platform_free.
  intros H.
  assert (E : c = c').
  { rewrite <- (unquote_quote_char_app c x), H. apply unquote_quote_char_app. }
  subst. split; trivial. exact (append_inv_head _ _ _ H).
Qed.

Lemma quote_char_head (c : ascii) (x : string) :
  exists h t, quote_char c ++ x = String h t /\ (code h =? 34)%N = false.
Proof.
  destruct c as [[] [] [] [] [] [] [] []]; vm_compute; eexists _, _; split; reflexivity.
Qed.

Lemma quote_body_inj (s : string) :
  forall s' r r',
    quote_body s ++ dq ++ r = quote_body s' ++ dq ++ r' -> s = s' /\ r = r'.
Proof using. platform_free.
  induction s as [|c s IH]; intros [|c' s'] r r' H; cbn [quote_body] in H.
  - injection H as H. auto.
  - exfalso. rewrite append_assoc in H.
    destruct (quote_char_head c' (quote_body s' ++ dq ++ r')) as (h & t & E & Hh).
    rewrite E in H. injection H as <- _. discriminate.
  - exfalso. rewrite append_assoc in H.
    destruct (quote_char_head c (quote_body s ++ dq ++ r)) as (h & t & E & Hh).
    rewrite E in H. injection H as -> _. discriminate.
  - rewrite !append_assoc in H. apply quote_char_app_inj in H.
    destruct H as [-> H]. destruct (IH _ _ _ H) as [-> ->]. auto.
Qed.

Lemma quote_inj (s s' r r' : string) :
  quote s ++ r = quote s' ++ r' -> s = s' /\ r = r'.
Proof using. platform_free.
  unfold quote. rewrite !append_assoc. intros H.
  apply append_inv_head in H. now apply quote_body_inj.
Qed.

Lemma stringify_head (v : json) :
  exists c s, stringify v = String c s /\ char_kind c = kind v.
Proof using. platform_free.
  destruct v as [|b|n|s|items|props].
  - eexists _, _. split; reflexivity.
  - destruct b; eexists _, _; split; reflexivity.
  - apply number_head.
  - eexists _, _. split; reflexivity.
  - eexists _, _. split; reflexivity.
  - eexists _, _. split; reflexivity.
Qed.

Lemma stringify_same_kind (v v' : json) (r r' : string) :
  stringify v ++ r = stringify v' ++ r' -> kind v = kind v'.
Proof using. platform_free.
  destruct (stringify_head v) as (c & s & E & K).
  destruct (stringify_head v') as (c' & s' & E' & K').
  rewrite E, E'. intros H. injection H as -> _. congruence.
Qed.

Lemma stringify_head_not (close : ascii) (v : json) :
  char_kind close = 6%N ->
  exists c s, stringify v = String c s /\ c <> close.
Proof using. platform_free.
  intros Hc. destruct (stringify_head v) as (c & s & E & K).
  exists c, s. split; trivial. intros ->. rewrite Hc in K. now destruct v.
Qed.

Section Sequences.
Context {A : Type}.
Variable text : A -> string.
Variable R : A -> A -> Prop.
Variable close : ascii.
Hypothesis close_not_comma : close <> ","%char.
Hypothesis close_not_digit : is_digit close = false.
Hypothesis text_head : forall x, exists c s, text x = String c s /\ c <> close.

Lemma concat_text_cons (x : A) (l : list A) (r : string) :
  String.concat "," (map text (x :: l)) ++ String close r
  = text x ++ match l with
              | [] => String close r
              | _ => "," ++ (String.concat "," (map text l) ++ String close r)
              end.
Proof using. platform_free.
  destruct l; cbn [map String.concat]; trivial.
  now rewrite !append_assoc.
Qed.

Lemma seq_inj (l : list A) :
  Forall (fun x => forall x' r r',
            delim r = true -> delim r' = true ->
            text x ++ r = text x' ++ r' -> R x x' /\ r = r') l ->
  forall l' r r',
    String.concat "," (map text l) ++ String close r
    = String.concat "," (map text l') ++ String close r' ->
    Forall2 R l l' /\ r = r'.
Proof using close_not_comma close_not_digit text_head. platform_free.
  induction 1 as [|x l Hx Hl IH]; intros [|x' l'] r r' H.
  - cbn in H. injection H as H. auto.
  - exfalso. rewrite concat_text_cons in H.
    destruct (text_head x') as (c & s & E & N). rewrite E in H.
    cbn in H. injection H as H _. congruence.
  - exfalso. rewrite concat_text_cons in H.
    destruct (text_head x) as (c & s & E & N). rewrite E in H.
    cbn in H. injection H as H _. congruence.
  - rewrite !concat_text_cons in H.
    apply Hx in H.
    + destruct H as [HR H].
      destruct l as [|y l], l' as [|y' l'].
      * injection H as H. auto.
      * exfalso. injection H as H _. contradiction.
      * exfalso. injection H as H _. congruence.
      * apply (append_inv_head ",") in H. apply IH in H.
        destruct H as [HF ->]. auto.
    + destruct l; cbn; trivial. now rewrite close_not_digit.
    + destruct l'; cbn; trivial. now rewrite close_not_digit.
Qed.
End Sequences.

Lemma stringify_arr (items : list json) (r : string) :
  stringify (JArr items) ++ r
  = "[" ++ (String.concat "," (map stringify items) ++ String "]" r).
Proof using. platform_free.
  cbn [stringify]. now rewrite !append_assoc.
Qed.

Lemma stringify_obj_entries (props : list (string * json)) (r : string) :
  stringify (JObj props) ++ r
  = "{" ++ (String.concat "," (map entry_text (own_entries props)) ++ String "}" r).
Proof using. platform_free.
  rewrite stringify_obj, !append_assoc. do 2 f_equal.
  change (fun '(k, v) => (k, stringify v))
    with (with_value (fun (_ : string) => stringify)).
  rewrite own_entries_map_values, map_map. f_equal.
  apply map_ext. now intros [k v].
Qed.

Lemma stringify_inj (v : json) :
  forall v' r r',
    delim r = true -> delim r' = true ->
    stringify v ++ r = stringify v' ++ r' -> same_text v v' /\ r = r'.
Proof using. platform_free.
  induction v as [|b|n|s|items IH|props IH] using json_nested_ind;
    intros v' r r' Hr Hr' H;
    pose proof (stringify_same_kind _ _ _ _ H) as K;
    destruct v' as [|b'|n'|s'|items'|props']; try discriminate K; clear K.
  - injection H as H. split; [constructor|trivial].
  - destruct b, b'; try discriminate H; injection H as H; split; trivial; constructor.
  - cbn [stringify] in H. apply number_inj in H; trivial.
    destruct H as [-> ->]. split; [constructor|trivial].
  - cbn [stringify] in H. apply quote_inj in H.
    destruct H as [-> ->]. split; [constructor|trivial].
  - rewrite !stringify_arr in H. injection H as H.
    apply (seq_inj stringify same_text "]"%char) in H; trivial.
    + destruct H as [H ->]. split; [now constructor|trivial].
    + discriminate.
    + intros x. now apply stringify_head_not.
  - rewrite !stringify_obj_entries in H. injection H as H.
    apply (seq_inj entry_text
             (fun p q => fst p = fst q /\ same_text (snd p) (snd q)) "}"%char) in H;
      trivial.
    + destruct H as [H ->]. split; [now constructor|trivial].
    + discriminate.
    + intros x. eexists _, _. split; [reflexivity|discriminate].
    + apply (Permutation_Forall (Permutation_sym (own_entries_perm props))).
      eapply Forall_impl; [|exact IH].
      intros [k x] Hx [k' x'] t t' Ht Ht' E. cbn [fst snd] in *.
      unfold entry_text in E. cbn [fst snd] in E.
      rewrite !append_assoc in E. apply quote_inj in E.
      destruct E as [-> E]. injection E as E.
      apply Hx in E; trivial. destruct E as [E ->]. auto.
Qed.

(** ** Equal canonical forms *)

Lemma Forall2_eq_in {A} (R : A -> A -> Prop) (l l' : list A) :
  Forall2 R l l' ->
  (forall x y, In x l -> In y l' -> R x y -> x = y) -> l = l'.
Proof.
  induction 1 as [|x y l l' HR HF IH]; intros H; trivial.
  rewrite (H x y) by (trivial; now left).
  f_equal. apply IH. intros a b Ha Hb. apply H; now right.
Qed.

Lemma Forall2_impl_in {A B} (R R' : A -> B -> Prop) (l : list A) (l' : list B) :
  Forall2 R l l' ->
  (forall x y, In x l -> In y l' -> R x y -> R' x y) -> Forall2 R' l l'.
Proof.
  induction 1 as [|x y l l' HR HF IH]; intros H; constructor.
  - apply H; trivial; now left.
  - apply IH. intros a b Ha Hb. apply H; now right.
Qed.

Lemma Forall2_map {A B} (f : A -> B) (l l' : list A) :
  map f l = map f l' -> Forall2 (fun x y => f x = f y) l l'.
Proof.
  revert l'. induction l as [|x l IH]; intros [|y l'] H; try discriminate;
    constructor; injection H; auto.
Qed.

Lemma map_of_Forall2 {A B} (f : A -> B) (l l' : list A) :
  Forall2 (fun x y => f x = f y) l l' -> map f l = map f l'.
Proof. induction 1; simpl; congruence. Qed.

Lemma Forall2_of_map {A B} (R : B -> B -> Prop) (f : A -> B) (l l' : list A) :
  Forall2 R (map f l) (map f l') -> Forall2 (fun x y => R (f x) (f y)) l l'.
Proof.
  revert l'. induction l as [|x l IH]; intros [|y l'] H; inversion H; subst;
    constructor; auto.
Qed.

Lemma In_own_entries {A} (p : string * A) (l : list (string * A)) :
  In p (own_entries l) <-> In p l.
Proof.
  split; apply Permutation_in;
    [apply own_entries_perm | apply Permutation_sym, own_entries_perm].
Qed.

Lemma In_rebuild_stable (props : list (string * json)) (p : string * json) :
  NoDup (keys props) ->
  In p (own_entries (rebuild (map (fun '(k, v) => (k, stableObject v)) props))) ->
  exists x, In (fst p, x) props /\ snd p = stableObject x.
Proof using. platform_free.
  intros ND H. apply (proj1 (In_own_entries _ _)) in H. destruct p as [k y].
  apply rebuild_incl in H; [|now rewrite keys_stable].
  now apply In_stable in H.
Qed.

Lemma same_text_stable (v : json) :
  forall v',
    json_wf v = true -> json_wf v' = true ->
    same_text (stableObject v) (stableObject v') ->
    stableObject v = stableObject v'.
Proof using. platform_free.
  induction v as [|b|n|s|items IH|props IH] using json_nested_ind;
    intros v' Hwf Hwf' H.
  - inversion H; reflexivity.
  - inversion H; reflexivity.
  - inversion H; reflexivity.
  - inversion H; reflexivity.
  - cbn [stableObject] in *. inversion H as [| | | |? items' HF E1 E2|]; subst.
    destruct v' as [| | | |l|]; try discriminate E2.
    cbn [stableObject] in *. injection E2 as ->. f_equal.
    apply Forall2_of_map in HF.
    apply map_of_Forall2. eapply Forall2_impl_in; [exact HF|].
    intros x y Hx Hy Hxy. rewrite Forall_forall in IH.
    exact (IH x Hx y (json_wf_arr _ _ Hwf Hx) (json_wf_arr _ _ Hwf' Hy) Hxy).
  - rewrite stableObject_obj in *.
    inversion H as [| | | | |? props0 HF E1 E2]; subst.
    destruct v' as [| | | | |props']; try discriminate E2.
    rewrite stableObject_obj in E2. injection E2 as ->. f_equal.
    destruct (json_wf_obj _ Hwf) as [ND _], (json_wf_obj _ Hwf') as [ND' _].
    set (stable := map (fun '(k, v) => (k, stableObject v)) props) in *.
    set (stable' := map (fun '(k, v) => (k, stableObject v)) props') in *.
    assert (NDs : NoDup (keys stable)) by (unfold stable; now rewrite keys_stable).
    assert (NDs' : NoDup (keys stable')) by (unfold stable'; now rewrite keys_stable).
    assert (E : own_entries (rebuild stable) = own_entries (rebuild stable')).
    { eapply Forall2_eq_in; [exact HF|].
      intros p q Hp Hq [Hk Hs].
      apply In_rebuild_stable in Hp; trivial. apply In_rebuild_stable in Hq; trivial.
      destruct Hp as (x & Hx & Ex), Hq as (y & Hy & Ey).
      destruct p as [k a], q as [k' a']. cbn [fst snd] in *. subst k'.
      f_equal. rewrite Ex, Ey in *. rewrite Forall_forall in IH.
      exact (IH (k, x) Hx y (json_wf_In _ _ _ Hwf Hx) (json_wf_In _ _ _ Hwf' Hy) Hs). }
    rewrite <- (rebuild_idem stable), <- (rebuild_idem stable') by trivial.
    apply rebuild_perm; [now apply NoDup_keys_rebuild|].
    rewrite <- (own_entries_perm (rebuild stable)), E.
    apply own_entries_perm.
Qed.

Lemma stableStringify_inj (v v' : json) :
  json_wf v = true -> json_wf v' = true ->
  stableStringify v = stableStringify v' -> stableObject v = stableObject v'.
Proof using. platform_free.
  unfold stableStringify. intros Hwf Hwf' H.
  apply same_text_stable; trivial.
  apply (stringify_inj _ _ EmptyString EmptyString); trivial.
  now rewrite !append_nil_r.
Qed.

Lemma proto_free_obj (props : list (string * json)) :
  proto_free (JObj props) = true ->
  ~ In "__proto__" (keys props) /\
  forall k x, In (k, x) props -> proto_free x = true.
Proof using. platform_free.
  cbn [proto_free]. rewrite andb_true_iff, negb_true_iff, existsb_eqb_false.
  intros [H1 H2]. split; trivial.
  intros k x Hx. rewrite forallb_forall in H2. exact (H2 _ Hx).
Qed.

Lemma proto_free_arr (items : list json) (x : json) :
  proto_free (JArr items) = true -> In x items -> proto_free x = true.
Proof. cbn [proto_free]. rewrite forallb_forall. auto. Qed.

Lemma rebuild_perm_self stable :
  NoDup (keys stable) -> ~ In "__proto__" (keys stable) ->
  Permutation (rebuild stable) stable.
Proof using. platform_free.
  intros ND Np. apply NoDup_Permutation.
  - apply (NoDup_map_inv fst). now apply NoDup_keys_rebuild.
  - now apply (NoDup_map_inv fst).
  - intros [k y]. split.
    + now apply rebuild_incl.
    + intros H. apply rebuild_In; trivial.
      * now apply assoc_get_In.
      * intros ->. apply Np. apply (in_map fst _ _ H).
Qed.

Lemma stable_key_permuted (v : json) :
  forall v',
    json_wf v = true -> json_wf v' = true ->
    proto_free v = true -> proto_free v' = true ->
    stableObject v = stableObject v' -> key_permuted v v'.
Proof using. platform_free.
  induction v as [|b|n|s|items IH|props IH] using json_nested_ind;
    intros v' Hwf Hwf' Hp Hp' H.
  - destruct v'; try discriminate H. constructor.
  - destruct v'; try discriminate H. injection H as ->. constructor.
  - destruct v'; try discriminate H. injection H as ->. constructor.
  - destruct v'; try discriminate H. injection H as ->. constructor.
  - destruct v' as [| | | |items'|]; try discriminate H.
    cbn [stableObject] in H. injection H as H. constructor.
    apply Forall2_map in H. eapply Forall2_impl_in; [exact H|].
    intros x y Hx Hy Hxy. rewrite Forall_forall in IH.
    exact (IH x Hx y (json_wf_arr _ _ Hwf Hx) (json_wf_arr _ _ Hwf' Hy)
              (proto_free_arr _ _ Hp Hx) (proto_free_arr _ _ Hp' Hy) Hxy).
  - destruct v' as [| | | | |props']; try discriminate H.
    rewrite !stableObject_obj in H. injection H as H.
    destruct (json_wf_obj _ Hwf) as [ND _], (json_wf_obj _ Hwf') as [ND' _].
    destruct (proto_free_obj _ Hp) as [Np Hpx], (proto_free_obj _ Hp') as [Np' Hpx'].
    set (so := fun '(k, v) => (k, stableObject v) : string * json) in *.
    assert (P : Permutation (map so props') (map so props)).
    { rewrite <- (rebuild_perm_self (map so props')),
              <- (rebuild_perm_self (map so props)), H; trivial;
        unfold so; now rewrite keys_stable. }
    apply Permutation_map_inv in P. destruct P as (mid & E & P).
    apply kp_obj with (mid := mid); trivial.
    symmetry in E. apply Forall2_map in E.
    eapply Forall2_impl_in; [exact E|].
    intros [k x] [k' y] Hx Hy Hxy. cbn [fst snd]. unfold so in Hxy.
    injection Hxy as -> Hxy. split; trivial.
    apply (Permutation_in _ (Permutation_sym P)) in Hx.
    rewrite Forall_forall in IH.
    exact (IH (k', x) Hx y (json_wf_In _ _ _ Hwf Hx) (json_wf_In _ _ _ Hwf' Hy)
              (Hpx _ _ Hx) (Hpx' _ _ Hy) Hxy).
Qed.

(** ** Properties named __proto__ *)

Lemma assoc_get_filter_other {A} (k : string) (l : list (string * A)) :
  k <> "__proto__" ->
  assoc_get String.eqb k (filter (fun p => negb (fst p =? "__proto__")) l)
  = assoc_get String.eqb k l.
Proof using. platform_free.
  intros Hk. induction l as [|[k0 a] l IH]; simpl; trivial.
  destruct (String.eqb_spec k0 "__proto__") as [->|N]; simpl.
  - destruct (String.eqb_spec k "__proto__"); [contradiction|trivial].
  - now rewrite IH.
Qed.

Lemma keys_filter {A} (l : list (string * A)) :
  keys (filter (fun p => negb (fst p =? "__proto__")) l) = filter not_proto (keys l).
Proof.
  induction l as [|[k a] l IH]; simpl; trivial.
  unfold not_proto at 1. destruct (k =? "__proto__"); simpl; now rewrite IH.
Qed.

Lemma NoDup_filter {A} (p : A -> bool) (l : list A) : NoDup l -> NoDup (filter p l).
Proof.
  induction 1 as [|a l Ha Hl IH]; simpl; [constructor|].
  destruct (p a); trivial. constructor; trivial.
  intros H. apply filter_In in H. now destruct H.
Qed.

Lemma rebuild_without_proto stable :
  NoDup (keys stable) ->
  rebuild (filter (fun p => negb (fst p =? "__proto__")) stable) = rebuild stable.
Proof using. platform_free.
  intros ND.
  set (S' := filter (fun p => negb (fst p =? "__proto__")) stable).
  assert (ND' : NoDup (keys S')).
  { unfold S'. rewrite keys_filter. now apply NoDup_filter. }
  rewrite !rebuild_eq; trivial.
  rewrite (sort_permutation_eq _ _ (Object_keys_perm S')).
  unfold S' at 2. rewrite keys_filter, sort_filter.
  rewrite <- (sort_permutation_eq _ _ (Object_keys_perm stable)).
  apply rebuilt_filter. intros k Hk. now apply assoc_get_filter_other.
Qed.

Lemma filter_stable (f : json -> json) (props : list (string * json)) :
  map (fun '(k, v) => (k, f v)) (filter (fun p => negb (fst p =? "__proto__")) props)
  = filter (fun p => negb (fst p =? "__proto__")) (map (fun '(k, v) => (k, f v)) props).
Proof.
  induction props as [|[k a] l IH]; simpl; trivial.
  destruct (k =? "__proto__"); simpl; now rewrite IH.
Qed.

Lemma stableObject_without_proto (v : json) :
  json_wf v = true -> stableObject (without_proto v) = stableObject v.
Proof using. platform_free.
  induction v as [| | | |items IH|props IH] using json_nested_ind; trivial; intros Hwf.
  - cbn [without_proto stableObject]. f_equal. rewrite map_map. apply map_ext_in.
    intros x Hx. rewrite Forall_forall in IH. apply IH; trivial.
    exact (json_wf_arr _ _ Hwf Hx).
  - destruct (json_wf_obj _ Hwf) as [ND _].
    cbn [without_proto]. rewrite !stableObject_obj. f_equal.
    rewrite filter_stable, map_map.
    rewrite <- (rebuild_without_proto (map _ props)) by now rewrite keys_stable.
    do 2 f_equal. apply map_ext_in. intros [k x] Hx. f_equal.
    rewrite Forall_forall in IH. apply (IH (k, x) Hx).
    exact (json_wf_In _ _ _ Hwf Hx).
Qed.

(** ** Loops *)

Lemma for_of_split {A S} (body : S -> A -> M S) (l1 : list A) (x : A) (l2 : list A)
  (s s' : S) (e : list string) :
  for_of body (l1 ++ x :: l2) s = Done (s', e) ->
  exists s1 s2 e0 e1 e2,
    for_of body l1 s = Done (s1, e0) /\ body s1 x = Done (s2, e1) /\
    for_of body l2 s2 = Done (s', e2) /\ e = (e0 ++ e1 ++ e2)%list.
Proof using. platform_free.
  rewrite for_of_app. intros H.
  apply bind_Done_inv in H. destruct H as (s1 & e0 & e' & H1 & H2 & ->).
  rewrite for_of_cons in H2.
  apply bind_Done_inv in H2. destruct H2 as (s2 & e1 & e2 & H2 & H3 & ->).
  exists s1, s2, e0, e1, e2. auto.
Qed.

Lemma for_of_inv {A S} (body : S -> A -> M S) (P : S -> Prop) (l : list A) :
  (forall s x s' e, In x l -> body s x = Done (s', e) -> P s -> P s') ->
  forall s s' e, for_of body l s = Done (s', e) -> P s -> P s'.
Proof using. platform_free.
  induction l as [|x l IH]; intros Hb s s' e H Hs.
  - inversion H. now subst.
  - rewrite for_of_cons in H.
    apply bind_Done_inv in H. destruct H as (s1 & e1 & e2 & H1 & H2 & _).
    apply (IH (fun s x s' e Hx => Hb s x s' e (or_intror Hx)) _ _ _ H2).
    exact (Hb _ _ _ _ (or_introl eq_refl) H1 Hs).
Qed.

Lemma for_of_Throw {A S} (body : S -> A -> M S) (l : list A) (x : A) :
  In x l -> (forall s, body s x = Throw) -> forall s, for_of body l s = Throw.
Proof using. platform_free.
  intros Hin Hx. induction l as [|a l IH]; intros s; [destruct Hin|].
  rewrite for_of_cons. destruct Hin as [->|Hin].
  - now rewrite Hx.
  - destruct (body s a) as [[s1 e1]|]; trivial.
    cbn [bind]. now rewrite (IH Hin).
Qed.

Lemma for_of_one {A S} (body : S -> A -> M S) (x : A) (s : S) :
  for_of body [x] s = body s x.
Proof using. platform_free.
  rewrite for_of_cons. destruct (body s x) as [[a e]|]; trivial.
  cbn. now rewrite app_nil_r.
Qed.

Lemma for_of_clean {A S} (body : S -> A -> M S) (l : list A) :
  forall s s',
    for_of body l s = Done (s', []) ->
    forall P : S -> Prop,
      (forall s x s', In x l -> body s x = Done (s', []) -> P s -> P s') ->
      P s -> P s'.
Proof using. platform_free.
  induction l as [|x l IH]; intros s s' H P Hb Hs.
  - inversion H. now subst.
  - rewrite for_of_cons in H.
    apply bind_clean_inv in H. destruct H as (s1 & H1 & H2).
    apply (IH _ _ H2 P).
    + intros s0 x0 s0' Hx0. apply Hb. now right.
    + exact (Hb _ _ _ (or_introl eq_refl) H1 Hs).
Qed.

(** ** The ids of the proposed plugins *)

Lemma checkPluginFields_inv (ids : list string) (q : json) ids' e :
  checkPluginFields ids q = Done (ids', e) ->
  exists e1 e2, checkPluginId ids q = Done (ids', e1) /\ e = (e1 ++ e2)%list.
Proof.
  unfold checkPluginFields. intros H.
  apply bind_Done_inv in H. destruct H as (a & e1 & e2 & H1 & H & ->).
  exists e1, e2. split; trivial.
  apply bind_Done_inv in H. destruct H as (? & ? & ? & _ & H & _).
  apply bind_Done_inv in H. destruct H as (? & ? & ? & _ & H & _).
  apply bind_Done_inv in H. destruct H as (? & ? & ? & _ & H & _).
  apply bind_Done_inv in H. destruct H as (? & ? & ? & _ & H & _).
  unfold ret in H. congruence.
Qed.

Lemma checkPlugin_object (st : plugin_state) (q : json) st' e :
  typeof_object q = true ->
  checkPlugin st q = Done (st', e) ->
  exists e1 e2,
    checkPluginId (fst st) q = Done (fst st', e1) /\
    snd st' = assoc_set same_value_zero (prop q "id") q (snd st) /\
    e = (e1 ++ e2)%list.
Proof.
  intros Ho. unfold checkPlugin.
  rewrite Ho, (typeof_object_truthy _ Ho). cbn [negb orb]. intros H.
  apply bind_Done_inv in H. destruct H as (ids' & e1 & e2 & H1 & H2 & ->).
  unfold ret in H2. injection H2 as <- <-.
  apply checkPluginFields_inv in H1. destruct H1 as (f1 & f2 & H1 & ->).
  exists f1, f2. cbn [fst snd]. rewrite app_nil_r. auto.
Qed.

Lemma checkPlugin_not_object (st : plugin_state) (q : json) :
  typeof_object q = false ->
  checkPlugin st q = Done (st, ["pr index.json: plugin entry must be an object"]).
Proof.
  intros Ho. unfold checkPlugin. rewrite Ho, orb_true_r. reflexivity.
Qed.

Lemma checkPluginId_cases (ids : list string) (q : json) ids' e :
  checkPluginId ids q = Done (ids', e) ->
  ids' = ids \/ exists id, prop q "id" = Some (JStr id) /\ ids' = (ids ++ [id])%list.
Proof using. platform_free.
  unfold checkPluginId.
  destruct (prop q "id") as [[| | |id| |]|]; try (inversion 1; now left).
  destruct (negb (isNonEmptyString (Some (JStr id))) || negb (isValidId id));
    [inversion 1; now left|].
  destruct (existsb (String.eqb id) ids); inversion 1; eauto.
Qed.

Lemma checkPluginId_valid (ids : list string) (q : json) (id : string) :
  prop q "id" = Some (JStr id) -> isValidId id = true ->
  checkPluginId ids q
  = if existsb (String.eqb id) ids then Done (ids, [msg_duplicate_id id])
    else Done ((ids ++ [id])%list, []).
Proof using. platform_free.
  intros Hid Hv. unfold checkPluginId.
  rewrite Hid, Hv, (isValidId_nonempty _ Hv). cbn [negb orb].
  now destruct (existsb (String.eqb id) ids).
Qed.

Lemma checkPlugin_ids_mono (st : plugin_state) (q : json) st' e :
  checkPlugin st q = Done (st', e) -> incl (fst st) (fst st').
Proof.
  destruct (typeof_object q) eqn:Ho; intros H.
  - apply checkPlugin_object in H; trivial.
    destruct H as (e1 & e2 & H & _ & _).
    apply checkPluginId_cases in H. destruct H as [->|(id & _ & ->)].
    + apply incl_refl.
    + apply incl_appl, incl_refl.
  - rewrite checkPlugin_not_object in H by trivial.
    inversion H. apply incl_refl.
Qed.

Lemma for_of_checkPlugin_mono (ps : list json) (st : plugin_state) st' e :
  for_of checkPlugin ps st = Done (st', e) -> incl (fst st) (fst st').
Proof.
  intros H.
  apply (for_of_inv checkPlugin (fun s => incl (fst st) (fst s)) ps) in H; trivial.
  - intros s x s' e0 _ Hx Hs.
    eapply incl_tran; [exact Hs|]. exact (checkPlugin_ids_mono _ _ _ _ Hx).
  - apply incl_refl.
Qed.

Lemma checkPlugin_records (st : plugin_state) (q : json) st' e (id : string) :
  checkPlugin st q = Done (st', e) ->
  prop q "id" = Some (JStr id) -> isValidId id = true ->
  In id (fst st') /\ (In id (fst st) -> In (msg_duplicate_id id) e).
Proof.
  intros H Hid Hv.
  apply checkPlugin_object in H; [|exact (prop_Some_object _ _ _ Hid)].
  destruct H as (e1 & e2 & H & _ & ->).
  rewrite (checkPluginId_valid _ _ _ Hid Hv) in H.
  destruct (existsb (String.eqb id) (fst st)) eqn:Ex.
  - injection H as <- <-. split.
    + apply existsb_exists in Ex. destruct Ex as (x & Hx & E).
      apply String.eqb_eq in E. now subst.
    + intros _. now left.
  - injection H as <- <-. split.
    + apply in_or_app. right. now left.
    + intros Hin. apply existsb_eqb_false in Ex. contradiction.
Qed.

Lemma duplicate_id_logged (ps : list json) (i j : nat) (q1 q2 : json) (id : string)
  (st st' : plugin_state) (e : list string) :
  for_of checkPlugin ps st = Done (st', e) ->
  nth_error ps i = Some q1 -> nth_error ps j = Some q2 -> (i < j)%nat ->
  prop q1 "id" = Some (JStr id) -> prop q2 "id" = Some (JStr id) ->
  isValidId id = true ->
  In (msg_duplicate_id id) e.
Proof.
  intros H Hi Hj Hlt H1 H2 Hv.
  destruct (nth_error_split _ _ Hj) as (l1 & l2 & -> & Hlen).
  rewrite nth_error_app1 in Hi by lia.
  destruct (nth_error_split _ _ Hi) as (k1 & k2 & -> & _).
  apply for_of_split in H.
  destruct H as (s1 & s2 & e0 & e1 & e2 & Ha & Hb & _ & ->).
  apply for_of_split in Ha.
  destruct Ha as (t1 & t2 & f0 & f1 & f2 & _ & Hq1 & Hrest & _).
  destruct (checkPlugin_records _ _ _ _ _ Hq1 H1 Hv) as [Hin _].
  apply (for_of_checkPlugin_mono _ _ _ _ Hrest) in Hin.
  destruct (checkPlugin_records _ _ _ _ _ Hb H2 Hv) as [_ Hdup].
  rewrite !in_app_iff. auto.
Qed.

(** ** The versions seen in a plugin *)

Lemma checkVersionName_cases (p : json) lbl (seen : list string) (v : json) seen' e :
  checkVersionName p lbl seen v = Done (seen', e) ->
  seen' = seen \/ exists ver, seen' = (seen ++ [ver])%list.
Proof using. platform_free.
  unfold checkVersionName.
  destruct (prop v "version") as [[| | |ver| |]|]; try (inversion 1; now left).
  destruct (negb (isNonEmptyString (Some (JStr ver)))); [inversion 1; now left|].
  destruct (existsb (String.eqb ver) seen); [|inversion 1; eauto].
  intros H. apply bind_Done_inv in H. destruct H as (? & ? & ? & _ & H & _).
  apply bind_Done_inv in H. destruct H as (? & ? & ? & _ & H & _).
  unfold ret in H. left. congruence.
Qed.

Lemma checkVersionName_records (p : json) lbl (seen : list string) (v : json)
  seen' e (ver : string) :
  checkVersionName p lbl seen v = Done (seen', e) ->
  prop v "version" = Some (JStr ver) ->
  isNonEmptyString (Some (JStr ver)) = true ->
  In ver seen' /\
  (In ver seen ->
   exists id, ToString (prop p "id") = Some id
              /\ In (msg_duplicate_version ver id) e).
Proof using. platform_free.
  unfold checkVersionName. intros H Hver Hne. rewrite Hver, Hne in H.
  cbn [negb] in H.
  destruct (existsb (String.eqb ver) seen) eqn:Ex.
  - apply bind_Done_inv in H. destruct H as (id & e1 & e2 & Hs & H & ->).
    apply str_Done_inv in Hs. destruct Hs as [Hs ->].
    apply bind_Done_inv in H. destruct H as (? & ? & ? & Hp & H & ->).
    unfold push in Hp. unfold ret in H.
    injection Hp as _ <-. injection H as <- <-.
    split.
    + apply existsb_exists in Ex. destruct Ex as (y & Hy & E).
      apply String.eqb_eq in E. now subst.
    + intros _. exists id. split; trivial. now left.
  - unfold ret in H. injection H as <- <-. split.
    + apply in_or_app. right. now left.
    + intros Hin. apply existsb_eqb_false in Ex. contradiction.
Qed.

Lemma walkVersion_not_object (p : json) bvs (st : version_state) (v : json) st' e :
  typeof_object v = false ->
  walkVersion p bvs st v = Done (st', e) -> st' = st.
Proof.
  intros Ho. unfold walkVersion. rewrite Ho, orb_true_r. intros H.
  apply bind_Done_inv in H. destruct H as (? & ? & ? & _ & H & _).
  apply bind_Done_inv in H. destruct H as (? & ? & ? & _ & H & _).
  unfold ret in H. congruence.
Qed.

Lemma walkVersion_seen_mono (p : json) bvs (st : version_state) (v : json) st' e :
  walkVersion p bvs st v = Done (st', e) -> incl (fst st) (fst st').
Proof.
  destruct (typeof_object v) eqn:Ho; intros H.
  - apply walkVersion_Done_inv in H; trivial.
    destruct H as (lbl & seen' & e1 & e2 & e3 & e4 & q & e5
                   & _ & H1 & _ & _ & _ & _ & -> & _).
    cbn [fst]. apply checkVersionName_cases in H1.
    destruct H1 as [->|(ver & ->)].
    + apply incl_refl.
    + apply incl_appl, incl_refl.
  - apply walkVersion_not_object in H; trivial. subst. apply incl_refl.
Qed.

Lemma duplicate_version_logged (p : json) bvs (vs : list json) (i j : nat)
  (v1 v2 : json) (ver : string) (st st' : version_state) (e : list string) :
  for_of (walkVersion p bvs) vs st = Done (st', e) ->
  nth_error vs i = Some v1 -> nth_error vs j = Some v2 -> (i < j)%nat ->
  prop v1 "version" = Some (JStr ver) -> prop v2 "version" = Some (JStr ver) ->
  isNonEmptyString (Some (JStr ver)) = true ->
  exists id, ToString (prop p "id") = Some id
             /\ In (msg_duplicate_version ver id) e.
Proof.
  intros H Hi Hj Hlt H1 H2 Hne.
  destruct (nth_error_split _ _ Hj) as (l1 & l2 & -> & Hlen).
  rewrite nth_error_app1 in Hi by lia.
  destruct (nth_error_split _ _ Hi) as (k1 & k2 & -> & _).
  apply for_of_split in H.
  destruct H as (s1 & s2 & e0 & e1 & e2 & Ha & Hb & _ & ->).
  apply for_of_split in Ha.
  destruct Ha as (t1 & t2 & f0 & f1 & f2 & _ & Hq1 & Hrest & _).
  assert (Hseen : In ver (fst s1)).
  { apply (for_of_inv (walkVersion p bvs) (fun s => In ver (fst s)) k2) in Hrest; trivial.
    - intros s x s' e' _ Hx Hs. exact (walkVersion_seen_mono _ _ _ _ _ _ Hx _ Hs).
    - apply walkVersion_Done_inv in Hq1; [|exact (prop_Some_object _ _ _ H1)].
      destruct Hq1 as (lbl & seen' & g1 & g2 & g3 & g4 & q & g5
                       & _ & Hn & _ & _ & _ & _ & -> & _).
      cbn [fst]. now destruct (checkVersionName_records _ _ _ _ _ _ _ Hn H1 Hne). }
  apply walkVersion_Done_inv in Hb; [|exact (prop_Some_object _ _ _ H2)].
  destruct Hb as (lbl & seen' & g1 & g2 & g3 & g4 & q & g5
                  & _ & Hn & _ & _ & _ & _ & _ & ->).
  destruct (checkVersionName_records _ _ _ _ _ _ _ Hn H2 Hne) as [_ Hdup].
  destruct (Hdup Hseen) as (id & Hid & Hin).
  exists id. split; trivial. rewrite !in_app_iff. auto.
Qed.

(** ** The Map of the proposed plugins and the removal loop *)

Lemma swz_get_set_same (k : value) (q : json) (m : list (value * json)) :
  same_value_zero k k = true ->
  assoc_get same_value_zero k (assoc_set same_value_zero k q m) = Some q.
Proof using. platform_free.
  intros Hk. induction m as [|[k' a] m IH]; cbn [assoc_get assoc_set].
  - now rewrite Hk.
  - destruct (same_value_zero k k') eqn:E; cbn [assoc_get]; now rewrite E.
Qed.

Lemma prPluginMap_found (ps : list json) (id : string) :
  forall st st' e,
    for_of checkPlugin ps st = Done (st', e) ->
    truthy (assoc_get same_value_zero (Some (JStr id)) (snd st'))
    = truthy (assoc_get same_value_zero (Some (JStr id)) (snd st))
      || existsb (fun q => strict_equal (prop q "id") (Some (JStr id))) ps.
Proof.
  induction ps as [|q ps IH]; intros st st' e H.
  - inversion H. now rewrite orb_false_r.
  - rewrite for_of_cons in H. apply bind_Done_inv in H.
    destruct H as (s1 & e1 & e2 & Hq & Hl & _).
    rewrite (IH _ _ _ Hl). cbn [existsb]. rewrite orb_assoc. f_equal.
    destruct (typeof_object q) eqn:Ho.
    + apply checkPlugin_object in Hq; trivial.
      destruct Hq as (f1 & f2 & _ & -> & _).
      destruct (strict_equal (prop q "id") (Some (JStr id))) eqn:E.
      * apply strict_equal_str in E. rewrite E.
        rewrite swz_get_set_same by (cbn; apply String.eqb_refl).
        rewrite (typeof_object_truthy _ Ho). now rewrite orb_true_r.
      * rewrite prPluginMap_get_set_other; [now rewrite orb_false_r|].
        intros Hk. rewrite Hk in E. cbn in E. now rewrite String.eqb_refl in E.
    + rewrite checkPlugin_not_object in Hq by trivial. injection Hq as <- _.
      destruct q; try discriminate Ho; cbn; now rewrite orb_false_r.
Qed.

Lemma checkRemoved_log (m : list (value * json)) (bmap : list (string * json)) :
  for_of (checkRemoved m) bmap tt
  = Done (tt, map msg_removed
                (filter (fun id => negb (truthy (assoc_get same_value_zero
                                                   (Some (JStr id)) m)))
                        (keys bmap))).
Proof using. platform_free.
  induction bmap as [|[id bp] bmap IH]; trivial.
  rewrite for_of_cons. unfold checkRemoved at 1. cbn [keys map filter fst].
  destruct (truthy (assoc_get same_value_zero (Some (JStr id)) m));
    cbn [negb when]; fold (keys bmap).
  - rewrite bind_ret_l. exact IH.
  - unfold push. cbn [bind]. rewrite IH. reflexivity.
Qed.

Lemma removed_log (baseIndex prIndex : json) (st : plugin_state) (e : list string) :
  for_of checkPlugin (plugins_of prIndex) ([], []) = Done (st, e) ->
  for_of (checkRemoved (snd st)) (basePluginMap_of (plugins_of baseIndex)) tt
  = Done (tt, map msg_removed (removed_ids baseIndex prIndex)).
Proof.
  intros H. rewrite checkRemoved_log. unfold removed_ids. do 3 f_equal.
  apply filter_ext. intros id.
  now rewrite (prPluginMap_found _ id _ _ _ H).
Qed.

(** ** The download loop *)

Lemma checkDownload_eq (n : nat) (item : download) (resp : response) :
  fetch n (url item) = Some resp ->
  checkDownload n item = Done (S n, download_errors item resp).
Proof using.
  intros H. unfold checkDownload, download_errors. rewrite H.
  destruct (negb (response_ok resp)); [reflexivity|].
  now destruct (sha256_hex (body resp) =? sha256 item).
Qed.

Lemma checkDownload_inv (n : nat) (item : download) (n' : nat) (e : list string) :
  checkDownload n item = Done (n', e) ->
  exists resp, fetch n (url item) = Some resp /\ n' = S n
               /\ e = download_errors item resp.
Proof using.
  destruct (fetch n (url item)) as [resp|] eqn:E.
  - rewrite (checkDownload_eq _ _ _ E). intros H. injection H as <- <-. eauto.
  - unfold checkDownload. now rewrite E.
Qed.

Lemma for_of_checkDownload (ds : list download) :
  forall k n e,
    for_of checkDownload ds k = Done (n, e) ->
    n = (k + List.length ds)%nat /\
    exists rs,
      List.length rs = List.length ds /\
      (forall i item, nth_error ds i = Some item ->
                      fetch (k + i) (url item) = nth_error rs i) /\
      e = flat_map (fun ir => download_errors (fst ir) (snd ir)) (combine ds rs).
Proof using.
  induction ds as [|item ds IH]; intros k n e H.
  - injection H as <- <-. split; [cbn [List.length]; lia|].
    exists []. repeat split; trivial.
    intros [|i] x Hx; discriminate.
  - rewrite for_of_cons in H. apply bind_Done_inv in H.
    destruct H as (k1 & e1 & e2 & H1 & H2 & ->).
    apply checkDownload_inv in H1. destruct H1 as (resp & Hf & -> & ->).
    apply IH in H2. destruct H2 as (-> & rs & Hlen & Hrs & ->).
    split; [cbn [List.length]; lia|].
    exists (resp :: rs). repeat split.
    + cbn [List.length]. now rewrite Hlen.
    + intros [|i] x Hx.
      * injection Hx as <-. now rewrite Nat.add_0_r.
      * cbn [nth_error] in *. rewrite <- (Hrs i x Hx). f_equal. lia.
Qed.

Lemma for_of_checkDownload_rejected (ds : list download) :
  forall k i item,
    nth_error ds i = Some item -> fetch (k + i) (url item) = None ->
    for_of checkDownload ds k = Throw.
Proof using.
  intros k i item Hi Hf.
  destruct (for_of checkDownload ds k) as [[n e]|] eqn:E; trivial.
  apply for_of_checkDownload in E. destruct E as (_ & rs & Hlen & Hrs & _).
  rewrite (Hrs i item Hi) in Hf.
  apply nth_error_None in Hf.
  assert (i < List.length ds)%nat by (apply nth_error_Some; congruence).
  lia.
Qed.

(** ** The keys of basePluginMap *)

Lemma keys_assoc_set_in {A} (k : string) (a : A) (m : list (string * A)) :
  In k (keys m) -> keys (assoc_set String.eqb k a m) = keys m.
Proof using. platform_free.
  induction m as [|[k' a'] m IH]; cbn [keys map fst assoc_set]; intros H.
  - destruct H.
  - destruct (String.eqb_spec k k') as [->|N]; trivial.
    cbn [map fst]. f_equal. apply IH. destruct H as [H|H]; [congruence|exact H].
Qed.

Lemma NoDup_keys_assoc_set {A} (k : string) (a : A) (m : list (string * A)) :
  NoDup (keys m) -> NoDup (keys (assoc_set String.eqb k a m)).
Proof using. platform_free.
  intros ND. destruct (in_dec string_dec k (keys m)) as [Hin|Hin].
  - now rewrite keys_assoc_set_in.
  - rewrite assoc_set_fresh by trivial. unfold keys in *.
    rewrite map_app. cbn [map fst].
    apply NoDup_app; trivial.
    + repeat constructor. intros [].
    + intros x Hx [<-|[]]. contradiction.
Qed.

Lemma NoDup_record_fold (field : string) (l : list json) :
  forall m, NoDup (keys m) -> NoDup (keys (fold_left (record_step field) l m)).
Proof using. platform_free.
  induction l as [|x l IH]; intros m ND; trivial.
  cbn [fold_left]. apply IH. unfold record_step.
  destruct (entry_key field x); trivial. now apply NoDup_keys_assoc_set.
Qed.

Lemma In_keys_basePluginMap (ps : list json) (id : string) :
  In id (keys (basePluginMap_of ps)) <->
  exists q, In q ps /\ prop q "id" = Some (JStr id)
            /\ isNonEmptyString (Some (JStr id)) = true.
Proof using. platform_free.
  rewrite basePluginMap_of_eq. split.
  - intros H.
    destruct (record_fold_keys "id" ps [] id) as [N|(q & Hq & Hk)].
    + intros N. apply assoc_get_None in N. contradiction.
    + now contradiction N.
    + apply entry_key_inv in Hk. destruct Hk as (Hid & Hne & _). eauto.
  - intros (q & Hq & Hid & Hne).
    pose proof (record_fold_has "id" ps q id Hq (entry_key_of_prop _ _ _ Hid Hne) []) as H.
    destruct (in_dec string_dec id (keys (fold_left (record_step "id") ps [])))
      as [Hin|Hin]; trivial.
    apply assoc_get_None in Hin. contradiction.
Qed.

Lemma removed_ids_spec (baseIndex prIndex : json) (id : string) :
  In id (removed_ids baseIndex prIndex) <->
  has_plugin baseIndex id = true /\ isNonEmptyString (Some (JStr id)) = true
  /\ has_plugin prIndex id = false.
Proof using. platform_free.
  unfold removed_ids. rewrite filter_In, In_keys_basePluginMap, negb_true_iff.
  rewrite has_plugin_true. split.
  - intros [(q & Hq & Hid & Hne) Hp]. eauto.
  - intros ((q & Hq & Hid) & Hne & Hp). eauto.
Qed.

Lemma NoDup_removed_ids (baseIndex prIndex : json) :
  NoDup (removed_ids baseIndex prIndex).
Proof using. platform_free.
  unfold removed_ids. apply NoDup_filter.
  rewrite basePluginMap_of_eq. apply NoDup_record_fold. constructor.
Qed.

(** ** Runs that throw *)

Lemma validate_Throw (baseIndex prIndex : json) :
  run baseIndex prIndex = Throw -> validate baseIndex prIndex = Throw.
Proof using. intros H. unfold validate. now rewrite H. Qed.

Lemma run_Throw_collect (baseIndex prIndex : json) :
  collect baseIndex prIndex = Throw -> run baseIndex prIndex = Throw.
Proof using. intros H. unfold run. now rewrite H. Qed.

Lemma toString_None_truthy (v : json) : toString v = None -> truthy (Some v) = true.
Proof using. platform_free.
  destruct v; try discriminate; reflexivity.
Qed.

Lemma walkPlugin_unconvertible_id (bmap : list (string * json)) (ds : list download)
  (p idv v : json) (vs : list json) :
  prop p "id" = Some idv -> toString idv = None ->
  prop p "versions" = Some (JArr (v :: vs)) ->
  walkPlugin bmap ds p = Throw.
Proof.
  intros Hid Hs Hvs. rewrite (walkPlugin_versions _ _ _ _ Hvs).
  rewrite for_of_cons. unfold walkVersion at 1. unfold versionLabel_of, str.
  unfold or_else. rewrite Hid, (toString_None_truthy _ Hs).
  cbn [ToString]. rewrite Hs. reflexivity.
Qed.

(** ** What the walk queues *)

Lemma queueDownload_inv (lbl : string) (v : json) (q : list download)
  (e : list string) (item : download) :
  queueDownload lbl v = Done (q, e) -> In item q ->
  label item = lbl /\
  opt_prop (prop v "dist") "url" = Some (url item) /\
  truthy (Some (url item)) = true /\
  truthy (opt_prop (prop v "dist") "sha256") = true /\
  exists s, ToString (opt_prop (prop v "dist") "sha256") = Some s
            /\ sha256 item = toLowerCase s.
Proof using. platform_free.
  unfold queueDownload.
  destruct (opt_prop (prop v "dist") "url") as [u|]; [|inversion 1; intros []].
  destruct (truthy (Some u)) eqn:Tu; cbn [andb]; [|inversion 1; intros []].
  destruct (truthy (opt_prop (prop v "dist") "sha256")) eqn:Ts;
    [|inversion 1; intros []].
  intros H Hin. apply bind_Done_inv in H. destruct H as (s & e1 & e2 & Hs & H & _).
  apply str_Done_inv in Hs. destruct Hs as [Hs _].
  unfold ret in H. injection H as <- _. destruct Hin as [<-|[]].
  cbn [label url sha256]. eauto 8.
Qed.

Lemma compareOrQueue_inv (bvs : list (string * json)) (lbl : string) (v : json)
  (q : list download) (e : list string) (item : download) :
  compareOrQueue bvs lbl v = Done (q, e) -> In item q ->
  truthy (map_get bvs (prop v "version")) = false /\
  exists e', queueDownload lbl v = Done (q, e').
Proof using. platform_free.
  unfold compareOrQueue.
  destruct (map_get bvs (prop v "version")) as [bv|].
  - destruct (truthy (Some bv)) eqn:T.
    + intros H. apply bind_Done_inv in H. destruct H as (? & ? & ? & _ & H & _).
      unfold ret in H. injection H as <- _. intros [].
    + eauto.
  - eauto.
Qed.

Lemma walkVersion_queue_inv (p : json) bvs (st : version_state) (v : json) st' e :
  walkVersion p bvs st v = Done (st', e) ->
  exists q,
    snd st' = (snd st ++ q)%list /\
    forall item, In item q ->
      typeof_object v = true /\
      truthy (map_get bvs (prop v "version")) = false /\
      download_of p v item.
Proof.
  intros H. destruct (typeof_object v) eqn:Ho.
  - apply walkVersion_Done_inv in H; trivial.
    destruct H as (lbl & seen' & e1 & e2 & e3 & e4 & q & e5
                   & Hl & _ & _ & _ & _ & Hq & -> & _).
    exists q. split; trivial. intros item Hin.
    destruct (compareOrQueue_inv _ _ _ _ _ _ Hq Hin) as (Hnew & e' & Hd).
    destruct (queueDownload_inv _ _ _ _ _ Hd Hin) as (Hlbl & Hu & Htu & Hts & Hs).
    repeat split; trivial. now rewrite Hlbl.
  - apply walkVersion_not_object in H; trivial. subst st'.
    exists []. split; [now rewrite app_nil_r|]. intros item [].
Qed.

Lemma walkPlugin_queue_inv (bmap : list (string * json)) (ds : list download)
  (p : json) (ds' : list download) (e : list string) (item : download) :
  walkPlugin bmap ds p = Done (ds', e) -> In item ds' ->
  In item ds \/
  exists vs v,
    prop p "versions" = Some (JArr vs) /\ In v vs /\
    typeof_object v = true /\
    truthy (map_get (baseVersions_of (map_get bmap (prop p "id")))
                    (prop v "version")) = false /\
    download_of p v item.
Proof.
  destruct (prop p "versions") as [[| | | |vs|]|] eqn:Hvs;
    try (unfold walkPlugin; rewrite Hvs;
         destruct (negb (truthy (Some p)) || negb (typeof_object p));
         inversion 1; now left).
  rewrite (walkPlugin_versions _ _ _ _ Hvs). intros H Hin.
  apply bind_Done_inv in H. destruct H as (st & e1 & e2 & H & Hr & _).
  unfold ret in Hr. injection Hr as <- _.
  set (bvs := baseVersions_of (map_get bmap (prop p "id"))) in *.
  assert (Hinv : forall it, In it (snd st) ->
            In it ds \/
            exists v, In v vs /\ typeof_object v = true /\
                      truthy (map_get bvs (prop v "version")) = false /\
                      download_of p v it).
  { refine (for_of_inv (walkVersion p bvs)
              (fun s => forall it, In it (snd s) ->
                 In it ds \/
                 exists v, In v vs /\ typeof_object v = true /\
                           truthy (map_get bvs (prop v "version")) = false /\
                           download_of p v it) vs _ _ _ _ H _).
    - intros s x s' e' Hx Hstep Hs it Hit.
      apply walkVersion_queue_inv in Hstep. destruct Hstep as (q & Es & Hq).
      rewrite Es in Hit.
      apply in_app_or in Hit. destruct Hit as [Hit|Hit]; [now apply Hs|].
      right. exists x. split; trivial. now apply Hq.
    - intros it Hit. now left. }
  destruct (Hinv item Hin) as [Hd|(v & Hv)]; [now left|].
  right. exists vs, v. tauto.
Qed.

(** ** Versions found in the base plugin *)

Lemma walkVersion_found_queue (p : json) bvs (st : version_state) (v bv : json) st' e :
  walkVersion p bvs st v = Done (st', e) ->
  map_get bvs (prop v "version") = Some bv -> truthy (Some bv) = true ->
  snd st' = snd st.
Proof.
  intros H Hg Ht. destruct (typeof_object v) eqn:Ho.
  - apply walkVersion_Done_inv in H; trivial.
    destruct H as (lbl & seen' & e1 & e2 & e3 & e4 & q & e5
                   & _ & _ & _ & _ & _ & Hq & -> & _).
    rewrite (compareOrQueue_found _ _ _ _ Hg Ht) in Hq. injection Hq as <- _.
    cbn [snd]. apply app_nil_r.
  - apply walkVersion_not_object in H; trivial. now subst.
Qed.

Lemma clean_version_found (p : json) (vs : list json) (st : version_state)
  (v : json) st' bvs :
  walkVersion p bvs st v = Done (st', []) -> In v vs ->
  exists bv,
    map_get (fold_left (record_step "version") vs []) (prop v "version") = Some bv
    /\ truthy (Some bv) = true.
Proof.
  intros Hv Hin.
  pose proof (walkVersion_clean_object _ _ _ _ _ Hv) as Hobj.
  destruct (walkVersion_Done_inv _ _ _ _ _ _ Hv Hobj)
    as (lbl & seen' & e1 & e2 & e3 & e4 & q & e5 & _ & H1 & _ & _ & _ & _ & _ & E).
  apply app5_nil in E. destruct E as (-> & _).
  apply checkVersionName_clean in H1. destruct H1 as (ver & Hver & Hne).
  rewrite Hver. cbn [map_get].
  pose proof (record_fold_has "version" vs v ver Hin
                (entry_key_of_prop _ _ _ Hver Hne) []) as Hsome.
  destruct (assoc_get String.eqb ver (fold_left (record_step "version") vs []))
    as [bv|] eqn:Ebv; [|congruence].
  exists bv. split; trivial.
  destruct (record_fold_truthy _ _ _ _ _ Ebv) as [H|H]; [discriminate | exact H].
Qed.

Lemma walkPlugin_unchanged_queue (bmap : list (string * json)) (ds : list download)
  (p : json) (ds' : list download) :
  walkPlugin bmap ds p = Done (ds', []) ->
  map_get bmap (prop p "id") = Some p ->
  ds' = ds.
Proof.
  destruct (prop p "versions") as [[| | | |vs|]|] eqn:Hvs;
    try (unfold walkPlugin; rewrite Hvs;
         destruct (negb (truthy (Some p)) || negb (typeof_object p));
         inversion 1; reflexivity).
  rewrite (walkPlugin_versions _ _ _ _ Hvs). intros H Hp. rewrite Hp in H.
  rewrite (baseVersions_of_plugin _ _ Hvs) in H.
  apply bind_clean_inv in H. destruct H as (st & H & Hr).
  unfold ret in Hr. injection Hr as <-.
  apply (for_of_clean _ _ _ _ H (fun s => snd s = ds)); trivial.
  intros s x s' Hx Hstep Hs.
  destruct (clean_version_found _ vs _ _ _ _ Hstep Hx) as (bv & Hg & Ht).
  now rewrite (walkVersion_found_queue _ _ _ _ _ _ _ Hstep Hg Ht).
Qed.

Lemma clean_walk_unchanged_queue (ps : list json) (st : plugin_state)
  (ds : list download) :
  for_of checkPlugin ps ([], []) = Done (st, []) ->
  for_of (walkPlugin (basePluginMap_of ps)) ps [] = Done (ds, []) ->
  ds = [].
Proof.
  intros H4 H6.
  apply (for_of_clean _ _ _ _ H6 (fun s => s = [])); trivial.
  intros s p s' Hp Hstep ->.
  apply in_split in Hp. destruct Hp as (l1 & l2 & E).
  pose proof H4 as H4'. rewrite E in H4'.
  apply clean_plugins_lookup in H4'. destruct H4' as (_ & id & _ & Hg).
  rewrite <- E in Hg.
  exact (walkPlugin_unchanged_queue _ _ _ _ Hstep Hg).
Qed.

Lemma clean_run_stages (baseIndex prIndex : json) (n : nat) :
  run baseIndex prIndex = Done (n, []) ->
  baseIndex <> JNull /\ prIndex <> JNull /\
  shape_errors baseIndex "base index.json" = [] /\
  shape_errors prIndex "pr index.json" = [] /\
  name_errors baseIndex prIndex = [] /\
  exists st ds,
    for_of checkPlugin (plugins_of prIndex) ([], []) = Done (st, []) /\
    for_of (checkRemoved (snd st)) (basePluginMap_of (plugins_of baseIndex)) tt
    = Done (tt, []) /\
    for_of (walkPlugin (basePluginMap_of (plugins_of baseIndex)))
           (plugins_of prIndex) [] = Done (ds, []) /\
    for_of checkDownload ds 0%nat = Done (n, []).
Proof.
  intros H. apply run_Done_inv in H. destruct H as (ds & e1 & e2 & Hc & Hd & E).
  symmetry in E. apply app_eq_nil in E. destruct E as [-> ->].
  apply collect_Done_inv in Hc.
  destruct Hc as (Nb & Np & st & e4 & e5 & e6 & H4 & H5 & H6 & E).
  apply app6_nil in E. destruct E as (E1 & E2 & E3 & -> & -> & ->).
  repeat split; trivial. exists st, ds. auto.
Qed.

Lemma validate_ok_run (baseIndex prIndex : json) :
  validate baseIndex prIndex = Done {| ok := true; errors := [] |} ->
  exists n, run baseIndex prIndex = Done (n, []).
Proof.
  intros H. apply validate_Done_inv in H. destruct H as (n & H & _). eauto.
Qed.

(** ** A plugin added to an accepted index *)

Lemma checkPluginId_clean_valid (ids : list string) (q : json) (ids' : list string) :
  checkPluginId ids q = Done (ids', []) ->
  exists id, prop q "id" = Some (JStr id) /\ isValidId id = true.
Proof using. platform_free.
  unfold checkPluginId.
  destruct (prop q "id") as [[| | |id| |]|];
    try (intros H; now apply push_bind_not_clean in H).
  destruct (isNonEmptyString (Some (JStr id))); cbn [negb orb];
    [|intros H; now apply push_bind_not_clean in H].
  destruct (isValidId id) eqn:V; cbn [negb]; [intros _; eauto|].
  intros H. now apply push_bind_not_clean in H.
Qed.

Lemma checkPlugin_fresh (st0 st : plugin_state) (q : json) (st1 : plugin_state)
  (id : string) :
  checkPlugin st0 q = Done (st1, []) ->
  prop q "id" = Some (JStr id) -> ~ In id (fst st) ->
  checkPlugin st q
  = Done (((fst st ++ [id])%list,
           assoc_set same_value_zero (prop q "id") q (snd st)), []).
Proof.
  intros H Hid Hnin.
  destruct (checkPlugin_clean _ _ _ H) as (Ho & _).
  unfold checkPlugin in *.
  rewrite Ho, (typeof_object_truthy _ Ho) in *. cbn [negb orb] in *.
  apply bind_clean_inv in H. destruct H as (ids1 & H & _).
  unfold checkPluginFields in *.
  apply bind_clean_inv in H. destruct H as (ids2 & H0 & H).
  apply checkPluginId_clean_valid in H0. destruct H0 as (id' & Hid' & Hv).
  assert (id' = id) by congruence. subst id'.
  rewrite (checkPluginId_valid _ _ _ Hid Hv).
  apply existsb_eqb_false in Hnin. rewrite Hnin. cbn [bind].
  apply bind_clean_inv in H. destruct H as ([] & H1 & H).
  apply bind_clean_inv in H. destruct H as ([] & H2 & H).
  apply bind_clean_inv in H. destruct H as ([] & H3 & H).
  apply bind_clean_inv in H. destruct H as ([] & H4 & _).
  rewrite H1. cbn [bind]. rewrite H2. cbn [bind]. rewrite H3. cbn [bind].
  rewrite H4. reflexivity.
Qed.

Lemma walkPlugin_bmap_ext (bmap bmap' : list (string * json)) (ds : list download)
  (q : json) :
  map_get bmap (prop q "id") = map_get bmap' (prop q "id") ->
  walkPlugin bmap ds q = walkPlugin bmap' ds q.
Proof. intros H. unfold walkPlugin. now rewrite H. Qed.

Lemma filter_nil_iff {A} (f : A -> bool) (l : list A) :
  filter f l = [] <-> forall x, In x l -> f x = false.
Proof.
  induction l as [|a l IH]; simpl.
  - split; trivial. intros _ x [].
  - destruct (f a) eqn:E.
    + split; [discriminate|]. intros H. rewrite (H a) in E by now left. discriminate.
    + rewrite IH. split.
      * intros H x [<-|Hx]; auto.
      * intros H x Hx. apply H. now right.
Qed.

Lemma plugins_of_with_plugins (l : list json) (index : json) (ps : list json) :
  prop index "plugins" = Some (JArr ps) -> plugins_of (with_plugins l index) = l.
Proof using. platform_free.
  intros H. unfold plugins_of, with_plugins.
  now rewrite prop_update_prop_same, H.
Qed.

Lemma shape_errors_with_plugins (l : list json) (index : json) (label : string)
  (ps : list json) :
  prop index "plugins" = Some (JArr ps) ->
  shape_errors (with_plugins l index) label = shape_errors index label.
Proof using. platform_free.
  intros H. unfold shape_errors, with_plugins.
  rewrite !prop_update_prop_other by discriminate.
  now rewrite prop_update_prop_same, H.
Qed.

Lemma shape_errors_nil_plugins (index : json) (label : string) :
  shape_errors index label = [] ->
  exists ps, prop index "plugins" = Some (JArr ps).
Proof using. platform_free.
  unfold shape_errors. intros H.
  apply app_eq_nil in H. destruct H as [_ H].
  apply app_eq_nil in H. destruct H as [_ H].
  destruct (prop index "plugins") as [[| | | |ps|]|]; try discriminate H. eauto.
Qed.

Lemma removed_ids_nil (baseIndex prIndex : json) (st : plugin_state) :
  for_of checkPlugin (plugins_of prIndex) ([], []) = Done (st, []) ->
  for_of (checkRemoved (snd st)) (basePluginMap_of (plugins_of baseIndex)) tt
  = Done (tt, []) ->
  removed_ids baseIndex prIndex = [].
Proof.
  intros H4 H5. rewrite (removed_log _ _ _ _ H4) in H5.
  injection H5 as H5. now apply map_eq_nil in H5.
Qed.

Lemma for_of_checkPlugin_ids (ps : list json) (st st' : plugin_state)
  (e : list string) (id : string) :
  for_of checkPlugin ps st = Done (st', e) ->
  In id (fst st') ->
  In id (fst st) \/ exists q, In q ps /\ prop q "id" = Some (JStr id).
Proof.
  intros H.
  refine (for_of_inv checkPlugin
            (fun s => In id (fst s) ->
               In id (fst st) \/ exists q, In q ps /\ prop q "id" = Some (JStr id))
            ps _ _ _ _ H _); [|auto].
  intros s x s' e' Hx Hstep Hs Hin.
  destruct (typeof_object x) eqn:Ho.
  - apply checkPlugin_object in Hstep; trivial.
    destruct Hstep as (e1 & e2 & Hc & _ & _).
    apply checkPluginId_cases in Hc. destruct Hc as [E|(id' & Hid' & E)];
      rewrite E in Hin; auto.
    apply in_app_or in Hin. destruct Hin as [Hin|[<-|[]]]; auto.
    right. eauto.
  - rewrite checkPlugin_not_object in Hstep by trivial.
    injection Hstep as <- _. auto.
Qed.

(** ** The permissions of a version *)




(** ** The command line *)

Lemma indexOf_absent (args : list string) (name : string) :
  ~ In name args -> indexOf args name = None.
Proof using. platform_free.
  induction args as [|a r IH]; simpl; trivial. intros H.
  destruct (String.eqb_spec a name) as [->|N]; [exfalso; auto|].
  rewrite IH; auto.
Qed.

Lemma indexOf_first (before rest : list string) (name : string) :
  ~ In name before ->
  indexOf (before ++ name :: rest) name = Some (List.length before).
Proof using. platform_free.
  induction before as [|a r IH]; simpl; intros H.
  - now rewrite String.eqb_refl.
  - destruct (String.eqb_spec a name) as [->|N]; [exfalso; auto|].
    rewrite IH; auto.
Qed.

(** ** The fields of a plugin entry *)

Lemma push_plugin_not_clean (plugin : json) (what : string) (u : unit) :
  push_plugin plugin what <> Done (u, []).
Proof using. platform_free.
  unfold push_plugin. intros H.
  apply bind_Done_inv in H. destruct H as (id & e1 & e2 & _ & H & E).
  unfold push in H. injection H as _ <-.
  symmetry in E. apply app_eq_nil in E. destruct E as [_ E]. discriminate E.
Qed.

Lemma when_push_plugin_clean (b : bool) (plugin : json) (what : string) (u : unit) :
  when b (push_plugin plugin what) = Done (u, []) -> b = false.
Proof using. platform_free.
  destruct b; trivial. intros H. now apply push_plugin_not_clean in H.
Qed.

(** ** The published versions of an accepted index *)

Lemma clean_version_compared (p : json) bvs (st : version_state) (v bv : json) st' :
  walkVersion p bvs st v = Done (st', []) ->
  map_get bvs (prop v "version") = Some bv -> truthy (Some bv) = true ->
  stableStringify bv = stableStringify v.
Proof.
  intros Hv Hg Ht.
  pose proof (walkVersion_clean_object _ _ _ _ _ Hv) as Hobj.
  destruct (walkVersion_Done_inv _ _ _ _ _ _ Hv Hobj)
    as (lbl & seen' & e1 & e2 & e3 & e4 & q & e5 & _ & _ & _ & _ & _ & Hq & _ & E).
  apply app5_nil in E. destruct E as (_ & _ & _ & _ & ->).
  rewrite (compareOrQueue_found _ _ _ _ Hg Ht) in Hq.
  destruct (String.eqb_spec (stableStringify bv) (stableStringify v)); trivial.
  discriminate Hq.
Qed.

Lemma clean_walk_version_lookup (ps : list json) (st : plugin_state)
  (ds : list download) (i j : nat) (p v : json) (vs : list json) :
  for_of checkPlugin ps ([], []) = Done (st, []) ->
  for_of (walkPlugin (basePluginMap_of ps)) ps [] = Done (ds, []) ->
  nth_error ps i = Some p ->
  prop p "versions" = Some (JArr vs) ->
  nth_error vs j = Some v ->
  map_get (basePluginMap_of ps) (prop p "id") = Some p /\
  exists ver bv,
    prop v "version" = Some (JStr ver) /\
    map_get (baseVersions_of (Some p)) (Some (JStr ver)) = Some bv /\
    truthy (Some bv) = true /\
    stableStringify bv = stableStringify v.
Proof.
  intros H4 H6 Hi Hvs Hj.
  destruct (nth_error_split _ _ Hi) as (l1 & l2 & E & _).
  assert (Hg : map_get (basePluginMap_of ps) (prop p "id") = Some p).
  { pose proof H4 as H4'. rewrite E in H4'.
    apply clean_plugins_lookup in H4'. destruct H4' as (_ & id & _ & Hg).
    now rewrite <- E in Hg. }
  split; trivial.
  assert (Hw : exists s1 s2, walkPlugin (basePluginMap_of ps) s1 p = Done (s2, [])).
  { rewrite E in H6 at 2. apply for_of_split in H6.
    destruct H6 as (s1 & s2 & e0 & e1 & e2 & _ & Hw & _ & E0).
    symmetry in E0. apply app_eq_nil in E0. destruct E0 as [_ E0].
    apply app_eq_nil in E0. destruct E0 as [-> _]. eauto. }
  destruct Hw as (s1 & s2 & Hw).
  rewrite (walkPlugin_versions _ _ _ _ Hvs), Hg in Hw.
  apply bind_clean_inv in Hw. destruct Hw as (stf & Hw & _).
  destruct (nth_error_split _ _ Hj) as (k1 & k2 & Ev & _).
  rewrite Ev in Hw. apply for_of_split in Hw.
  destruct Hw as (t1 & t2 & f0 & f1 & f2 & _ & Hv & _ & E0).
  symmetry in E0. apply app_eq_nil in E0. destruct E0 as [_ E0].
  apply app_eq_nil in E0. destruct E0 as [-> _].
  assert (Hin : In v vs) by (rewrite Ev; apply in_or_app; right; now left).
  destruct (clean_version_found _ vs _ _ _ _ Hv Hin) as (bv & Hbv & Ht).
  rewrite <- (baseVersions_of_plugin _ _ Hvs) in Hbv.
  pose proof (clean_version_compared _ _ _ _ _ _ Hv Hbv Ht) as Hc.
  destruct (prop v "version") as [[| | |ver| |]|] eqn:Hver; try discriminate Hbv.
  exists ver, bv. auto.
Qed.

(** ** The queue in front of the walk *)

Lemma walkVersion_frame (p : json) bvs (seen : list string) (ds q : list download)
  (v : json) :
  walkVersion p bvs (seen, (ds ++ q)%list) v
  = state_after ds (walkVersion p bvs (seen, q) v).
Proof.
  unfold walkVersion. cbn [fst snd].
  destruct (versionLabel_of p v) as [[lbl e0]|]; cbn [bind]; trivial.
  destruct (negb (truthy (Some v)) || negb (typeof_object v)); [reflexivity|].
  destruct (checkVersionName p lbl seen v) as [[s e1]|]; cbn [bind]; trivial.
  destruct (checkEntry lbl v) as [[[] e2]|]; cbn [bind]; trivial.
  destruct (checkDist lbl v) as [[[] e3]|]; cbn [bind]; trivial.
  destruct (checkPermissions lbl v) as [[[] e4]|]; cbn [bind]; trivial.
  destruct (compareOrQueue bvs lbl v) as [[qd e5]|]; cbn [bind ret state_after fst snd];
    trivial.
  now rewrite <- (app_assoc ds q qd).
Qed.

Lemma for_of_walkVersion_frame (p : json) bvs (vs : list json) :
  forall seen ds q,
    for_of (walkVersion p bvs) vs (seen, (ds ++ q)%list)
    = state_after ds (for_of (walkVersion p bvs) vs (seen, q)).
Proof.
  induction vs as [|v vs IH]; intros seen ds q; [reflexivity|].
  rewrite !for_of_cons, walkVersion_frame.
  destruct (walkVersion p bvs (seen, q) v) as [[[s1 q1] e1]|];
    cbn [state_after bind fst snd]; trivial.
  rewrite IH.
  now destruct (for_of (walkVersion p bvs) vs (s1, q1)) as [[[s2 q2] e2]|].
Qed.

Lemma walkPlugin_frame (bmap : list (string * json)) (ds q : list download) (p : json) :
  walkPlugin bmap (ds ++ q)%list p = queue_after ds (walkPlugin bmap q p).
Proof.
  unfold walkPlugin.
  destruct (negb (truthy (Some p)) || negb (typeof_object p)); [reflexivity|].
  destruct (prop p "versions") as [[| | | |vs|]|]; try reflexivity.
  rewrite for_of_walkVersion_frame.
  now destruct (for_of (walkVersion p (baseVersions_of (map_get bmap (prop p "id"))))
                       vs ([], q)) as [[[s q'] e]|].
Qed.

Lemma for_of_walkPlugin_frame (bmap : list (string * json)) (l : list json) :
  forall ds q,
    for_of (walkPlugin bmap) l (ds ++ q)%list
    = queue_after ds (for_of (walkPlugin bmap) l q).
Proof.
  induction l as [|p l IH]; intros ds q; [reflexivity|].
  rewrite !for_of_cons, walkPlugin_frame.
  destruct (walkPlugin bmap q p) as [[q1 e1]|]; cbn [queue_after bind]; trivial.
  rewrite IH.
  now destruct (for_of (walkPlugin bmap) l q1) as [[q2 e2]|].
Qed.

(** ** One plugin of an accepted index replaced *)

Lemma clean_step_unchanged (ps : list json) (st : plugin_state) (p : json)
  (d d' : list download) :
  for_of checkPlugin ps ([], []) = Done (st, []) ->
  In p ps ->
  walkPlugin (basePluginMap_of ps) d p = Done (d', []) ->
  d' = d.
Proof.
  intros H4 Hp Hw.
  apply in_split in Hp. destruct Hp as (l1 & l2 & E).
  pose proof H4 as H4'. rewrite E in H4'.
  apply clean_plugins_lookup in H4'. destruct H4' as (_ & id & _ & Hg).
  rewrite <- E in Hg.
  exact (walkPlugin_unchanged_queue _ _ _ _ Hw Hg).
Qed.

Lemma plugins_of_with_plugin_at (i : nat) (p' : json) (index : json) (ps : list json) :
  plugins_of index = ps -> prop index "plugins" = Some (JArr ps) ->
  plugins_of (with_plugin_at i p' index) = update_nth i (fun _ => p') ps.
Proof using. platform_free.
  intros _ H. unfold with_plugin_at.
  rewrite (plugins_of_update _ (update_nth i (fun _ => p')))
    by (intros a; now destruct a).
  now rewrite H.
Qed.

Lemma replaced_plugin_collect (baseIndex : json) (n i : nat) (p p' : json)
  (q : list download) :
  run baseIndex baseIndex = Done (n, []) ->
  nth_error (plugins_of baseIndex) i = Some p ->
  plugin_similar p p' ->
  walkPlugin (basePluginMap_of (plugins_of baseIndex)) [] p' = Done (q, []) ->
  collect baseIndex (with_plugin_at i p' baseIndex) = Done (q, []).
Proof.
  intros Hrun Hi Hsimp Hwp'.
  apply clean_run_stages in Hrun.
  destruct Hrun as (Nb & _ & E1 & E2 & E3 & st & ds & H4 & H5 & H6 & _).
  destruct (shape_errors_nil_plugins _ _ E2) as (ps & Hps).
  assert (Hpo : plugins_of baseIndex = ps) by (unfold plugins_of; now rewrite Hps).
  rewrite Hpo in *.
  set (bmap := basePluginMap_of ps) in *.
  destruct (update_nth_split (fun _ => p') _ _ _ Hi) as (l1 & l2 & Eps & Eps').
  (* the walk of the base index queues nothing *)
  pose proof H6 as H6'. rewrite Eps in H6'.
  apply for_of_split in H6'.
  destruct H6' as (d1 & d2 & e0 & e1 & e2 & Hw1 & Hwp & Hw2 & E0).
  symmetry in E0. apply app_eq_nil in E0. destruct E0 as [-> E0].
  apply app_eq_nil in E0. destruct E0 as [-> ->].
  assert (D1 : d1 = []).
  { apply (for_of_clean _ _ _ _ Hw1 (fun s => s = [])); trivial.
    intros s x s' Hx Hstep ->.
    apply (clean_step_unchanged ps st x [] s' H4); trivial.
    rewrite Eps. apply in_or_app. now left. }
  subst d1.
  assert (D2 : d2 = []).
  { apply (clean_step_unchanged ps st p [] d2 H4); trivial.
    exact (nth_error_In _ _ Hi). }
  subst d2.
  assert (D3 : ds = []).
  { apply (for_of_clean _ _ _ _ Hw2 (fun s => s = [])); trivial.
    intros s x s' Hx Hstep ->.
    apply (clean_step_unchanged ps st x [] s' H4); trivial.
    rewrite Eps. apply in_or_app. right. now right. }
  subst ds.
  (* the plugin entries *)
  assert (Hsim : Forall2 plugin_similar ps (update_nth i (fun _ => p') ps)).
  { rewrite Eps', Eps. apply Forall2_app.
    - apply Forall2_refl, plugin_similar_refl.
    - constructor; [exact Hsimp|]. apply Forall2_refl, plugin_similar_refl. }
  destruct (for_of_checkPlugin_sim _ _ Hsim _ ([], []) _ _ eq_refl
              (map_rel_refl _) H4) as (st' & H4' & _ & HR).
  pose proof (checkRemoved_rel _ _ bmap HR) as H5'.
  rewrite H5 in H5'.
  assert (H6n : for_of (walkPlugin bmap) (update_nth i (fun _ => p') ps) []
                = Done (q, [])).
  { rewrite Eps', for_of_app, Hw1. cbn [bind].
    rewrite for_of_cons, Hwp'. cbn [bind].
    rewrite <- (app_nil_r q) at 1.
    rewrite for_of_walkPlugin_frame, Hw2. cbn [queue_after].
    now rewrite app_nil_r. }
  assert (Hnp : with_plugin_at i p' baseIndex <> JNull).
  { unfold with_plugin_at. intros Hn. apply update_prop_null in Hn. contradiction. }
  assert (Es : shape_errors (with_plugin_at i p' baseIndex) "pr index.json" = []).
  { unfold with_plugin_at.
    rewrite shape_errors_update_plugins by (apply update_item_array_shape).
    exact E2. }
  assert (En : name_errors baseIndex (with_plugin_at i p' baseIndex) = []).
  { unfold with_plugin_at. rewrite name_errors_update_plugins_r. exact E3. }
  pose proof (collect_eq baseIndex (with_plugin_at i p' baseIndex)
                st' [] [] q [] Nb Hnp) as Hcol.
  rewrite Hpo, (plugins_of_with_plugin_at _ _ _ _ Hpo Hps) in Hcol.
  specialize (Hcol H4' H5' H6n).
  now rewrite E1, Es, En in Hcol.
Qed.

Lemma plugin_similar_versions (p : json) (vs l : list json) :
  prop p "versions" = Some (JArr vs) -> vs <> [] -> l <> [] ->
  plugin_similar p (with_versions l p).
Proof.
  intros Hvs Hne Hl. unfold with_versions.
  split; [now rewrite typeof_object_update_prop|].
  split; [now rewrite prop_update_prop_other by discriminate|].
  intros ids.
  unfold checkPluginFields, checkPluginId, checkReadme, push_plugin.
  rewrite !prop_update_prop_other by discriminate.
  rewrite prop_update_prop_same, Hvs. cbn [option_map].
  destruct vs; [contradiction|]. destruct l; [contradiction|]. reflexivity.
Qed.

(** ** The versions of a plugin whose list has changed *)

Lemma checkVersionName_fresh (p : json) lbl (seen0 seen : list string) (v : json)
  (x : list string) (ver : string) :
  checkVersionName p lbl seen0 v = Done (x, []) ->
  prop v "version" = Some (JStr ver) -> ~ In ver seen ->
  checkVersionName p lbl seen v = Done ((seen ++ [ver])%list, []).
Proof using. platform_free.
  intros H Hver Hnin.
  apply checkVersionName_clean in H. destruct H as (ver' & Hver' & Hne).
  assert (ver' = ver) by congruence. subst ver'.
  unfold checkVersionName. rewrite Hver, Hne. cbn [negb].
  apply existsb_eqb_false in Hnin. now rewrite Hnin.
Qed.

Lemma walkVersion_reseen (p : json) bvs (seen seen0 : list string)
  (ds : list download) (v : json) (st' : version_state) :
  walkVersion p bvs (seen, ds) v = Done (st', []) ->
  incl seen0 seen ->
  exists ver,
    prop v "version" = Some (JStr ver) /\
    fst st' = (seen ++ [ver])%list /\
    walkVersion p bvs (seen0, ds) v = Done (((seen0 ++ [ver])%list, snd st'), []).
Proof.
  intros H Hincl.
  pose proof (walkVersion_clean_object _ _ _ _ _ H) as Hobj.
  destruct (walkVersion_Done_inv _ _ _ _ _ _ H Hobj)
    as (lbl & seen' & e1 & e2 & e3 & e4 & q & e5
        & Hl & H1 & H2 & H3 & H4 & H5 & -> & E).
  apply app5_nil in E. destruct E as (-> & -> & -> & -> & ->).
  cbn [fst snd] in *.
  destruct (checkVersionName_clean _ _ _ _ _ H1) as (ver & Hver & Hne).
  assert (Hnin : ~ In ver seen).
  { intros Hin. unfold checkVersionName in H1. rewrite Hver, Hne in H1.
    cbn [negb] in H1.
    destruct (existsb (String.eqb ver) seen) eqn:Ex.
    - apply bind_clean_inv in H1. destruct H1 as (id & _ & H1).
      now apply push_bind_not_clean in H1.
    - apply existsb_eqb_false in Ex. contradiction. }
  exists ver. split; trivial.
  pose proof (checkVersionName_fresh _ _ _ seen _ _ _ H1 Hver Hnin) as F1.
  rewrite H1 in F1. injection F1 as ->. split; trivial.
  assert (Hnin0 : ~ In ver seen0) by (intros Hin; apply Hnin, Hincl, Hin).
  pose proof (checkVersionName_fresh _ _ _ seen0 _ _ _ H1 Hver Hnin0) as F0.
  exact (walkVersion_eq p bvs (seen0, ds) v lbl _ [] [] [] [] q [] Hobj Hl F0 H2 H3 H4 H5).
Qed.

Lemma clean_walk_weaken (p : json) bvs (vs : list json) :
  forall seen seen0 ds st',
    for_of (walkVersion p bvs) vs (seen, ds) = Done (st', []) ->
    incl seen0 seen ->
    exists seen0',
      for_of (walkVersion p bvs) vs (seen0, ds) = Done ((seen0', snd st'), [])
      /\ incl seen0' (fst st').
Proof.
  induction vs as [|v vs IH]; intros seen seen0 ds st' H Hincl.
  - injection H as <-. exists seen0. split; trivial.
  - rewrite for_of_cons in H. apply bind_clean_inv in H.
    destruct H as ([s1 d1] & Hv & Hrest).
    destruct (walkVersion_reseen _ _ _ seen0 _ _ _ Hv Hincl) as (ver & _ & Es & Hv0).
    cbn [fst snd] in *. subst s1.
    destruct (IH (seen ++ [ver])%list (seen0 ++ [ver])%list d1 st' Hrest)
      as (seen0' & Hrest0 & Hi0).
    { apply incl_app; [apply incl_appl, Hincl | apply incl_appr, incl_refl]. }
    exists seen0'. split; trivial.
    rewrite for_of_cons, Hv0. cbn [bind]. rewrite Hrest0. reflexivity.
Qed.

Lemma clean_walk_remove (p : json) bvs (vs : list json) :
  forall j seen seen0 ds st',
    for_of (walkVersion p bvs) vs (seen, ds) = Done (st', []) ->
    snd st' = ds ->
    (forall s w s', In w vs -> walkVersion p bvs s w = Done (s', []) -> snd s' = snd s) ->
    incl seen0 seen ->
    exists seen0',
      for_of (walkVersion p bvs) (remove_nth j vs) (seen0, ds) = Done ((seen0', ds), [])
      /\ incl seen0' (fst st').
Proof.
  induction vs as [|v vs IH]; intros j seen seen0 ds st' H Hq Hfix Hincl.
  - injection H as <-. destruct j; exists seen0; split; trivial.
  - rewrite for_of_cons in H. apply bind_clean_inv in H.
    destruct H as ([s1 d1] & Hv & Hrest).
    assert (Hd1 : d1 = ds) by exact (Hfix _ _ _ (or_introl eq_refl) Hv).
    subst d1.
    destruct (walkVersion_reseen _ _ _ seen0 _ _ _ Hv Hincl) as (ver & _ & Es & Hv0).
    cbn [fst snd] in *. subst s1.
    destruct j as [|j]; cbn [remove_nth].
    + destruct (clean_walk_weaken _ _ _ _ seen0 _ _ Hrest) as (seen0' & H0 & Hi0).
      { apply incl_appl, Hincl. }
      rewrite Hq in H0. eauto.
    + destruct (IH j (seen ++ [ver])%list (seen0 ++ [ver])%list ds st' Hrest Hq)
        as (seen0' & Hrest0 & Hi0).
      { intros s w s' Hw. apply Hfix. now right. }
      { apply incl_app; [apply incl_appl, Hincl | apply incl_appr, incl_refl]. }
      exists seen0'. split; trivial.
      rewrite for_of_cons, Hv0. cbn [bind]. rewrite Hrest0. reflexivity.
Qed.

Lemma for_of_walkVersion_seen (p : json) bvs (vs : list json) (st st' : version_state)
  (e : list string) (x : string) :
  for_of (walkVersion p bvs) vs st = Done (st', e) ->
  In x (fst st') ->
  In x (fst st) \/ exists w, In w vs /\ prop w "version" = Some (JStr x).
Proof.
  intros H.
  refine (for_of_inv (walkVersion p bvs)
            (fun s => In x (fst s) ->
               In x (fst st) \/ exists w, In w vs /\ prop w "version" = Some (JStr x))
            vs _ _ _ _ H _); [|auto].
  intros s w s' e' Hw Hstep Hs Hin.
  destruct (typeof_object w) eqn:Ho.
  - apply walkVersion_Done_inv in Hstep; trivial.
    destruct Hstep as (lbl & seen' & e1 & e2 & e3 & e4 & q & e5
                       & _ & H1 & _ & _ & _ & _ & -> & _).
    cbn [fst] in Hin. unfold checkVersionName in H1.
    destruct (prop w "version") as [[| | |ver| |]|] eqn:Hver;
      try (apply bind_Done_inv in H1; destruct H1 as (? & ? & ? & _ & H1 & _);
           unfold ret in H1; injection H1 as <- _; auto).
    destruct (negb (isNonEmptyString (Some (JStr ver)))).
    + apply bind_Done_inv in H1. destruct H1 as (? & ? & ? & _ & H1 & _).
      unfold ret in H1. injection H1 as <- _. auto.
    + destruct (existsb (String.eqb ver) (fst s)).
      * apply bind_Done_inv in H1. destruct H1 as (? & ? & ? & _ & H1 & _).
        apply bind_Done_inv in H1. destruct H1 as (? & ? & ? & _ & H1 & _).
        unfold ret in H1. injection H1 as <- _. auto.
      * unfold ret in H1. injection H1 as <- _.
        apply in_app_or in Hin. destruct Hin as [Hin|[<-|[]]]; auto.
        right. eauto.
  - apply walkVersion_not_object in Hstep; trivial. subst s'. auto.
Qed.

Lemma checkPlugin_clean_versions (st : plugin_state) (p : json) (st' : plugin_state)
  (vs : list json) :
  checkPlugin st p = Done (st', []) ->
  prop p "versions" = Some (JArr vs) -> vs <> [].
Proof.
  intros H Hvs.
  destruct (checkPlugin_clean _ _ _ H) as (Ho & _).
  unfold checkPlugin in H.
  rewrite Ho, (typeof_object_truthy _ Ho) in H. cbn [negb orb] in H.
  apply bind_clean_inv in H. destruct H as (ids1 & H & _).
  unfold checkPluginFields in H.
  apply bind_clean_inv in H. destruct H as (ids2 & _ & H).
  apply bind_clean_inv in H. destruct H as (u1 & _ & H).
  apply bind_clean_inv in H. destruct H as (u2 & _ & H).
  apply bind_clean_inv in H. destruct H as (u3 & _ & H).
  apply bind_clean_inv in H. destruct H as (u4 & H4 & _).
  apply when_push_plugin_clean in H4. rewrite Hvs in H4.
  intros ->. discriminate H4.
Qed.

Lemma clean_walk_of_plugin (baseIndex : json) (n i : nat) (p : json) (vs : list json) :
  run baseIndex baseIndex = Done (n, []) ->
  nth_error (plugins_of baseIndex) i = Some p ->
  prop p "versions" = Some (JArr vs) ->
  vs <> [] /\
  map_get (basePluginMap_of (plugins_of baseIndex)) (prop p "id") = Some p /\
  exists seen,
    for_of (walkVersion p (baseVersions_of (Some p))) vs ([], [])
    = Done ((seen, []), []).
Proof.
  intros Hrun Hi Hvs.
  apply clean_run_stages in Hrun.
  destruct Hrun as (_ & _ & _ & _ & _ & st & ds & H4 & _ & H6 & _).
  set (ps := plugins_of baseIndex) in *.
  destruct (nth_error_split _ _ Hi) as (l1 & l2 & Eps & _).
  assert (Hne : vs <> []).
  { pose proof H4 as H4'. rewrite Eps in H4'. apply for_of_split in H4'.
    destruct H4' as (s1 & s2 & e0 & e1 & e2 & _ & Hp & _ & E0).
    symmetry in E0. apply app_eq_nil in E0. destruct E0 as [_ E0].
    apply app_eq_nil in E0. destruct E0 as [-> _].
    exact (checkPlugin_clean_versions _ _ _ _ Hp Hvs). }
  assert (Hg : map_get (basePluginMap_of ps) (prop p "id") = Some p).
  { pose proof H4 as H4'. rewrite Eps in H4'.
    apply clean_plugins_lookup in H4'. destruct H4' as (_ & id & _ & Hg).
    now rewrite <- Eps in Hg. }
  repeat split; trivial.
  pose proof H6 as H6'. rewrite Eps in H6' at 2. apply for_of_split in H6'.
  destruct H6' as (d1 & d2 & e0 & e1 & e2 & Hw1 & Hwp & _ & E0).
  symmetry in E0. apply app_eq_nil in E0. destruct E0 as [-> E0].
  apply app_eq_nil in E0. destruct E0 as [-> _].
  assert (D1 : d1 = []).
  { apply (for_of_clean _ _ _ _ Hw1 (fun s => s = [])); trivial.
    intros s x s' Hx Hstep ->.
    apply (clean_step_unchanged ps st x [] s' H4); trivial.
    rewrite Eps. apply in_or_app. now left. }
  subst d1.
  assert (D2 : d2 = []).
  { apply (clean_step_unchanged ps st p [] d2 H4); trivial.
    exact (nth_error_In _ _ Hi). }
  subst d2.
  rewrite (walkPlugin_versions _ _ _ _ Hvs), Hg in Hwp.
  apply bind_clean_inv in Hwp. destruct Hwp as ([seen d] & Hwp & Hr).
  unfold ret in Hr. injection Hr as ->. eauto.
Qed.

Lemma clean_found_fix (p : json) (vs : list json) :
  prop p "versions" = Some (JArr vs) ->
  forall s w s',
    In w vs ->
    walkVersion p (baseVersions_of (Some p)) s w = Done (s', []) ->
    snd s' = snd s.
Proof.
  intros Hvs s w s' Hw Hstep.
  rewrite (baseVersions_of_plugin _ _ Hvs) in Hstep.
  destruct (clean_version_found _ vs _ _ _ _ Hstep Hw) as (bv & Hg & Ht).
  exact (walkVersion_found_queue _ _ _ _ _ _ _ Hstep Hg Ht).
Qed.

Lemma map_get_nil (k : value) : map_get [] k = None.
Proof. now destruct k as [[]|]. Qed.

Lemma baseVersions_lookup_None (p : json) (vs : list json) (ver : string) :
  prop p "versions" = Some (JArr vs) ->
  (forall w, In w vs -> prop w "version" <> Some (JStr ver)) ->
  map_get (baseVersions_of (Some p)) (Some (JStr ver)) = None.
Proof using. platform_free.
  intros Hvs Hno. rewrite (baseVersions_of_plugin _ _ Hvs). cbn [map_get].
  destruct (assoc_get String.eqb ver (fold_left (record_step "version") vs []))
    as [x|] eqn:E; trivial.
  exfalso.
  destruct (record_fold_keys "version" vs [] ver) as [N|(w & Hw & Hk)].
  - rewrite E. discriminate.
  - now apply N.
  - apply entry_key_inv in Hk. destruct Hk as (Hk & _). exact (Hno w Hw Hk).
Qed.

(** ** A plugin or a version judged alone *)

Lemma bind_ret_fmap {A B} (f : A -> B) (m : M A) :
  bind m (fun a => ret (f a)) = fmap f m.
Proof using. platform_free.
  destruct m as [[a e]|]; cbn; trivial. now rewrite app_nil_r.
Qed.

Lemma collect_stages_eq (baseIndex prIndex : json) :
  baseIndex <> JNull -> prIndex <> JNull ->
  shape_errors baseIndex "base index.json" = [] ->
  shape_errors prIndex "pr index.json" = [] ->
  name_errors baseIndex prIndex = [] ->
  collect baseIndex prIndex = collect_loops baseIndex prIndex.
Proof.
  intros Nb Np E1 E2 E3. unfold collect, collect_loops.
  rewrite !validateIndexShape_eq, E1, E2 by trivial. cbn [bind].
  unfold name_errors in E3.
  destruct (strict_equal (prop baseIndex "name") (prop prIndex "name"));
    [|discriminate E3].
  cbn [negb when]. rewrite bind_ret_l.
  now destruct (bind _ _) as [[a e]|].
Qed.

Lemma checkPluginId_fresh_log (ids : list string) (q : json) :
  (forall id, prop q "id" = Some (JStr id) -> ~ In id ids) ->
  fmap (fun _ => tt) (checkPluginId ids q) = fmap (fun _ => tt) (checkPluginId [] q).
Proof using. platform_free.
  intros H. unfold checkPluginId.
  destruct (prop q "id") as [[| | |id| |]|]; trivial.
  destruct (negb (isNonEmptyString (Some (JStr id))) || negb (isValidId id)); trivial.
  specialize (H id eq_refl). apply existsb_eqb_false in H. now rewrite H.
Qed.

Lemma checkPlugin_fresh_log (st : plugin_state) (q : json) :
  (forall id, prop q "id" = Some (JStr id) -> ~ In id (fst st)) ->
  fmap (fun _ => tt) (checkPlugin st q) = fmap (fun _ => tt) (checkPlugin ([], []) q).
Proof.
  intros H. unfold checkPlugin.
  destruct (negb (truthy (Some q)) || negb (typeof_object q)); trivial.
  unfold checkPluginFields. cbn [fst].
  pose proof (checkPluginId_fresh_log _ _ H) as E.
  destruct (checkPluginId (fst st) q) as [[x e]|],
           (checkPluginId [] q) as [[x0 e0]|]; try discriminate E; trivial.
  injection E as <-. cbn [bind].
  destruct (when (negb (isNonEmptyString (prop q "name")))
              (push_plugin q " missing name")) as [[[] e1]|]; trivial.
  cbn [bind].
  destruct (when _ (push_plugin q " description must be non-empty")) as [[[] e2]|];
    trivial.
  cbn [bind].
  destruct (checkReadme q) as [[[] e3]|]; trivial.
  cbn [bind].
  now destruct (when _ (push_plugin q " must have versions")) as [[[] e4]|].
Qed.

Lemma removed_ids_grown (baseIndex prIndex prIndex' : json) :
  removed_ids baseIndex prIndex = [] ->
  (forall id, has_plugin prIndex id = true -> has_plugin prIndex' id = true) ->
  removed_ids baseIndex prIndex' = [].
Proof using. platform_free.
  unfold removed_ids. rewrite !filter_nil_iff. intros H Hg k Hk.
  specialize (H k Hk). apply negb_false_iff in H. apply negb_false_iff. auto.
Qed.

Lemma clean_run_shapes (baseIndex : json) (n : nat) (l : list json) :
  run baseIndex baseIndex = Done (n, []) ->
  baseIndex <> JNull /\ with_plugins l baseIndex <> JNull /\
  plugins_of (with_plugins l baseIndex) = l /\
  (forall label, shape_errors baseIndex label = [] ->
                 shape_errors (with_plugins l baseIndex) label = []) /\
  shape_errors baseIndex "base index.json" = [] /\
  shape_errors baseIndex "pr index.json" = [] /\
  name_errors baseIndex baseIndex = [].
Proof.
  intros H. apply clean_run_stages in H.
  destruct H as (Nb & _ & E1 & E2 & E3 & _).
  destruct (shape_errors_nil_plugins _ _ E2) as (ps & Hps).
  repeat split; trivial.
  - unfold with_plugins. intros N. apply update_prop_null in N. contradiction.
  - exact (plugins_of_with_plugins _ _ _ Hps).
  - intros label E. now rewrite (shape_errors_with_plugins _ _ _ _ Hps).
Qed.

Lemma checkVersionName_fresh_log (p : json) lbl (seen seen0 : list string) (v : json) :
  (forall ver, prop v "version" = Some (JStr ver) -> ~ In ver seen /\ ~ In ver seen0) ->
  fmap (fun _ => tt) (checkVersionName p lbl seen v)
  = fmap (fun _ => tt) (checkVersionName p lbl seen0 v).
Proof using. platform_free.
  intros H. unfold checkVersionName.
  destruct (prop v "version") as [[| | |ver| |]|]; try reflexivity.
  destruct (negb (isNonEmptyString (Some (JStr ver)))); [reflexivity|].
  destruct (H ver eq_refl) as [N1 N2].
  apply existsb_eqb_false in N1. apply existsb_eqb_false in N2.
  rewrite N1, N2. reflexivity.
Qed.

Lemma walkVersion_fresh (p : json) bvs bvs0 (seen seen0 : list string)
  (ds : list download) (v : json) :
  (forall ver, prop v "version" = Some (JStr ver) -> ~ In ver seen /\ ~ In ver seen0) ->
  map_get bvs (prop v "version") = map_get bvs0 (prop v "version") ->
  fmap snd (walkVersion p bvs (seen, ds) v) = fmap snd (walkVersion p bvs0 (seen0, ds) v).
Proof.
  intros H Hm. unfold walkVersion.
  destruct (versionLabel_of p v) as [[lbl e]|]; [|reflexivity]. cbn [bind].
  destruct (negb (truthy (Some v)) || negb (typeof_object v)); [reflexivity|].
  cbn [fst snd].
  pose proof (checkVersionName_fresh_log p lbl seen seen0 v H) as EL.
  assert (EC : compareOrQueue bvs lbl v = compareOrQueue bvs0 lbl v)
    by (unfold compareOrQueue; now rewrite Hm).
  rewrite EC.
  destruct (checkVersionName p lbl seen v) as [[s1 e1]|],
           (checkVersionName p lbl seen0 v) as [[s2 e2]|];
    try discriminate EL; [|reflexivity].
  injection EL as <-. cbn [bind].
  destruct (checkEntry lbl v) as [[[] e3]|]; [|reflexivity]. cbn [bind].
  destruct (checkDist lbl v) as [[[] e4]|]; [|reflexivity]. cbn [bind].
  destruct (checkPermissions lbl v) as [[[] e5]|]; [|reflexivity]. cbn [bind].
  destruct (compareOrQueue bvs0 lbl v) as [[q e6]|]; reflexivity.
Qed.

Lemma replaced_plugin_collect_eq (baseIndex : json) (n i : nat) (p p' : json) :
  run baseIndex baseIndex = Done (n, []) ->
  nth_error (plugins_of baseIndex) i = Some p ->
  plugin_similar p p' ->
  collect baseIndex (with_plugin_at i p' baseIndex)
  = walkPlugin (basePluginMap_of (plugins_of baseIndex)) [] p'.
Proof.
  intros Hrun Hi Hsimp.
  apply clean_run_stages in Hrun.
  destruct Hrun as (Nb & _ & E1 & E2 & E3 & st & ds & H4 & H5 & H6 & _).
  destruct (shape_errors_nil_plugins _ _ E2) as (ps & Hps).
  assert (Hpo : plugins_of baseIndex = ps) by (unfold plugins_of; now rewrite Hps).
  rewrite Hpo in *.
  set (bmap := basePluginMap_of ps) in *.
  destruct (update_nth_split (fun _ => p') _ _ _ Hi) as (l1 & l2 & Eps & Eps').
  pose proof H6 as H6'. rewrite Eps in H6'.
  apply for_of_split in H6'.
  destruct H6' as (d1 & d2 & e0 & e1 & e2 & Hw1 & Hwp & Hw2 & E0).
  symmetry in E0. apply app_eq_nil in E0. destruct E0 as [-> E0].
  apply app_eq_nil in E0. destruct E0 as [-> ->].
  assert (D1 : d1 = []).
  { apply (for_of_clean _ _ _ _ Hw1 (fun s => s = [])); trivial.
    intros s x s' Hx Hstep ->.
    apply (clean_step_unchanged ps st x [] s' H4); trivial.
    rewrite Eps. apply in_or_app. now left. }
  subst d1.
  assert (D2 : d2 = []).
  { apply (clean_step_unchanged ps st p [] d2 H4); trivial.
    exact (nth_error_In _ _ Hi). }
  subst d2.
  assert (D3 : ds = []).
  { apply (for_of_clean _ _ _ _ Hw2 (fun s => s = [])); trivial.
    intros s x s' Hx Hstep ->.
    apply (clean_step_unchanged ps st x [] s' H4); trivial.
    rewrite Eps. apply in_or_app. right. now right. }
  subst ds.
  assert (Hsim : Forall2 plugin_similar ps (update_nth i (fun _ => p') ps)).
  { rewrite Eps', Eps. apply Forall2_app.
    - apply Forall2_refl, plugin_similar_refl.
    - constructor; [exact Hsimp|]. apply Forall2_refl, plugin_similar_refl. }
  destruct (for_of_checkPlugin_sim _ _ Hsim _ ([], []) _ _ eq_refl
              (map_rel_refl _) H4) as (st' & H4' & _ & HR).
  pose proof (checkRemoved_rel _ _ bmap HR) as H5'.
  rewrite H5 in H5'.
  assert (Hnp : with_plugin_at i p' baseIndex <> JNull).
  { unfold with_plugin_at. intros Hn. apply update_prop_null in Hn. contradiction. }
  assert (Es : shape_errors (with_plugin_at i p' baseIndex) "pr index.json" = []).
  { unfold with_plugin_at.
    rewrite shape_errors_update_plugins by (apply update_item_array_shape).
    exact E2. }
  assert (En : name_errors baseIndex (with_plugin_at i p' baseIndex) = []).
  { unfold with_plugin_at. rewrite name_errors_update_plugins_r. exact E3. }
  rewrite collect_stages_eq by trivial. unfold collect_loops.
  rewrite Hpo, (plugins_of_with_plugin_at _ _ _ _ Hpo Hps). fold bmap.
  rewrite H4'. cbn [bind]. rewrite H5'. cbn [bind].
  rewrite Eps', for_of_app, Hw1. cbn [bind]. rewrite for_of_cons.
  destruct (walkPlugin bmap [] p') as [[q e]|]; [|reflexivity]. cbn [bind].
  rewrite <- (app_nil_r q) at 1.
  rewrite for_of_walkPlugin_frame, Hw2. cbn. now rewrite !app_nil_r.
Qed.

Lemma clean_plugin_alone (baseIndex : json) (n i : nat) (p p1 : json) :
  run baseIndex baseIndex = Done (n, []) ->
  nth_error (plugins_of baseIndex) i = Some p ->
  plugin_similar p p1 ->
  exists st1, checkPlugin ([], []) p1 = Done (st1, []).
Proof.
  intros Hrun Hi Hsim.
  apply clean_run_stages in Hrun.
  destruct Hrun as (_ & _ & _ & _ & _ & st & ds & H4 & _).
  destruct (nth_error_split _ _ Hi) as (l1 & l2 & Eps & _).
  rewrite Eps in H4. apply for_of_split in H4.
  destruct H4 as (s1 & s2 & e0 & e1 & e2 & _ & Hp & _ & E0).
  symmetry in E0. apply app_eq_nil in E0. destruct E0 as [_ E0].
  apply app_eq_nil in E0. destruct E0 as [-> _].
  destruct (checkPlugin_clean _ _ _ Hp) as (_ & id & Hid & _).
  pose proof (checkPlugin_fresh s1 ([], []) p s2 id Hp Hid (fun x => x)) as Hp0.
  destruct (checkPlugin_sim p p1 _ ([], []) _ _ Hsim eq_refl (map_rel_refl _) Hp0)
    as (st1 & H1 & _).
  eauto.
Qed.

(** * The claims *)


(** C3 (as amended).  Let the validator accept the base index proposed
    unchanged, and let the proposal be the base index with one
    character of the dist.sha256 of one published version replaced by
    another character.  Then validation ends with ok = false and with
    the "modifies existing version" error of that version's label as
    its last error; it is the only error when the new sha256 still is
    64 hexadecimal digits (of either case), and it is preceded by that
    version's dist shape error, and by nothing else, when it is not. *)
Theorem tampered_sha256_is_reported (baseIndex : json) (i j : nat) (p v : json)
  (pre post : string) (c c' : ascii) :
  validate baseIndex baseIndex = Done {| ok := true; errors := [] |} ->
  json_wf baseIndex = true ->
  version_at baseIndex i j = Some (p, v) ->
  opt_prop (prop v "dist") "sha256" = Some (JStr (pre ++ String c post)) ->
  c <> c' ->
  exists versionLabel,
    versionLabel_of p v = Done (versionLabel, []) /\
    validate baseIndex (tamper_sha256 i j (pre ++ String c' post) baseIndex)
    = Done {| ok := false;
              errors :=
                ((if isValidSha256 (toLowerCase (pre ++ String c' post)) then []
                  else [msg_dist versionLabel])
                 ++ [msg_modifies versionLabel])%list |}.
Proof.
  intros Hok Hwf Hat Hsha Hc.
  apply validate_Done_inv in Hok. destruct Hok as (n & Hrun & _).
  cbn [errors] in Hrun.
  destruct (tampered_run _ _ _ _ _ _ _ _ c' _ Hrun Hwf Hat Hsha Hc)
    as (lbl & Hlbl & Hrun').
  exists lbl. split; trivial.
  rewrite (validate_eq _ _ _ _ Hrun'). unfold tamper_errors.
  f_equal. f_equal.
  now destruct (isValidSha256 (toLowerCase (pre ++ String c' post))).
Qed.

(** C4.  Listing the properties of objects in another order, at any
    depth, leaves stableStringify unchanged; hence a proposed version
    that is the base version with its keys reordered is compared equal:
    no "modifies existing version" error is pushed and nothing is
    queued. *)
Theorem canonical_form_ignores_key_order (v v' : json) :
  json_wf v = true -> key_permuted v v' ->
  stableStringify v = stableStringify v' /\
  forall (baseVersions : list (string * json)) (versionLabel : string),
    map_get baseVersions (prop v' "version") = Some v ->
    compareOrQueue baseVersions versionLabel v' = Done ([], []).
Proof using. platform_free.
  intros Hwf KP.
  assert (E : stableStringify v = stableStringify v')
    by (unfold stableStringify; now rewrite (stableObject_key_permuted _ _ Hwf KP)).
  split; trivial.
  intros bvs lbl Hget.
  assert (Htr : truthy (Some v) = true).
  { destruct v'; try discriminate. inversion KP; subst. reflexivity. }
  rewrite (compareOrQueue_found _ _ _ _ Hget Htr), E.
  now rewrite String.eqb_refl.
Qed.


(** C6 (as amended).  On every parsed document other than null,
    validateIndexShape does not throw.  It pushes one error when
    schemaVersion is not 1 and one when name is not a non-empty
    string, each whatever the other checks find.  Only when plugins is
    not an array does it push a third error and return the empty list;
    otherwise it returns the document's plugin list, also when
    schemaVersion or name has been reported. *)
Theorem validateIndexShape_result (index : json) (label : string) :
  index <> JNull ->
  validateIndexShape index label
  = Done (match prop index "plugins" with
          | Some (JArr plugins) => plugins
          | _ => []
          end,
          ((if strict_equal (prop index "schemaVersion") (Some (JNum 1)) then []
            else [(label ++ ": schemaVersion must be 1")%string])
           ++ (if isNonEmptyString (prop index "name") then []
               else [(label ++ ": name is required")%string])
           ++ (match prop index "plugins" with
               | Some (JArr _) => []
               | _ => [(label ++ ": plugins must be an array")%string]
               end))%list).
Proof. exact (validateIndexShape_eq index label). Qed.

(** C7.  A dist.sha256 of 64 hexadecimal digits with capitals passes
    the sha256 part of the shape check (with type "tgz" and a non-empty
    url the dist block is not reported); the queued item carries the
    lower-cased string, and checkDownload compares the digest of the
    fetched bytes with that lower-cased string. *)
Theorem mixed_case_sha256_is_lowered (v : json) (s versionLabel : string) :
  opt_prop (prop v "dist") "sha256" = Some (JStr s) ->
  String.length s = 64%nat ->
  string_forallb hex_any s = true ->
  isValidSha256 (toLowerCase s) = true /\
  (strict_equal (opt_prop (prop v "dist") "type") (Some (JStr "tgz")) = true ->
   isNonEmptyString (opt_prop (prop v "dist") "url") = true ->
   dist_malformed v = Done (false, [])) /\
  (forall u, opt_prop (prop v "dist") "url" = Some u -> truthy (Some u) = true ->
     queueDownload versionLabel v
     = Done ([ {| label := versionLabel; url := u; sha256 := toLowerCase s |} ], [])) /\
  (forall n u resp,
     fetch n u = Some resp -> response_ok resp = true ->
     checkDownload n {| label := versionLabel; url := u; sha256 := toLowerCase s |}
     = Done (S n, if sha256_hex (body resp) =? toLowerCase s then []
                  else [msg_mismatch versionLabel])).
Proof.
  intros Hsha HL HH.
  pose proof (mixed_case_sha256_valid _ HL HH) as Hvalid.
  assert (Hs : s <> EmptyString) by (intros ->; discriminate).
  assert (Ht : truthy (Some (JStr s)) = true).
  { simpl. destruct (String.eqb_spec s EmptyString); [contradiction|reflexivity]. }
  split; trivial. split; [|split].
  - intros Hty Hurl.
    rewrite (dist_malformed_eq v s); trivial.
    + now rewrite Hvalid.
    + destruct (prop v "dist") as [[]|]; try discriminate; reflexivity.
    + rewrite Hsha. apply ToString_or_else_str.
  - intros u Hu Htu. unfold queueDownload. rewrite Hu, Hsha, Htu, Ht.
    reflexivity.
  - intros n u resp Hf Hok. unfold checkDownload. cbn [url label sha256].
    rewrite Hf, Hok. cbn [negb]. unfold when.
    now destruct (sha256_hex (body resp) =? toLowerCase s).
Qed.


(** C9.  A base plugin whose id is not a non-empty string is not
    recorded in basePluginMap: no entry is found under its id, so the
    removal loop never visits it and no proposed plugin is compared
    with its versions; the run gives the same outcome as on the base
    index without that plugin, whatever the proposal contains. *)
Theorem unrecorded_base_plugin_is_ignored (baseIndex prIndex : json) (i : nat)
  (p : json) :
  nth_error (plugins_of baseIndex) i = Some p ->
  isNonEmptyString (opt_prop (Some p) "id") = false ->
  map_get (basePluginMap_of (plugins_of baseIndex)) (opt_prop (Some p) "id") = None /\
  validate (without_plugin i baseIndex) prIndex = validate baseIndex prIndex.
Proof.
  intros Hi Hbad. split.
  - destruct (opt_prop (Some p) "id") as [[| | |k| |]|] eqn:Ek; trivial.
    cbn [map_get].
    destruct (assoc_get String.eqb k (basePluginMap_of (plugins_of baseIndex)))
      as [x|] eqn:Eg; trivial.
    exfalso. rewrite basePluginMap_of_eq in Eg.
    destruct (record_fold_keys "id" (plugins_of baseIndex) [] k) as [H|(q & _ & Hq)].
    + rewrite Eg. discriminate.
    + now apply H.
    + apply entry_key_inv in Hq. destruct Hq as (_ & Hne & _). congruence.
  - unfold validate. rewrite (run_eq_of_stages baseIndex); trivial.
    + unfold without_plugin. symmetry. apply update_prop_null.
    + unfold without_plugin. apply shape_errors_update_plugins.
      intros a. now destruct a.
    + unfold without_plugin. now rewrite prop_update_prop_other by discriminate.
    + unfold without_plugin.
      rewrite (plugins_of_update _ (remove_nth i)) by (intros a; now destruct a).
      unfold plugins_of in *.
      destruct (prop baseIndex "plugins") as [[| | | |ps|]|];
        try (destruct i; discriminate).
      rewrite !basePluginMap_of_eq.
      apply (record_fold_remove_nth "id" ps i p); trivial.
      now apply entry_key_None.
Qed.


(** * Further properties *)

(** ** The helper predicates and the field checks *)

(** X1.  isNonEmptyString (lines 19-21) accepts exactly the strings that
    hold a character other than white space: a string of spaces, tabs
    or line ends is rejected like the empty string, and so is every
    value that is not a string. *)
Theorem isNonEmptyString_iff (v : value) :
  isNonEmptyString v = true <->
  exists s, v = Some (JStr s) /\ string_forallb is_white_space s = false.
Proof using. platform_free. exact (isNonEmptyString_visible v). Qed.

(** X2.  The entry check of lines 168-170 passes exactly when entry is
    an object whose type is the string file and whose path is a string
    that starts with dist/; whatever follows dist/ is accepted.  In
    every other case it pushes its one message, and it never throws. *)
Theorem entry_check_accepts_iff (versionLabel : string) (version : json) :
  (checkEntry versionLabel version = Done (tt, []) <->
   exists entry rest,
     prop version "entry" = Some entry /\
     prop entry "type" = Some (JStr "file") /\
     prop entry "path" = Some (JStr ("dist/" ++ rest))) /\
  (checkEntry versionLabel version = Done (tt, []) \/
   checkEntry versionLabel version
   = Done (tt, [msg_version versionLabel
                  (" entry must be type " ++ dq ++ "file" ++ dq ++ " with dist/ path")])).
Proof using. platform_free.
  unfold checkEntry.
  set (entry := prop version "entry").
  set (msg := msg_version versionLabel _).
  destruct (negb (truthy entry)
            || negb (strict_equal (opt_prop entry "type") (Some (JStr "file")))
            || negb (isValidPath (opt_prop entry "path"))) eqn:C; cbn [when].
  - split; [|now right]. split; [discriminate|].
    intros (e & rest & He & Hty & Hpath). exfalso.
    fold entry in He. rewrite He in C.
    assert (Hobj : typeof_object e = true) by exact (prop_Some_object _ _ _ Hty).
    assert (Ho : forall k, opt_prop (Some e) k = prop e k) by (now destruct e).
    rewrite (typeof_object_truthy _ Hobj), !Ho, Hty, Hpath in C.
    cbn [negb orb strict_equal] in C. rewrite String.eqb_refl in C.
    unfold isValidPath in C. rewrite isNonEmptyString_str in C.
    unfold startsWith in C.
    rewrite (proj2 (prefix_iff "dist/" ("dist/" ++ rest))) in C by eauto.
    discriminate C.
  - split; [|now left]. split; [|reflexivity]. intros _.
    apply orb_false_iff in C. destruct C as [C C3].
    apply orb_false_iff in C. destruct C as [C1 C2].
    apply negb_false_iff in C1, C2, C3.
    destruct entry as [e|] eqn:He; [|discriminate C1].
    assert (Hne : e <> JNull) by (intros ->; discriminate C1).
    assert (Ho : forall k, opt_prop (Some e) k = prop e k) by (now destruct e).
    rewrite Ho in C2, C3. apply strict_equal_str in C2.
    unfold isValidPath in C3. apply andb_true_iff in C3. destruct C3 as [_ C3].
    destruct (prop e "path") as [[| | |s| |]|] eqn:Hpath; try discriminate C3.
    apply prefix_iff in C3. destruct C3 as (rest & ->).
    exists e, rest. auto.
Qed.

(** X3.  For a version whose numbers are safe integers, the test of
    line 172 lets the dist block pass exactly when dist is an object
    whose type is the string tgz, whose url is a string with a character
    other than white space, and whose sha256, falsy values replaced by
    the empty string, converts to 64 hexadecimal digits of either case;
    a sha256 need not be a string for that: an array holding one such
    string passes. *)
Theorem dist_shape_accepts_iff (version : json) :
  safe_numbers version = true ->
  dist_malformed version = Done (false, []) <->
  exists dist u s,
    prop version "dist" = Some dist /\
    prop dist "type" = Some (JStr "tgz") /\
    prop dist "url" = Some (JStr u) /\
    string_forallb is_white_space u = false /\
    ToString (or_else (prop dist "sha256") EmptyString) = Some s /\
    String.length s = 64%nat /\
    string_forallb hex_any s = true.
Proof using. platform_free.
  intros _. split.
  - intros H. apply dist_malformed_false_inv in H.
    destruct H as (_ & Ht & Hty & Hu & s & Hs & Hv).
    destruct (prop version "dist") as [d|] eqn:Hd; [|discriminate Ht].
    assert (Ho : forall k, opt_prop (Some d) k = prop d k)
      by (destruct d; trivial; discriminate Ht).
    rewrite Ho in *. apply strict_equal_str in Hty.
    apply isNonEmptyString_visible in Hu. destruct Hu as (u & Hu & Hw).
    apply isValidSha256_lower_iff in Hv. destruct Hv as [HL HH].
    exists d, u, s. auto 8.
  - intros (d & u & s & Hd & Hty & Hu & Hw & Hs & HL & HH).
    assert (Hobj : typeof_object d = true) by exact (prop_Some_object _ _ _ Hty).
    assert (Ho : forall k, opt_prop (Some d) k = prop d k) by (now destruct d).
    rewrite (dist_malformed_eq version s); rewrite ?Hd, ?Ho; trivial.
    + now rewrite (mixed_case_sha256_valid s HL HH).
    + now apply typeof_object_truthy.
    + rewrite Hty. cbn [strict_equal]. apply String.eqb_refl.
    + rewrite Hu, isNonEmptyString_str. now rewrite Hw.
Qed.

(** ** The canonical form *)

(** X4.  For parsed values whose numbers are safe integers (the two
    zeros being one number) and which have no property named __proto__,
    the canonical texts of stableStringify are equal exactly when the
    values are the same up to the order in which their objects list
    their properties, at any depth.  So a proposed version that carries the version string of a
    published one is reported as modifying it exactly when it differs
    from it by more than the order of keys. *)
Theorem canonical_text_equal_iff (v v' : json) :
  json_wf v = true -> json_wf v' = true ->
  safe_numbers v = true -> safe_numbers v' = true ->
  proto_free v = true -> proto_free v' = true ->
  (stableStringify v = stableStringify v' <-> key_permuted v v') /\
  forall (baseVersions : list (string * json)) (versionLabel : string),
    map_get baseVersions (prop v' "version") = Some v ->
    truthy (Some v) = true ->
    (compareOrQueue baseVersions versionLabel v'
     = Done ([], [msg_modifies versionLabel]) <-> ~ key_permuted v v').
Proof using. platform_free.
  intros Hwf Hwf' _ _ Hp Hp'.
  assert (E : stableStringify v = stableStringify v' <-> key_permuted v v').
  { split.
    - intros H. apply stable_key_permuted; trivial.
      now apply stableStringify_inj.
    - intros H. unfold stableStringify.
      now rewrite (stableObject_key_permuted _ _ Hwf H). }
  split; trivial.
  intros bvs lbl Hget Ht. rewrite (compareOrQueue_found _ _ _ _ Hget Ht).
  destruct (String.eqb_spec (stableStringify v) (stableStringify v')) as [Q|Q].
  - split; [discriminate|]. intros N. exfalso. now apply N, E.
  - split; trivial. intros _ H. now apply Q, E.
Qed.

(** X5.  The canonical form drops every property named __proto__, at
    any depth: the assignment of line 43 reaches the inherited setter
    and creates no property.  A proposed version that differs from the
    published one only in such properties is therefore compared equal:
    no error is pushed and nothing is queued. *)
Theorem proto_properties_are_ignored (v : json) :
  json_wf v = true ->
  stableStringify (without_proto v) = stableStringify v /\
  forall (baseVersion : json) (baseVersions : list (string * json))
         (versionLabel : string),
    json_wf baseVersion = true ->
    without_proto baseVersion = without_proto v ->
    map_get baseVersions (prop v "version") = Some baseVersion ->
    compareOrQueue baseVersions versionLabel v = Done ([], []).
Proof using. platform_free.
  intros Hwf.
  assert (E : forall x, json_wf x = true ->
                        stableStringify (without_proto x) = stableStringify x).
  { intros x Hx. unfold stableStringify. now rewrite stableObject_without_proto. }
  split; auto.
  intros bv bvs lbl Hwfb Hsame Hget.
  assert (Ht : truthy (Some bv) = true).
  { destruct v as [| | | | |props]; try discriminate Hget.
    destruct bv; try discriminate Hsame; reflexivity. }
  rewrite (compareOrQueue_found _ _ _ _ Hget Ht).
  rewrite <- (E bv Hwfb), <- (E v Hwf), Hsame.
  now rewrite String.eqb_refl.
Qed.

(** X6.  stableObject is idempotent on parsed values: the canonical
    form of a canonical form is that canonical form, so comparing
    stored canonical forms gives the same verdict as comparing the
    documents they came from. *)
Theorem stableObject_is_idempotent (v : json) :
  json_wf v = true ->
  stableObject (stableObject v) = stableObject v /\
  stableStringify (stableObject v) = stableStringify v.
Proof using. platform_free.
  intros Hwf. pose proof (stableObject_idem v Hwf) as H.
  split; trivial. unfold stableStringify. now rewrite H.
Qed.


(** ** The plugin entries, the versions and the removal loop *)

(** X7.  When two entries of the proposed plugin list carry the same id,
    a string that matches the id pattern, the run reports the id as a
    duplicate and the result has ok = false, whatever else the documents
    hold. *)
Theorem duplicate_plugin_id_is_reported (baseIndex prIndex : json) (r : result)
  (i j : nat) (q1 q2 : json) (id : string) :
  validate baseIndex prIndex = Done r ->
  nth_error (plugins_of prIndex) i = Some q1 ->
  nth_error (plugins_of prIndex) j = Some q2 ->
  (i < j)%nat ->
  prop q1 "id" = Some (JStr id) -> prop q2 "id" = Some (JStr id) ->
  isValidId id = true ->
  In (msg_duplicate_id id) (errors r) /\ ok r = false.
Proof.
  intros Hv Hi Hj Hlt H1 H2 Hid.
  apply validate_Done_inv in Hv. destruct Hv as (n & Hrun & Hok).
  assert (Hin : In (msg_duplicate_id id) (errors r)).
  { apply run_Done_inv in Hrun. destruct Hrun as (ds & e1 & e2 & Hc & _ & ->).
    apply collect_Done_inv in Hc.
    destruct Hc as (_ & _ & st & e4 & e5 & e6 & H4 & _ & _ & ->).
    pose proof (duplicate_id_logged _ _ _ _ _ _ _ _ _ H4 Hi Hj Hlt H1 H2 Hid).
    rewrite !in_app_iff. tauto. }
  split; trivial. eapply not_ok_of_In; eauto.
Qed.

(** X8.  When two versions of one proposed plugin carry the same version
    string (with a character other than white space), the run reports
    the duplicate, naming the plugin by the conversion of its id, and
    the result has ok = false. *)
Theorem duplicate_version_is_reported (baseIndex prIndex : json) (r : result)
  (p : json) (vs : list json) (i j : nat) (v1 v2 : json) (ver : string) :
  validate baseIndex prIndex = Done r ->
  In p (plugins_of prIndex) ->
  prop p "versions" = Some (JArr vs) ->
  nth_error vs i = Some v1 -> nth_error vs j = Some v2 -> (i < j)%nat ->
  prop v1 "version" = Some (JStr ver) -> prop v2 "version" = Some (JStr ver) ->
  isNonEmptyString (Some (JStr ver)) = true ->
  exists id,
    ToString (prop p "id") = Some id /\
    In (msg_duplicate_version ver id) (errors r) /\ ok r = false.
Proof.
  intros Hv Hp Hvs Hi Hj Hlt H1 H2 Hne.
  apply validate_Done_inv in Hv. destruct Hv as (n & Hrun & Hok).
  apply run_Done_inv in Hrun. destruct Hrun as (ds & e1 & e2 & Hc & _ & He).
  apply collect_Done_inv in Hc.
  destruct Hc as (_ & _ & st & e4 & e5 & e6 & _ & _ & H6 & ->).
  apply in_split in Hp. destruct Hp as (l1 & l2 & Hl). rewrite Hl in H6.
  apply for_of_split in H6.
  destruct H6 as (s1 & s2 & f0 & f1 & f2 & _ & Hw & _ & ->).
  rewrite (walkPlugin_versions _ _ _ _ Hvs) in Hw.
  apply bind_Done_inv in Hw. destruct Hw as (st' & g1 & g2 & Hw & Hr & ->).
  destruct (duplicate_version_logged _ _ _ _ _ _ _ _ _ _ _ Hw Hi Hj Hlt H1 H2 Hne)
    as (id & Hid & Hin).
  exists id. split; trivial.
  assert (Hin' : In (msg_duplicate_version ver id) (errors r)).
  { rewrite He, !in_app_iff. tauto. }
  split; trivial. eapply not_ok_of_In; eauto.
Qed.

(** X9.  The errors of a result come in the order of the script's
    phases: the shape errors of the base index, those of the proposed
    index, the changed top-level name, what the loop over the proposed
    plugin entries pushed, one "removed" message for each removed plugin,
    what the walk over the versions pushed, and last what the download
    loop pushed.  The removed plugins are the ids, non-empty strings, of
    base plugins that no proposed entry carries; each is reported once. *)
Theorem errors_follow_the_phases (baseIndex prIndex : json) (r : result) :
  validate baseIndex prIndex = Done r ->
  (exists st e_plugins ds e_versions n e_downloads,
     for_of checkPlugin (plugins_of prIndex) ([], []) = Done (st, e_plugins) /\
     for_of (walkPlugin (basePluginMap_of (plugins_of baseIndex)))
            (plugins_of prIndex) [] = Done (ds, e_versions) /\
     for_of checkDownload ds 0%nat = Done (n, e_downloads) /\
     errors r
     = (shape_errors baseIndex "base index.json"
        ++ shape_errors prIndex "pr index.json"
        ++ name_errors baseIndex prIndex
        ++ e_plugins
        ++ map msg_removed (removed_ids baseIndex prIndex)
        ++ e_versions ++ e_downloads)%list) /\
  NoDup (removed_ids baseIndex prIndex) /\
  (forall id,
     In id (removed_ids baseIndex prIndex) <->
     has_plugin baseIndex id = true
     /\ isNonEmptyString (Some (JStr id)) = true
     /\ has_plugin prIndex id = false).
Proof.
  intros Hv. split; [|split].
  - apply validate_Done_inv in Hv. destruct Hv as (n & Hrun & _).
    apply run_Done_inv in Hrun. destruct Hrun as (ds & e1 & e2 & Hc & Hd & He).
    apply collect_Done_inv in Hc.
    destruct Hc as (_ & _ & st & e4 & e5 & e6 & H4 & H5 & H6 & ->).
    rewrite (removed_log baseIndex prIndex st e4 H4) in H5.
    injection H5 as <-.
    exists st, e4, ds, e6, n, e2. repeat split; trivial.
    rewrite He. now rewrite <- !app_assoc.
  - apply NoDup_removed_ids.
  - apply removed_ids_spec.
Qed.

(** ** The download loop *)

(** X10.  The download loop makes one request for each queued item, the
    n-th request for the n-th item, and pushes its messages after all
    the others, in queue order: for each item nothing, or the failure
    message of a response that is not ok, or the mismatch message of a
    digest other than the item's sha256. *)
Theorem downloads_are_checked_in_queue_order (baseIndex prIndex : json) (r : result) :
  validate baseIndex prIndex = Done r ->
  exists ds e rs,
    collect baseIndex prIndex = Done (ds, e) /\
    List.length rs = List.length ds /\
    (forall i item, nth_error ds i = Some item ->
                    fetch i (url item) = nth_error rs i) /\
    errors r
    = (e ++ flat_map (fun ir => download_errors (fst ir) (snd ir))
                     (combine ds rs))%list.
Proof.
  intros Hv. apply validate_Done_inv in Hv. destruct Hv as (n & Hrun & _).
  apply run_Done_inv in Hrun. destruct Hrun as (ds & e1 & e2 & Hc & Hd & He).
  apply for_of_checkDownload in Hd. destruct Hd as (_ & rs & Hlen & Hrs & ->).
  exists ds, e1, rs. auto.
Qed.

(** X11.  A request whose promise is rejected ends the run with an
    uncaught exception: there is no result, and the errors found before
    are lost with it. *)
Theorem rejected_fetch_aborts_the_run (baseIndex prIndex : json)
  (ds : list download) (e : list string) (i : nat) (item : download) :
  collect baseIndex prIndex = Done (ds, e) ->
  nth_error ds i = Some item ->
  fetch i (url item) = None ->
  validate baseIndex prIndex = Throw.
Proof.
  intros Hc Hi Hf. apply validate_Throw. unfold run. rewrite Hc. cbn [bind].
  now rewrite (for_of_checkDownload_rejected ds 0%nat i item Hi Hf).
Qed.

(** X12.  A proposed plugin with at least one version and an id that
    cannot be converted to a string (an object with a property named
    toString, or an array that holds one) ends the run with an uncaught
    TypeError, at line 155 at the latest, whatever the base index is:
    no result is produced. *)
Theorem unconvertible_id_aborts_the_run (baseIndex prIndex : json)
  (p idv v : json) (vs : list json) :
  In p (plugins_of prIndex) ->
  prop p "id" = Some idv -> toString idv = None ->
  prop p "versions" = Some (JArr (v :: vs)) ->
  validate baseIndex prIndex = Throw.
Proof.
  intros Hp Hid Hs Hvs. apply validate_Throw, run_Throw_collect.
  destruct (collect baseIndex prIndex) as [[ds e]|] eqn:Hc; trivial.
  apply collect_Done_inv in Hc.
  destruct Hc as (_ & _ & st & e4 & e5 & e6 & _ & _ & H6 & _).
  rewrite (for_of_Throw _ _ p Hp) in H6; [discriminate|].
  intros s. exact (walkPlugin_unconvertible_id _ _ _ _ _ _ Hid Hs Hvs).
Qed.


(** ** What is downloaded *)

(** X13.  Every queued download comes from a version of a proposed
    plugin that is an object and for which no version with the same
    version string is found in the base plugin of the same id; it
    carries that version's label and dist.url and its dist.sha256 in
    lower case.  Nothing else is ever requested, and a published version
    is never downloaded again. *)
Theorem queued_downloads_come_from_new_versions (baseIndex prIndex : json)
  (ds : list download) (e : list string) (item : download) :
  collect baseIndex prIndex = Done (ds, e) ->
  In item ds ->
  exists p vs v,
    In p (plugins_of prIndex) /\
    prop p "versions" = Some (JArr vs) /\ In v vs /\
    typeof_object v = true /\
    truthy (map_get
              (baseVersions_of
                 (map_get (basePluginMap_of (plugins_of baseIndex)) (prop p "id")))
              (prop v "version")) = false /\
    download_of p v item.
Proof.
  intros Hc Hin. apply collect_Done_inv in Hc.
  destruct Hc as (_ & _ & st & e4 & e5 & e6 & _ & _ & H6 & _).
  set (bmap := basePluginMap_of (plugins_of baseIndex)) in *.
  assert (Hinv : forall it, In it ds ->
            exists p vs v,
              In p (plugins_of prIndex) /\
              prop p "versions" = Some (JArr vs) /\ In v vs /\
              typeof_object v = true /\
              truthy (map_get (baseVersions_of (map_get bmap (prop p "id")))
                              (prop v "version")) = false /\
              download_of p v it).
  { refine (for_of_inv (walkPlugin bmap)
              (fun s => forall it, In it s ->
                 exists p vs v,
                   In p (plugins_of prIndex) /\
                   prop p "versions" = Some (JArr vs) /\ In v vs /\
                   typeof_object v = true /\
                   truthy (map_get (baseVersions_of (map_get bmap (prop p "id")))
                                   (prop v "version")) = false /\
                   download_of p v it)
              (plugins_of prIndex) _ _ _ _ H6 _).
    - intros s p s' e' Hp Hstep Hs it Hit.
      destruct (walkPlugin_queue_inv _ _ _ _ _ _ Hstep Hit)
        as [Hold|(vs & v & Hvs & Hv & Ho & Hnew & Hd)]; [now apply Hs|].
      exists p, vs, v. auto 8.
    - intros it []. }
  now apply Hinv.
Qed.

(** X14.  An index that the validator accepts when it is proposed
    unchanged queues no download: each of its versions is found in the
    base plugin of the same id, so the verdict needs no request. *)
Theorem accepted_index_queues_nothing (baseIndex : json) :
  validate baseIndex baseIndex = Done {| ok := true; errors := [] |} ->
  collect baseIndex baseIndex = Done ([], []).
Proof.
  intros H. apply validate_ok_run in H. destruct H as (n & H).
  apply clean_run_stages in H.
  destruct H as (Nb & _ & E1 & E2 & E3 & st & ds & H4 & H5 & H6 & _).
  pose proof (clean_walk_unchanged_queue _ _ _ H4 H6) as ->.
  rewrite (collect_eq _ _ _ _ _ _ _ Nb Nb H4 H5 H6), E1, E2, E3.
  reflexivity.
Qed.

(** X15.  Growth by one plugin.  Let the validator accept the base index
    proposed unchanged, and let q be any value whose id, when it is a
    string, is carried by no base plugin.  The run on the base index
    with q added at the end of its plugin list ends as the run on q
    alone, proposed as the only plugin against the same index without
    plugins: both throw, or both give the same result, with the same
    errors in the same order and after the same requests.  So the new
    plugin is accepted exactly when it is acceptable on its own. *)
Theorem added_plugin_is_judged_alone (baseIndex q : json) :
  validate baseIndex baseIndex = Done {| ok := true; errors := [] |} ->
  (forall id, prop q "id" = Some (JStr id) -> has_plugin baseIndex id = false) ->
  validate baseIndex (with_plugins (plugins_of baseIndex ++ [q]) baseIndex)
  = validate (with_plugins [] baseIndex) (with_plugins [q] baseIndex).
Proof.
  intros Hok Hnew.
  apply validate_ok_run in Hok. destruct Hok as (n & Hrun).
  destruct (clean_run_shapes _ _ (plugins_of baseIndex ++ [q]) Hrun)
    as (Nb & Npr & Ppr & Spr & E1 & E2 & E3).
  destruct (clean_run_shapes _ _ [] Hrun) as (_ & Nb0 & Pb0 & Sb0 & _).
  destruct (clean_run_shapes _ _ [q] Hrun) as (_ & Np1 & Pp1 & Sp1 & _).
  apply clean_run_stages in Hrun.
  destruct Hrun as (_ & _ & _ & _ & _ & st & ds & H4 & H5 & H6 & _).
  pose proof (clean_walk_unchanged_queue _ _ _ H4 H6) as ->.
  set (bmap := basePluginMap_of (plugins_of baseIndex)) in *.
  assert (Hfresh : forall id, prop q "id" = Some (JStr id) -> ~ In id (fst st)).
  { intros id Hid Hin.
    destruct (for_of_checkPlugin_ids _ _ _ _ _ H4 Hin) as [[]|(p & Hp & Hpid)].
    assert (has_plugin baseIndex id = true) by (apply has_plugin_true; eauto).
    rewrite (Hnew id Hid) in *. discriminate. }
  assert (EW : for_of (walkPlugin bmap) (plugins_of baseIndex ++ [q]) []
               = walkPlugin [] [] q).
  { rewrite for_of_app, H6. cbn [bind]. rewrite for_of_one.
    replace (walkPlugin bmap [] q) with (walkPlugin [] [] q)
      by (apply walkPlugin_bmap_ext;
          destruct (prop q "id") as [[| | |id| |]|] eqn:Hid; trivial;
          cbn [map_get assoc_get]; symmetry; apply assoc_get_None;
          intros Hk; apply In_keys_basePluginMap in Hk;
          destruct Hk as (p & Hp & Hpid & _);
          assert (has_plugin baseIndex id = true) by (apply has_plugin_true; eauto);
          rewrite (Hnew id eq_refl) in *; discriminate).
    now destruct (walkPlugin [] [] q) as [[d e]|]. }
  assert (Ecol : collect baseIndex
                   (with_plugins (plugins_of baseIndex ++ [q]) baseIndex)
                 = collect (with_plugins [] baseIndex) (with_plugins [q] baseIndex)).
  { rewrite !collect_stages_eq; auto.
    - unfold collect_loops. rewrite Ppr, Pb0, Pp1. fold bmap. rewrite EW.
      rewrite for_of_app, H4. cbn [bind]. rewrite !for_of_one.
      change (basePluginMap_of []) with (@nil (string * json)).
      pose proof (checkPlugin_fresh_log st q Hfresh) as EL.
      destruct (checkPlugin st q) as [[st' e]|] eqn:Hq,
               (checkPlugin ([], []) q) as [[s0 e0]|];
        try discriminate EL; trivial.
      injection EL as <-. cbn [bind app for_of ret].
      assert (K4 : for_of checkPlugin
                     (plugins_of (with_plugins (plugins_of baseIndex ++ [q]) baseIndex))
                     ([], []) = Done (st', e)).
      { rewrite Ppr, for_of_app, H4. cbn [bind]. now rewrite for_of_one, Hq. }
      unfold bmap. rewrite (removed_log baseIndex _ _ _ K4).
      rewrite (removed_ids_grown baseIndex baseIndex).
      + cbn [map bind ret]. now destruct (walkPlugin [] [] q) as [[d e2]|].
      + exact (removed_ids_nil _ _ _ H4 H5).
      + intros id Hid. unfold has_plugin in *. rewrite Ppr, existsb_app, Hid.
        reflexivity.
    - unfold with_plugins.
      now rewrite name_errors_update_plugins_l, name_errors_update_plugins_r.
    - unfold with_plugins. now rewrite name_errors_update_plugins_r. }
  unfold validate, run. now rewrite Ecol.
Qed.

(** ** The permissions of a version *)


(** ** The command line *)

(** X17.  getArg (lines 5-8) looks at the first occurrence of the flag
    only: it gives null when the flag is absent, the argument that
    follows the first occurrence when there is one (also when that
    argument is another flag), and undefined when the first occurrence
    is the last argument. *)
Theorem getArg_reads_after_first_occurrence (args : list string) (name : string) :
  (~ In name args -> getArg args name = ArgNull) /\
  (forall before v after,
     args = (before ++ name :: v :: after)%list -> ~ In name before ->
     getArg args name = ArgStr v) /\
  (forall before,
     args = (before ++ [name])%list -> ~ In name before ->
     getArg args name = ArgUndefined).
Proof using. platform_free.
  unfold getArg. split; [|split].
  - intros H. now rewrite indexOf_absent.
  - intros before v after -> H. rewrite indexOf_first by trivial.
    rewrite nth_error_app2 by lia.
    replace (List.length before + 1 - List.length before)%nat with 1%nat by lia.
    reflexivity.
  - intros before -> H. rewrite indexOf_first by trivial.
    rewrite nth_error_app2 by lia.
    replace (List.length before + 1 - List.length before)%nat with 1%nat by lia.
    reflexivity.
Qed.

(** X18.  The exit status of the process.  It is 0 exactly when --base
    and --pr name files that could be read, the validation gave a result
    without errors and the result could be written to the --out file if
    one was named; the ok line is then the only output.  It is 2, with
    the usage line, exactly when --base or --pr has no value or an empty
    one.  It is 1 in every other case, and a status of 1 does not tell
    that there is a result: either the validation gave a result with
    errors, which were printed on stderr after the result was written to
    the --out file, or the process was ended by an exception (a file that
    cannot be read, a conversion that throws, a rejected request, a
    failed write). *)
Theorem exit_status_zero_iff_accepted (readJson : string -> option json)
  (writeFile : string -> result -> bool) (args : list string) :
  (exit_status (main readJson writeFile args) = 0%Z <->
   exists base pr baseIndex prIndex,
     arg_path (getArg args "--base") = Some base /\
     arg_path (getArg args "--pr") = Some pr /\
     readJson base = Some baseIndex /\ readJson pr = Some prIndex /\
     validate baseIndex prIndex = Done {| ok := true; errors := [] |} /\
     forall out, arg_path (getArg args "--out") = Some out ->
                 writeFile out {| ok := true; errors := [] |} = true) /\
  (exit_status (main readJson writeFile args) = 0%Z ->
   main readJson writeFile args
   = Exited {| exitCode := 0; stderr := [];
               stdout := ["validate-marketplace-pr: ok"];
               outFile := option_map (fun out => (out, {| ok := true; errors := [] |}))
                            (arg_path (getArg args "--out")) |}) /\
  (exit_status (main readJson writeFile args) = 2%Z <->
   arg_path (getArg args "--base") = None \/ arg_path (getArg args "--pr") = None) /\
  (exit_status (main readJson writeFile args) = 2%Z ->
   main readJson writeFile args
   = Exited {| exitCode := 2; stderr := [usage]; stdout := []; outFile := None |}) /\
  (exit_status (main readJson writeFile args) = 0%Z \/
   exit_status (main readJson writeFile args) = 1%Z \/
   exit_status (main readJson writeFile args) = 2%Z) /\
  (exit_status (main readJson writeFile args) = 1%Z ->
   main readJson writeFile args = Uncaught \/
   exists base pr baseIndex prIndex r,
     arg_path (getArg args "--base") = Some base /\
     arg_path (getArg args "--pr") = Some pr /\
     readJson base = Some baseIndex /\ readJson pr = Some prIndex /\
     validate baseIndex prIndex = Done r /\
     ok r = false /\ errors r <> [] /\
     main readJson writeFile args
     = Exited {| exitCode := 1;
                 stderr := [String.concat newline (errors r)];
                 stdout := [];
                 outFile := option_map (fun out => (out, r))
                              (arg_path (getArg args "--out")) |}).
Proof.
  unfold main.
  destruct (arg_path (getArg args "--base")) as [base|];
    [|cbn; repeat split; auto; try discriminate;
      intros H; decompose record H; discriminate].
  destruct (arg_path (getArg args "--pr")) as [pr|];
    [|cbn; repeat split; auto; try discriminate;
      intros H; decompose record H; discriminate].
  assert (N2 : ~ (Some base = None \/ Some pr = None))
    by (intros [H|H]; discriminate H).
  destruct (readJson base) as [baseIndex|] eqn:Rb;
    [|cbn; repeat split; auto; try discriminate; try contradiction;
      intros (b0 & p0 & bi & pi & Eb & _ & Hb & _);
      injection Eb as <-; congruence].
  destruct (readJson pr) as [prIndex|] eqn:Rp;
    [|cbn; repeat split; auto; try discriminate; try contradiction;
      intros (b0 & p0 & bi & pi & _ & Ep & _ & Hp & _);
      injection Ep as <-; congruence].
  destruct (validate baseIndex prIndex) as [r|] eqn:V;
    [|cbn; repeat split; auto; try discriminate; try contradiction;
      intros (b0 & p0 & bi & pi & Eb & Ep & Hb & Hp & Hv & _);
      injection Eb as <-; injection Ep as <-; congruence].
  assert (Hr : (ok r = true -> r = {| ok := true; errors := [] |}) /\
               (ok r = false -> errors r <> [])).
  { apply validate_Done_inv in V. destruct V as (n & _ & Hok).
    destruct r as [o es]. cbn [ok errors] in *. subst o.
    destruct es; cbn; split; intros H; try discriminate; trivial. }
  destruct Hr as [Hr1 Hr0].
  destruct (arg_path (getArg args "--out")) as [out|].
  - destruct (writeFile out r) eqn:W.
    + destruct (ok r) eqn:Eok; cbn.
      * rewrite (Hr1 eq_refl) in *.
        repeat split; auto; try discriminate; try contradiction.
        -- intros _. exists base, pr, baseIndex, prIndex.
           repeat split; trivial. intros o Ho. now injection Ho as <-.
      * repeat split; auto; try discriminate; try contradiction.
        -- intros (b0 & p0 & bi & pi & Eb & Ep & Hb & Hp & Hv & _).
           injection Eb as <-. injection Ep as <-.
           assert (Done r = Done {| ok := true; errors := [] |}) by congruence.
           assert (r = {| ok := true; errors := [] |}) by congruence.
           subst r. discriminate Eok.
        -- intros _. right. exists base, pr, baseIndex, prIndex, r.
           repeat split; auto.
    + cbn. repeat split; auto; try discriminate; try contradiction.
      intros (b0 & p0 & bi & pi & Eb & Ep & Hb & Hp & Hv & Hw).
      injection Eb as <-. injection Ep as <-.
      assert (Done r = Done {| ok := true; errors := [] |}) by congruence.
      assert (r = {| ok := true; errors := [] |}) by congruence.
      subst r. rewrite (Hw out eq_refl) in W. discriminate W.
  - destruct (ok r) eqn:Eok; cbn.
    + rewrite (Hr1 eq_refl) in *.
      repeat split; auto; try discriminate; try contradiction.
      intros _. exists base, pr, baseIndex, prIndex.
      repeat split; trivial. discriminate.
    + repeat split; auto; try discriminate; try contradiction.
      * intros (b0 & p0 & bi & pi & Eb & Ep & Hb & Hp & Hv & _).
        injection Eb as <-. injection Ep as <-.
        assert (Done r = Done {| ok := true; errors := [] |}) by congruence.
        assert (r = {| ok := true; errors := [] |}) by congruence.
        subst r. discriminate Eok.
      * intros _. right. exists base, pr, baseIndex, prIndex, r.
        repeat split; auto.
Qed.


(** ** The fields of a plugin entry *)

(** X19.  The loop of lines 95-127 pushes nothing for a plugin entry
    exactly when the entry is an object with an id that matches the id
    pattern and was not seen before, a name with a character other than
    white space, a description that is absent or such a string, a readme
    that is absent or converts (falsy values replaced by the empty
    string, then trimmed) to a URL with the scheme https, and a
    non-empty array of versions. *)
Theorem plugin_entry_accepted_iff (st : plugin_state) (plugin : json) :
  (exists st', checkPlugin st plugin = Done (st', [])) <->
  exists id name versions,
    prop plugin "id" = Some (JStr id) /\ isValidId id = true /\
    ~ In id (fst st) /\
    prop plugin "name" = Some (JStr name) /\
    string_forallb is_white_space name = false /\
    (prop plugin "description" = None \/
     exists d, prop plugin "description" = Some (JStr d)
               /\ string_forallb is_white_space d = false) /\
    (prop plugin "readme" = None \/
     exists readme s parsed,
       prop plugin "readme" = Some readme /\
       ToString (or_else (Some readme) EmptyString) = Some s /\
       parseURL (trim s) = Some parsed /\
       protocol parsed = "https:") /\
    prop plugin "versions" = Some (JArr versions) /\ versions <> [].
Proof using parseURL.
  clear fetch sha256_hex. split.
  - intros (st' & H).
    destruct (checkPlugin_clean _ _ _ H) as (Ho & id & Hid & _ & Hnin & _).
    unfold checkPlugin in H.
    rewrite Ho, (typeof_object_truthy _ Ho) in H. cbn [negb orb] in H.
    apply bind_clean_inv in H. destruct H as (ids1 & H & _).
    unfold checkPluginFields in H.
    apply bind_clean_inv in H. destruct H as (ids2 & H0 & H).
    apply checkPluginId_clean_valid in H0. destruct H0 as (id' & Hid' & Hv).
    assert (id' = id) by congruence. subst id'.
    apply bind_clean_inv in H. destruct H as (u1 & H1 & H).
    apply bind_clean_inv in H. destruct H as (u2 & H2 & H).
    apply bind_clean_inv in H. destruct H as (u3 & H3 & H).
    apply bind_clean_inv in H. destruct H as (u4 & H4 & _).
    apply when_push_plugin_clean in H1, H2, H4.
    apply negb_false_iff, isNonEmptyString_visible in H1.
    destruct H1 as (name & Hname & Hw).
    assert (Hd : prop plugin "description" = None \/
                 exists d, prop plugin "description" = Some (JStr d)
                           /\ string_forallb is_white_space d = false).
    { destruct (prop plugin "description") as [d|]; [right|now left].
      apply negb_false_iff, isNonEmptyString_visible in H2.
      destruct H2 as (s & E & Hs). injection E as ->. eauto. }
    assert (Hr : prop plugin "readme" = None \/
                 exists readme s parsed,
                   prop plugin "readme" = Some readme /\
                   ToString (or_else (Some readme) EmptyString) = Some s /\
                   parseURL (trim s) = Some parsed /\
                   protocol parsed = "https:").
    { unfold checkReadme in H3.
      destruct (prop plugin "readme") as [readme|]; [right|now left].
      destruct (ToString (or_else (Some readme) EmptyString)) as [s|] eqn:Es;
        [|now apply push_plugin_not_clean in H3].
      destruct (parseURL (trim s)) as [parsed|] eqn:Ep;
        [|now apply push_plugin_not_clean in H3].
      apply when_push_plugin_clean, negb_false_iff, String.eqb_eq in H3.
      exists readme, s, parsed. auto. }
    destruct (prop plugin "versions") as [[| | | |versions|]|] eqn:Hvs;
      try discriminate H4.
    exists id, name, versions. repeat split; trivial.
    intros ->. discriminate H4.
  - intros (id & name & versions & Hid & Hv & Hnin & Hname & Hw & Hd & Hr & Hvs & Hne).
    assert (Ho : typeof_object plugin = true) by exact (prop_Some_object _ _ _ Hid).
    eexists. unfold checkPlugin.
    rewrite Ho, (typeof_object_truthy _ Ho). cbn [negb orb].
    unfold checkPluginFields.
    rewrite (checkPluginId_valid _ _ _ Hid Hv).
    apply existsb_eqb_false in Hnin. rewrite Hnin. cbn [bind].
    rewrite Hname, isNonEmptyString_str, Hw. cbn [negb when bind ret app].
    assert (E2 : match prop plugin "description" with
                 | None => false
                 | d => negb (isNonEmptyString d)
                 end = false).
    { destruct Hd as [->|(d & -> & Hdw)]; trivial.
      now rewrite isNonEmptyString_str, Hdw. }
    rewrite E2. cbn [when bind ret app].
    assert (E3 : checkReadme plugin = Done (tt, [])).
    { unfold checkReadme.
      destruct Hr as [->|(readme & s & parsed & -> & Hs & Hp & Hproto)]; trivial.
      rewrite Hs, Hp, Hproto. reflexivity. }
    rewrite E3. cbn [bind app]. rewrite Hvs.
    destruct versions as [|v0 versions]; [contradiction|].
    reflexivity.
Qed.


(** ** Published versions are immutable *)

(** X20.  Let the validator accept the base index proposed unchanged,
    and let v be a published version of its plugin p.  If a proposal,
    whatever else it holds, has a plugin with the id of p and in it a
    version with the version string of v that differs from v by more
    than the order of keys (the numbers of both being safe integers, the
    two zeros being one number, and no property being named __proto__),
    then every result of the run reports that version as modifying an
    existing version and has ok = false. *)
Theorem modified_version_is_reported (baseIndex prIndex : json) (i j : nat)
  (p v p' v' : json) (vs' : list json) (r : result) :
  validate baseIndex baseIndex = Done {| ok := true; errors := [] |} ->
  version_at baseIndex i j = Some (p, v) ->
  In p' (plugins_of prIndex) -> prop p' "id" = prop p "id" ->
  prop p' "versions" = Some (JArr vs') -> In v' vs' ->
  prop v' "version" = prop v "version" ->
  json_wf v = true -> json_wf v' = true ->
  safe_numbers v = true -> safe_numbers v' = true ->
  proto_free v = true -> proto_free v' = true ->
  ~ key_permuted v v' ->
  validate baseIndex prIndex = Done r ->
  exists versionLabel,
    versionLabel_of p' v' = Done (versionLabel, []) /\
    In (msg_modifies versionLabel) (errors r) /\ ok r = false.
Proof.
  intros Hok Hat Hp' Hid Hvs' Hv' Hver Hwf Hwf' _ _ Hpf Hpf' Hkp Hval.
  apply validate_ok_run in Hok. destruct Hok as (n0 & Hok).
  apply clean_run_stages in Hok.
  destruct Hok as (_ & _ & _ & _ & _ & st & ds & H4 & _ & H6 & _).
  apply version_at_inv in Hat.
  destruct Hat as (ps & vs & _ & Eps & Hi & Hvs & Hj).
  rewrite Eps in *.
  destruct (clean_walk_version_lookup _ _ _ _ _ _ _ _ H4 H6 Hi Hvs Hj)
    as (Hg & ver & bv & Hv & Hbv & Ht & Hsame).
  apply validate_Done_inv in Hval. destruct Hval as (n & Hrun & Hokr).
  destruct (run_reports_version _ _ _ _ _ _ _ Hrun Hp' Hvs' Hv')
    as (s1 & s2 & ev & e0 & e2 & Hw & He).
  rewrite Eps, Hid, Hg in Hw.
  assert (Hobj : typeof_object v' = true).
  { rewrite Hv in Hver. exact (prop_Some_object _ _ _ Hver). }
  apply walkVersion_Done_inv in Hw; trivial.
  destruct Hw as (lbl & seen' & e1 & f2 & e3 & e4 & q & e5
                  & Hl & _ & _ & _ & _ & Hq & _ & ->).
  rewrite compareOrQueue_found with (bv := bv) in Hq;
    [|rewrite Hver, Hv; exact Hbv | exact Ht].
  assert (Hne : stableStringify bv <> stableStringify v').
  { rewrite Hsame. intros E. apply Hkp.
    apply stable_key_permuted; trivial. now apply stableStringify_inj. }
  apply String.eqb_neq in Hne. rewrite Hne in Hq. injection Hq as _ <-.
  exists lbl. split; trivial.
  assert (Hin : In (msg_modifies lbl) (errors r)).
  { rewrite He, !in_app_iff. simpl. tauto. }
  split; trivial. eapply not_ok_of_In; eauto.
Qed.


(** ** The versions of a published plugin *)

(** X21.  The run has no check for a deleted version.  Let the validator
    accept the base index proposed unchanged: the base index with one
    published version of one plugin deleted, the plugin keeping at least
    one version, is accepted as well, and no request is made. *)
Theorem deleted_version_is_not_reported (baseIndex : json) (i j : nat)
  (p v : json) (vs : list json) :
  validate baseIndex baseIndex = Done {| ok := true; errors := [] |} ->
  version_at baseIndex i j = Some (p, v) ->
  prop p "versions" = Some (JArr vs) ->
  remove_nth j vs <> [] ->
  collect baseIndex
    (with_plugin_at i (with_versions (remove_nth j vs) p) baseIndex) = Done ([], [])
  /\ validate baseIndex
       (with_plugin_at i (with_versions (remove_nth j vs) p) baseIndex)
     = Done {| ok := true; errors := [] |}.
Proof.
  intros Hok Hat Hvs Hrem.
  apply validate_ok_run in Hok. destruct Hok as (n & Hrun).
  apply version_at_inv in Hat.
  destruct Hat as (ps & vs0 & _ & Hpo & Hi & Hvs0 & Hj).
  assert (vs0 = vs) by congruence. subst vs0. rewrite <- Hpo in Hi.
  destruct (clean_walk_of_plugin _ _ _ _ _ Hrun Hi Hvs) as (Hne & Hg & seen & Hw).
  set (p' := with_versions (remove_nth j vs) p).
  assert (Hid : prop p' "id" = prop p "id")
    by (unfold p', with_versions; now rewrite prop_update_prop_other by discriminate).
  assert (Hvs' : prop p' "versions" = Some (JArr (remove_nth j vs)))
    by (unfold p', with_versions; now rewrite prop_update_prop_same, Hvs).
  assert (Hwp' : walkPlugin (basePluginMap_of (plugins_of baseIndex)) [] p'
                 = Done ([], [])).
  { rewrite (walkPlugin_versions _ _ _ _ Hvs'), Hid, Hg.
    rewrite (for_of_ext _ (walkVersion p (baseVersions_of (Some p))))
      by (intros; now apply walkVersion_plugin_ext).
    destruct (clean_walk_remove _ _ _ j _ [] _ _ Hw eq_refl
                (clean_found_fix _ _ Hvs) (incl_refl _)) as (seen0' & H0 & _).
    rewrite H0. reflexivity. }
  pose proof (replaced_plugin_collect _ _ _ _ _ _ Hrun Hi
                (plugin_similar_versions _ _ _ Hvs Hne Hrem) Hwp') as Hc.
  split; trivial.
  assert (Hr : run baseIndex (with_plugin_at i p' baseIndex) = Done (0%nat, []))
    by (unfold run, p'; now rewrite Hc).
  now rewrite (validate_eq _ _ _ _ Hr).
Qed.

(** X22.  Growth by one version.  Let the validator accept the base
    index proposed unchanged, let p be one of its plugins, and let v be
    any value whose version is carried by no version of p.  The run on
    the base index with v added at the end of the versions of p ends as
    the run on v alone, proposed as the only version of p and p as the
    only plugin against the same index without plugins: both throw, or
    both give the same result, with the same errors in the same order
    and after the same requests.  So the new version is accepted exactly
    when it is acceptable on its own. *)
Theorem added_version_is_judged_alone (baseIndex : json) (i : nat) (p v : json)
  (vs : list json) :
  validate baseIndex baseIndex = Done {| ok := true; errors := [] |} ->
  nth_error (plugins_of baseIndex) i = Some p ->
  prop p "versions" = Some (JArr vs) ->
  (forall w, In w vs -> prop w "version" <> prop v "version") ->
  validate baseIndex (with_plugin_at i (with_versions (vs ++ [v]) p) baseIndex)
  = validate (with_plugins [] baseIndex) (with_plugins [with_versions [v] p] baseIndex).
Proof.
  intros Hok Hi Hvs Hno.
  apply validate_ok_run in Hok. destruct Hok as (n & Hrun).
  destruct (clean_walk_of_plugin _ _ _ _ _ Hrun Hi Hvs) as (Hne & Hg & seen & Hw).
  set (p' := with_versions (vs ++ [v]) p).
  set (p1 := with_versions [v] p).
  assert (Hid : prop p' "id" = prop p "id")
    by (unfold p', with_versions; now rewrite prop_update_prop_other by discriminate).
  assert (Hvs' : prop p' "versions" = Some (JArr (vs ++ [v])))
    by (unfold p', with_versions; now rewrite prop_update_prop_same, Hvs).
  assert (Hid1 : prop p1 "id" = prop p "id")
    by (unfold p1, with_versions; now rewrite prop_update_prop_other by discriminate).
  assert (Hvs1 : prop p1 "versions" = Some (JArr [v]))
    by (unfold p1, with_versions; now rewrite prop_update_prop_same, Hvs).
  assert (Hl : (vs ++ [v])%list <> []) by (intros E; now apply app_eq_nil in E).
  assert (Hl1 : [v] <> []) by discriminate.
  (* the walk of the plugin with one more version *)
  assert (Ec : collect baseIndex (with_plugin_at i p' baseIndex)
               = fmap snd (walkVersion p (baseVersions_of (Some p)) (seen, []) v)).
  { rewrite (replaced_plugin_collect_eq _ _ _ _ p' Hrun Hi
               (plugin_similar_versions _ _ _ Hvs Hne Hl)).
    rewrite (walkPlugin_versions _ _ _ _ Hvs'), Hid, Hg.
    rewrite (for_of_ext _ (walkVersion p (baseVersions_of (Some p))))
      by (intros; now apply walkVersion_plugin_ext).
    rewrite for_of_app, Hw. cbn [bind]. rewrite for_of_one.
    rewrite bind_ret_fmap.
    now destruct (walkVersion p (baseVersions_of (Some p)) (seen, []) v) as [[s e]|]. }
  (* the run for the version alone *)
  assert (Ec1 : collect (with_plugins [] baseIndex) (with_plugins [p1] baseIndex)
                = fmap snd (walkVersion p (baseVersions_of None) ([], []) v)).
  { destruct (clean_run_shapes _ _ [] Hrun) as (Nb & Nb0 & Pb0 & Sb0 & E1 & E2 & E3).
    destruct (clean_run_shapes _ _ [p1] Hrun) as (_ & Np1 & Pp1 & Sp1 & _).
    destruct (clean_plugin_alone _ _ _ _ p1 Hrun Hi
                (plugin_similar_versions _ _ _ Hvs Hne Hl1)) as (st1 & Hp1).
    rewrite collect_stages_eq; auto.
    - unfold collect_loops. rewrite Pb0, Pp1.
      change (basePluginMap_of []) with (@nil (string * json)).
      rewrite !for_of_one, Hp1. cbn [bind for_of ret].
      rewrite (walkPlugin_versions _ _ _ _ Hvs1), map_get_nil.
      rewrite for_of_one, (walkVersion_plugin_ext p p1) by trivial.
      rewrite bind_ret_fmap.
      now destruct (walkVersion p (baseVersions_of None) ([], []) v) as [[s e]|].
    - unfold with_plugins.
      now rewrite name_errors_update_plugins_l, name_errors_update_plugins_r. }
  unfold validate, run. fold p' p1. rewrite Ec, Ec1.
  rewrite (walkVersion_fresh p (baseVersions_of (Some p)) (baseVersions_of None)
             seen [] [] v); trivial.
  - intros ver Hver. split; [|intros []].
    intros Hin.
    destruct (for_of_walkVersion_seen _ _ _ _ _ _ _ Hw Hin) as [[]|(w & Hin' & Hw')].
    apply (Hno w Hin'). congruence.
  - change (baseVersions_of None) with (@nil (string * json)).
    rewrite map_get_nil.
    destruct (prop v "version") as [[| | |ver| |]|] eqn:Hver; trivial.
    apply (baseVersions_lookup_None _ _ _ Hvs).
    intros w Hin' Hw'. apply (Hno w Hin'). congruence.
Qed.

End Validator.

(** * Two runs *)

Section TwoRuns.

Variable parseURL : string -> option URL.
Variable sha256_hex : list Byte.byte -> string.
Variables fetch1 fetch2 : nat -> json -> option response.

Lemma bind_ext_Done {A B} (m : M A) (k k' : A -> M B) :
  (forall a e, m = Done (a, e) -> k a = k' a) -> bind m k = bind m k'.
Proof.
  intros H. destruct m as [[a e]|]; simpl; trivial.
  now rewrite (H a e eq_refl).
Qed.

Lemma checkDownload_next (fetch : nat -> json -> option response)
  (n : nat) (item : download) (a : nat) (e : list string) :
  checkDownload fetch sha256_hex n item = Done (a, e) -> a = S n.
Proof.
  unfold checkDownload. destruct (fetch n (url item)); [|discriminate].
  intros H. apply bind_Done_inv in H. destruct H as (? & ? & ? & _ & H & _).
  unfold ret in H. congruence.
Qed.

Lemma checkDownload_alike (n : nat) (item : download) :
  answers_alike sha256_hex (fetch1 n (url item)) (fetch2 n (url item)) ->
  checkDownload fetch1 sha256_hex n item = checkDownload fetch2 sha256_hex n item.
Proof.
  unfold checkDownload, answers_alike.
  destruct (fetch1 n (url item)) as [r1|], (fetch2 n (url item)) as [r2|];
    try contradiction; trivial.
  intros [Hs H].
  assert (Hok : response_ok r2 = response_ok r1)
    by (unfold response_ok; now rewrite Hs).
  rewrite Hok. destruct (response_ok r1); cbn [negb].
  - now rewrite H.
  - unfold msg_failed. now rewrite Hs, H.
Qed.

Lemma downloads_agree (downloads : list download) :
  forall k,
    (forall n item,
       nth_error downloads n = Some item ->
       answers_alike sha256_hex (fetch1 (k + n) (url item)) (fetch2 (k + n) (url item))) ->
    for_of (checkDownload fetch1 sha256_hex) downloads k
    = for_of (checkDownload fetch2 sha256_hex) downloads k.
Proof.
  induction downloads as [|x ds IH]; intros k H; trivial.
  rewrite !for_of_cons.
  assert (E : checkDownload fetch1 sha256_hex k x = checkDownload fetch2 sha256_hex k x).
  { apply checkDownload_alike. specialize (H 0%nat x eq_refl).
    now rewrite Nat.add_0_r in H. }
  rewrite E. apply bind_ext_Done. intros a e Ha.
  apply checkDownload_next in Ha. subst a.
  apply IH. intros n item Hn.
  specialize (H (S n) item Hn). now rewrite Nat.add_succ_r in H.
Qed.

(** C10, as amended.  The result depends on the network through what
    checkDownload reads of it.  Two runs on the same base and proposed
    documents end alike (both throw, or both give the same ok and the
    same errors in the same order) when every request of the download
    loop (the n-th request, for the url of the n-th queued item) is
    rejected in both or answered in both with the same status, with the
    same status text when the status is outside 200-299, and with bodies
    of the same digest when it is inside.  Answers with the same status,
    status text and body bytes are of that kind. *)
Theorem alike_answers_give_the_same_result (baseIndex prIndex : json) :
  (forall downloads e n item,
     collect parseURL baseIndex prIndex = Done (downloads, e) ->
     nth_error downloads n = Some item ->
     answers_alike sha256_hex (fetch1 n (url item)) (fetch2 n (url item))) ->
  validate parseURL fetch1 sha256_hex baseIndex prIndex
  = validate parseURL fetch2 sha256_hex baseIndex prIndex.
Proof.
  intros H. unfold validate, run.
  destruct (collect parseURL baseIndex prIndex) as [[ds e]|] eqn:E; trivial.
  cbn [bind].
  rewrite (downloads_agree ds 0%nat); trivial.
  intros n item Hn. exact (H ds e n item eq_refl Hn).
Qed.

End TwoRuns.

(** * The validator on the example documents *)

(** C1.  The script has no check for a deleted version: on the example
    base index and the same index without version 1.1.0 of plugin a the
    run reports nothing and ends with ok = true, whatever the network and
    the hash function are. *)
Theorem deleted_version_is_accepted
  (fetch : nat -> json -> option response) (sha256_hex : list Byte.byte -> string) :
  validate toy_URL fetch sha256_hex example_base example_version_deleted
  = Done {| ok := true; errors := [] |}.
Proof. vm_compute. reflexivity. Qed.


(** C3, the claim as stated fails: the example base index is accepted
    when proposed unchanged, and replacing the first character of the
    sha256 of a/1.0.0 (an a) by the letter g gives two errors, not one. *)
Lemma tampered_sha256_two_errors :
  validate toy_URL toy_fetch toy_sha256 example_base example_base
  = Done {| ok := true; errors := [] |} /\
  sha256_at example_base 0 0 = Some (hex64 "a") /\
  validate toy_URL toy_fetch toy_sha256 example_base
    (tamper_sha256 0 0 (String "g" (string_of_list_ascii (repeat "a"%char 63)))
       example_base)
  = Done {| ok := false;
            errors := [msg_dist "a/1.0.0"; msg_modifies "a/1.0.0"] |}.
Proof. repeat split; vm_compute; reflexivity. Qed.

(** C6, the claim as stated fails: with schemaVersion 2 the document is
    not shaped correctly, and validateIndexShape returns its plugin list,
    not the empty list; and on the document null it throws. *)
Lemma wrong_schemaVersion_keeps_plugins :
  strict_equal (prop example_schema2 "schemaVersion") (Some (JNum 1)) = false /\
  validateIndexShape example_schema2 "pr index.json"
  = Done ([plugin_doc "a" []], ["pr index.json: schemaVersion must be 1"]) /\
  validateIndexShape JNull "pr index.json" = Throw.
Proof. repeat split; vm_compute; reflexivity. Qed.

(** C10, the claim as stated fails: two networks that answer every
    request with the same status and the same body bytes, and differ in
    the status text only, give two different results, since line 243
    prints the status text. *)
Lemma status_text_changes_the_errors :
  (forall n u,
     exists r1 r2,
       toy_fetch_404 "Not Found" n u = Some r1 /\
       toy_fetch_404 EmptyString n u = Some r2 /\
       status r1 = status r2 /\ body r1 = body r2) /\
  validate toy_URL (toy_fetch_404 "Not Found") toy_sha256 example_base example_new_plugin
  = Done {| ok := false;
            errors := ["dist download failed for " ++ dq ++ "b/1.0.0" ++ dq
                       ++ ": 404 Not Found"] |} /\
  validate toy_URL (toy_fetch_404 EmptyString) toy_sha256 example_base example_new_plugin
  = Done {| ok := false;
            errors := ["dist download failed for " ++ dq ++ "b/1.0.0" ++ dq
                       ++ ": 404 "] |}.
Proof.
  split; [|split; vm_compute; reflexivity].
  intros n u. eexists _, _. repeat split.
Qed.

(** ** Instances of the theorems *)


Lemma tampered_sha256_is_reported_witness :
  validate toy_URL toy_fetch toy_sha256 example_base
    (tamper_sha256 0 0 (String "b" (string_of_list_ascii (repeat "a"%char 63)))
       example_base)
  = Done {| ok := false; errors := [msg_modifies "a/1.0.0"] |}.
Proof.
  destruct (tampered_sha256_is_reported toy_URL toy_fetch toy_sha256
              example_base 0 0
              (plugin_doc "a"
                 [version_doc "1.0.0" "https://x/a-1.0.0.tgz" (hex64 "a");
                  version_doc "1.1.0" "https://x/a-1.1.0.tgz" (hex64 "a")])
              (version_doc "1.0.0" "https://x/a-1.0.0.tgz" (hex64 "a"))
              EmptyString (string_of_list_ascii (repeat "a"%char 63))
              "a"%char "b"%char)
    as (lbl & Hlbl & H).
  - vm_compute. reflexivity.
  - vm_compute. reflexivity.
  - reflexivity.
  - reflexivity.
  - discriminate.
  - vm_compute in Hlbl. assert (E : lbl = "a/1.0.0") by congruence. subst lbl.
    exact H.
Defined.

Lemma canonical_form_ignores_key_order_witness :
  stableStringify (JObj [("b", JNum 2); ("a", JArr [JObj [("y", JNull); ("x", JBool true)]])])
  = stableStringify (JObj [("a", JArr [JObj [("x", JBool true); ("y", JNull)]]); ("b", JNum 2)]).
Proof.
  apply (canonical_form_ignores_key_order
           (JObj [("b", JNum 2); ("a", JArr [JObj [("y", JNull); ("x", JBool true)]])])
           (JObj [("a", JArr [JObj [("x", JBool true); ("y", JNull)]]); ("b", JNum 2)])).
  - reflexivity.
  - apply kp_obj with
      (mid := [("a", JArr [JObj [("y", JNull); ("x", JBool true)]]); ("b", JNum 2)]).
    + apply perm_swap.
    + repeat constructor.
      apply kp_obj with (mid := [("x", JBool true); ("y", JNull)]).
      * apply perm_swap.
      * repeat constructor.
Defined.


Lemma validateIndexShape_result_witness :
  validateIndexShape (JObj []) "pr index.json"
  = Done ([], ["pr index.json: schemaVersion must be 1";
               "pr index.json: name is required";
               "pr index.json: plugins must be an array"]).
Proof.
  apply (validateIndexShape_result (JObj []) "pr index.json").
  discriminate.
Defined.

Lemma mixed_case_sha256_is_lowered_witness :
  isValidSha256 (toLowerCase (hex64 "A")) = true.
Proof.
  apply (mixed_case_sha256_is_lowered toy_fetch toy_sha256
           (version_doc "1.0.0" "https://x/b.tgz" (hex64 "A")) (hex64 "A") "b/1.0.0").
  - reflexivity.
  - reflexivity.
  - reflexivity.
Defined.


Lemma unrecorded_base_plugin_is_ignored_witness :
  validate toy_URL toy_fetch toy_sha256 (without_plugin 0 example_empty_id) (index_doc [])
  = validate toy_URL toy_fetch toy_sha256 example_empty_id (index_doc []).
Proof.
  apply (unrecorded_base_plugin_is_ignored toy_URL toy_fetch toy_sha256
           example_empty_id (index_doc []) 0
           (plugin_doc EmptyString [version_doc "0.1.0" "https://x/n.tgz" (hex64 "b")])).
  - reflexivity.
  - reflexivity.
Defined.

Lemma alike_answers_give_the_same_result_witness :
  validate toy_URL toy_fetch toy_sha256 example_base example_new_plugin
  = validate toy_URL toy_fetch_byte toy_sha256 example_base example_new_plugin.
Proof.
  apply (alike_answers_give_the_same_result toy_URL toy_sha256 toy_fetch toy_fetch_byte
           example_base example_new_plugin).
  intros downloads e n item Hc Hn.
  split; reflexivity.
Defined.

(** ** Instances of the further properties *)

Lemma canonical_text_equal_iff_witness :
  key_permuted (JObj [("b", JNum 2); ("a", JNum 1)])
               (JObj [("a", JNum 1); ("b", JNum 2)]).
Proof.
  destruct (canonical_text_equal_iff
              (JObj [("b", JNum 2); ("a", JNum 1)])
              (JObj [("a", JNum 1); ("b", JNum 2)])) as [[H _] _];
    try reflexivity.
  apply H. vm_compute. reflexivity.
Defined.

Lemma dist_shape_accepts_iff_witness :
  dist_malformed
    (JObj [("version", JStr "1.0.0");
           ("dist", JObj [("type", JStr "tgz"); ("url", JStr "https://x/n.tgz");
                          ("sha256", JArr [JStr (hex64 "A")]);
                          ("size", JNum 9007199254740991)])])
  = Done (false, []).
Proof.
  destruct (dist_shape_accepts_iff
              (JObj [("version", JStr "1.0.0");
                     ("dist", JObj [("type", JStr "tgz"); ("url", JStr "https://x/n.tgz");
                                    ("sha256", JArr [JStr (hex64 "A")]);
                                    ("size", JNum 9007199254740991)])]))
    as [_ H].
  - reflexivity.
  - apply H.
    exists (JObj [("type", JStr "tgz"); ("url", JStr "https://x/n.tgz");
                  ("sha256", JArr [JStr (hex64 "A")]);
                  ("size", JNum 9007199254740991)]),
           "https://x/n.tgz", (hex64 "A").
    repeat split; reflexivity.
Defined.

Lemma proto_properties_are_ignored_witness :
  stableStringify (JObj [("version", JStr "1.0.0")])
  = stableStringify (JObj [("version", JStr "1.0.0");
                           ("__proto__", JObj [("changed", JBool true)])]).
Proof.
  destruct (proto_properties_are_ignored
              (JObj [("version", JStr "1.0.0");
                     ("__proto__", JObj [("changed", JBool true)])])) as [H _].
  - reflexivity.
  - exact H.
Defined.

Lemma stableObject_is_idempotent_witness :
  stableObject (stableObject (JObj [("b", JNum 2); ("a", JArr [JObj [("y", JNull)]])]))
  = stableObject (JObj [("b", JNum 2); ("a", JArr [JObj [("y", JNull)]])]).
Proof.
  destruct (stableObject_is_idempotent
              (JObj [("b", JNum 2); ("a", JArr [JObj [("y", JNull)]])])) as [H _].
  - reflexivity.
  - exact H.
Defined.

Lemma duplicate_plugin_id_is_reported_witness :
  In (msg_duplicate_id "a") [msg_duplicate_id "a"] /\ false = false.
Proof.
  apply (duplicate_plugin_id_is_reported toy_URL toy_fetch toy_sha256
           (index_doc []) example_duplicate_id
           {| ok := false; errors := [msg_duplicate_id "a"] |}
           0 1 (plugin_doc "a" [example_version]) (plugin_doc "a" [example_version])
           "a").
  - vm_compute. reflexivity.
  - reflexivity.
  - reflexivity.
  - lia.
  - reflexivity.
  - reflexivity.
  - reflexivity.
Defined.

Lemma duplicate_version_is_reported_witness :
  exists id,
    ToString (prop (plugin_doc "b" [example_version; example_version]) "id") = Some id /\
    In (msg_duplicate_version "1.0.0" id) [msg_duplicate_version "1.0.0" "b"] /\
    false = false.
Proof.
  apply (duplicate_version_is_reported toy_URL toy_fetch toy_sha256
           (index_doc []) example_duplicate_version
           {| ok := false; errors := [msg_duplicate_version "1.0.0" "b"] |}
           (plugin_doc "b" [example_version; example_version])
           [example_version; example_version] 0 1 example_version example_version
           "1.0.0").
  - vm_compute. reflexivity.
  - left. reflexivity.
  - reflexivity.
  - reflexivity.
  - reflexivity.
  - lia.
  - reflexivity.
  - reflexivity.
  - reflexivity.
Defined.

Lemma errors_follow_the_phases_witness :
  NoDup (removed_ids example_base (index_doc [])).
Proof.
  destruct (errors_follow_the_phases toy_URL toy_fetch toy_sha256
              example_base (index_doc [])
              {| ok := false; errors := [msg_removed "a"] |}) as (_ & ND & _).
  - vm_compute. reflexivity.
  - exact ND.
Defined.

Lemma downloads_are_checked_in_queue_order_witness :
  exists ds e rs,
    collect toy_URL example_base example_new_plugin = Done (ds, e) /\
    List.length rs = List.length ds /\
    (forall i item, nth_error ds i = Some item ->
                    toy_fetch i (url item) = nth_error rs i) /\
    [] = (e ++ flat_map (fun ir => download_errors toy_sha256 (fst ir) (snd ir))
                        (combine ds rs))%list.
Proof.
  apply (downloads_are_checked_in_queue_order toy_URL toy_fetch toy_sha256
           example_base example_new_plugin {| ok := true; errors := [] |}).
  vm_compute. reflexivity.
Defined.

Lemma rejected_fetch_aborts_the_run_witness :
  validate toy_URL toy_fetch_none toy_sha256 example_base example_new_plugin = Throw.
Proof.
  apply (rejected_fetch_aborts_the_run toy_URL toy_fetch_none toy_sha256
           example_base example_new_plugin
           [ {| label := "b/1.0.0"; url := JStr "https://x/b.tgz";
                sha256 := hex64 "0" |} ]
           [] 0
           {| label := "b/1.0.0"; url := JStr "https://x/b.tgz"; sha256 := hex64 "0" |}).
  - vm_compute. reflexivity.
  - reflexivity.
  - reflexivity.
Defined.

Lemma unconvertible_id_aborts_the_run_witness :
  validate toy_URL toy_fetch toy_sha256 (index_doc []) example_trap = Throw.
Proof.
  apply (unconvertible_id_aborts_the_run toy_URL toy_fetch toy_sha256
           (index_doc []) example_trap example_trap_plugin
           (JObj [("toString", JNum 1)]) example_version []).
  - left. reflexivity.
  - reflexivity.
  - reflexivity.
  - reflexivity.
Defined.

Lemma queued_downloads_come_from_new_versions_witness :
  exists p vs v,
    In p (plugins_of example_new_plugin) /\
    prop p "versions" = Some (JArr vs) /\ In v vs /\
    typeof_object v = true /\
    truthy (map_get
              (baseVersions_of
                 (map_get (basePluginMap_of (plugins_of example_base)) (prop p "id")))
              (prop v "version")) = false /\
    download_of p v
      {| label := "b/1.0.0"; url := JStr "https://x/b.tgz"; sha256 := hex64 "0" |}.
Proof.
  apply (queued_downloads_come_from_new_versions toy_URL
           example_base example_new_plugin
           [ {| label := "b/1.0.0"; url := JStr "https://x/b.tgz";
                sha256 := hex64 "0" |} ]
           []).
  - vm_compute. reflexivity.
  - left. reflexivity.
Defined.

Lemma accepted_index_queues_nothing_witness :
  collect toy_URL example_base example_base = Done ([], []).
Proof.
  apply (accepted_index_queues_nothing toy_URL toy_fetch toy_sha256 example_base).
  vm_compute. reflexivity.
Defined.

Lemma added_plugin_is_judged_alone_witness :
  validate toy_URL toy_fetch toy_sha256 example_base
    (with_plugins (plugins_of example_base ++ [plugin_doc "b" [example_version]])
       example_base)
  = validate toy_URL toy_fetch toy_sha256 (with_plugins [] example_base)
      (with_plugins [plugin_doc "b" [example_version]] example_base).
Proof.
  apply (added_plugin_is_judged_alone toy_URL toy_fetch toy_sha256
           example_base (plugin_doc "b" [example_version])).
  - vm_compute. reflexivity.
  - intros id H. injection H as <-. reflexivity.
Defined.

Lemma modified_version_is_reported_witness :
  exists versionLabel,
    versionLabel_of
      (plugin_doc "a" [version_doc "1.0.0" "https://x/changed.tgz" (hex64 "a")])
      (version_doc "1.0.0" "https://x/changed.tgz" (hex64 "a"))
    = Done (versionLabel, []) /\
    In (msg_modifies versionLabel) [msg_modifies "a/1.0.0"] /\ false = false.
Proof.
  apply (modified_version_is_reported toy_URL toy_fetch toy_sha256
           example_base
           (index_doc
              [plugin_doc "a" [version_doc "1.0.0" "https://x/changed.tgz" (hex64 "a")]])
           0 0
           (plugin_doc "a"
              [version_doc "1.0.0" "https://x/a-1.0.0.tgz" (hex64 "a");
               version_doc "1.1.0" "https://x/a-1.1.0.tgz" (hex64 "a")])
           (version_doc "1.0.0" "https://x/a-1.0.0.tgz" (hex64 "a"))
           (plugin_doc "a" [version_doc "1.0.0" "https://x/changed.tgz" (hex64 "a")])
           (version_doc "1.0.0" "https://x/changed.tgz" (hex64 "a"))
           [version_doc "1.0.0" "https://x/changed.tgz" (hex64 "a")]
           {| ok := false; errors := [msg_modifies "a/1.0.0"] |}).
  - vm_compute. reflexivity.
  - reflexivity.
  - left. reflexivity.
  - reflexivity.
  - reflexivity.
  - left. reflexivity.
  - reflexivity.
  - reflexivity.
  - reflexivity.
  - reflexivity.
  - reflexivity.
  - reflexivity.
  - reflexivity.
  - intros K.
    assert (E : stableObject (version_doc "1.0.0" "https://x/a-1.0.0.tgz" (hex64 "a"))
                = stableObject (version_doc "1.0.0" "https://x/changed.tgz" (hex64 "a")))
      by (apply stableObject_key_permuted; [reflexivity | exact K]).
    vm_compute in E. discriminate E.
  - vm_compute. reflexivity.
Defined.

Lemma deleted_version_is_not_reported_witness :
  collect toy_URL example_base
    (with_plugin_at 0
       (with_versions
          (remove_nth 1 [version_doc "1.0.0" "https://x/a-1.0.0.tgz" (hex64 "a");
                         version_doc "1.1.0" "https://x/a-1.1.0.tgz" (hex64 "a")])
          (plugin_doc "a"
             [version_doc "1.0.0" "https://x/a-1.0.0.tgz" (hex64 "a");
              version_doc "1.1.0" "https://x/a-1.1.0.tgz" (hex64 "a")]))
       example_base) = Done ([], [])
  /\ validate toy_URL toy_fetch toy_sha256 example_base
       (with_plugin_at 0
          (with_versions
             (remove_nth 1 [version_doc "1.0.0" "https://x/a-1.0.0.tgz" (hex64 "a");
                            version_doc "1.1.0" "https://x/a-1.1.0.tgz" (hex64 "a")])
             (plugin_doc "a"
                [version_doc "1.0.0" "https://x/a-1.0.0.tgz" (hex64 "a");
                 version_doc "1.1.0" "https://x/a-1.1.0.tgz" (hex64 "a")]))
          example_base)
     = Done {| ok := true; errors := [] |}.
Proof.
  apply (deleted_version_is_not_reported toy_URL toy_fetch toy_sha256
           example_base 0 1
           (plugin_doc "a"
              [version_doc "1.0.0" "https://x/a-1.0.0.tgz" (hex64 "a");
               version_doc "1.1.0" "https://x/a-1.1.0.tgz" (hex64 "a")])
           (version_doc "1.1.0" "https://x/a-1.1.0.tgz" (hex64 "a"))
           [version_doc "1.0.0" "https://x/a-1.0.0.tgz" (hex64 "a");
            version_doc "1.1.0" "https://x/a-1.1.0.tgz" (hex64 "a")]).
  - vm_compute. reflexivity.
  - reflexivity.
  - reflexivity.
  - discriminate.
Defined.

Lemma added_version_is_judged_alone_witness :
  validate toy_URL toy_fetch toy_sha256 example_base
    (with_plugin_at 0
       (with_versions
          ([version_doc "1.0.0" "https://x/a-1.0.0.tgz" (hex64 "a");
            version_doc "1.1.0" "https://x/a-1.1.0.tgz" (hex64 "a")]
           ++ [version_doc "2.0.0" "https://x/a-2.0.0.tgz" (hex64 "0")])
          (plugin_doc "a"
             [version_doc "1.0.0" "https://x/a-1.0.0.tgz" (hex64 "a");
              version_doc "1.1.0" "https://x/a-1.1.0.tgz" (hex64 "a")]))
       example_base)
  = validate toy_URL toy_fetch toy_sha256 (with_plugins [] example_base)
      (with_plugins
         [with_versions [version_doc "2.0.0" "https://x/a-2.0.0.tgz" (hex64 "0")]
            (plugin_doc "a"
               [version_doc "1.0.0" "https://x/a-1.0.0.tgz" (hex64 "a");
                version_doc "1.1.0" "https://x/a-1.1.0.tgz" (hex64 "a")])]
         example_base).
Proof.
  apply (added_version_is_judged_alone toy_URL toy_fetch toy_sha256
           example_base 0
           (plugin_doc "a"
              [version_doc "1.0.0" "https://x/a-1.0.0.tgz" (hex64 "a");
               version_doc "1.1.0" "https://x/a-1.1.0.tgz" (hex64 "a")])
           (version_doc "2.0.0" "https://x/a-2.0.0.tgz" (hex64 "0"))
           [version_doc "1.0.0" "https://x/a-1.0.0.tgz" (hex64 "a");
            version_doc "1.1.0" "https://x/a-1.1.0.tgz" (hex64 "a")]).
  - vm_compute. reflexivity.
  - reflexivity.
  - reflexivity.
  - intros w [<-|[<-|[]]]; discriminate.
Defined.
